(** * LinguistPro: review scheduling and session lifecycle

    A shallow embedding of the scheduling core of the application
    ([src/types.ts] and the handlers of [src/App.tsx]) and the proofs of
    its properties.

    Conventions of the embedding.
    - Instants are JavaScript millisecond timestamps; they are integers
      far below 2^53, so they are modelled by [Z] and their arithmetic is
      exact.
    - [reviewCount] is a counter that starts at 0 and is only incremented;
      it is modelled by [nat].
    - An optional field ([lastNotifiedAt?: number]) is an [option]; the
      JavaScript truthiness test on it is written out ([truthy]).
    - The [Date.now()] reads made while one event is handled return the
      same instant, which the handler takes as its argument.
    - The time zone of the platform is a parameter of the definitions
      that read the local time.
    - A React state update [setSessions(prev => ...)] is the function it
      is given; the handlers return the new application state.
    - The percentage of the progress bar is computed in binary64, as
      JavaScript does, with the operations of [SpecFloat].
    - A string is the sequence of the bytes of its UTF-8 encoding; the
      binary string [atob] returns is the sequence of its bytes.
      [String.prototype.toLowerCase] is a parameter of the definitions that
      call it. *)

From Stdlib Require Import String Ascii.
From Stdlib Require Import ZArith List Bool Arith Lia.
From Stdlib Require Import Permutation Sorted.
From Stdlib Require Import DecimalString.
From Stdlib Require Import Floats.SpecFloat.
Import ListNotations.

Open Scope Z_scope.

(* ================================================================== *)
(** * [src/types.ts] *)
(* ================================================================== *)

Record Gloss := { en : string; zh : string }.

Record WordDetail := {
  word : string;
  phonetic : string;
  definitions : list Gloss;
  examples : list Gloss
}.

Record VocabularyWord := {
  detail : WordDetail;
  addedAt : Z;
  lastPracticedAt : option Z
}.

Record UserGoals := { dailyNewWords : Z; dailyReviews : Z }.

(** A session as the store holds it.  [aiTranslation] and [aiComparison]
    are declared as strings, but nothing checks the object that
    [compareTranslations] parses from the answer of the model: the two
    fields are missing when the answer has none ([option]). *)
Record LearningSession := {
  id : string;
  originalImage : option string;
  extractedText : string;
  words : list WordDetail;
  userTranslation : string;
  aiTranslation : option string;
  aiComparison : option string;
  createdAt : Z;
  nextReviewAt : Z;
  reviewCount : nat;
  lastNotifiedAt : option Z;
  lastReviewedAt : option Z
}.

(** [Partial<LearningSession>]: every field may be missing. *)
Record PartialSession := {
  p_id : option string;
  p_originalImage : option string;
  p_extractedText : option string;
  p_words : option (list WordDetail);
  p_userTranslation : option string;
  p_aiTranslation : option string;
  p_aiComparison : option string;
  p_createdAt : option Z;
  p_nextReviewAt : option Z;
  p_reviewCount : option nat;
  p_lastNotifiedAt : option Z;
  p_lastReviewedAt : option Z
}.

Inductive AppStage :=
  | IDLE | CAPTURE | OCR_RESULT | WORD_BREAKDOWN | USER_THINKING
  | COMPARISON | REVIEW_CENTER | VOCABULARY | WORD_PRACTICE | FEEDBACK
  | GOALS.

Definition AppStage_eqb (a b : AppStage) : bool :=
  match a, b with
  | IDLE, IDLE | CAPTURE, CAPTURE | OCR_RESULT, OCR_RESULT
  | WORD_BREAKDOWN, WORD_BREAKDOWN | USER_THINKING, USER_THINKING
  | COMPARISON, COMPARISON | REVIEW_CENTER, REVIEW_CENTER
  | VOCABULARY, VOCABULARY | WORD_PRACTICE, WORD_PRACTICE
  | FEEDBACK, FEEDBACK | GOALS, GOALS => true
  | _, _ => false
  end.

(** Days. *)
Definition EBBINGHAUS_INTERVALS : list Z := [1; 2; 4; 7; 15; 30].

(* ================================================================== *)
(** * JavaScript idioms used by the handlers *)
(* ================================================================== *)

(** Truthiness of an optional number: [undefined] and [0] are falsy. *)
Definition truthy (o : option Z) : bool :=
  match o with
  | Some t => negb (t =? 0)
  | None => false
  end.

(** Truthiness of an optional string: [undefined] and [""] are falsy. *)
Definition truthy_str (o : option string) : bool :=
  match o with
  | Some s => negb (s =? "")%string
  | None => false
  end.

(** [n || 0] on a counter. *)
Definition or0 (n : nat) : nat := if (n =? 0)%nat then 0%nat else n.

(** [o || d] on an optional number. *)
Definition orElse (o : option Z) (d : Z) : Z :=
  match o with
  | Some t => if t =? 0 then d else t
  | None => d
  end.

(** [a < b] where [a] may be [undefined] (the comparison is then false). *)
Definition ltOpt (a : option Z) (b : Z) : bool :=
  match a with
  | Some t => t <? b
  | None => false
  end.

(** [a >= b] where [a] may be [undefined]. *)
Definition geOpt (a : option Z) (b : Z) : bool :=
  match a with
  | Some t => t >=? b
  | None => false
  end.

(** [s.id === currentSession.id]. *)
Definition sameId (s : LearningSession) (cur : PartialSession) : bool :=
  match p_id cur with
  | Some i => (id s =? i)%string
  | None => false
  end.

(** [Date.now().toString()]. *)
Definition toString (t : Z) : string := NilZero.string_of_int (Z.to_int t).

(** The characters [String.prototype.trim] removes are the WhiteSpace and
    LineTerminator code points of ECMAScript.  Six are ASCII: U+0009 to
    U+000D and U+0020. *)
Definition isWhite1 (b1 : N) : bool :=
  ((9 <=? b1) && (b1 <=? 13) || (b1 =? 32))%N.

(** One takes two bytes in UTF-8: U+00A0. *)
Definition isWhite2 (b1 b2 : N) : bool := ((b1 =? 194) && (b2 =? 160))%N.

(** The others take three bytes: U+1680, U+2000 to U+200A, U+2028, U+2029,
    U+202F, U+205F, U+3000 and U+FEFF. *)
Definition isWhite3 (b1 b2 b3 : N) : bool :=
  ((b1 =? 225) && (b2 =? 154) && (b3 =? 128)
   || (b1 =? 226) && (b2 =? 128)
      && ((128 <=? b3) && (b3 <=? 138) || (b3 =? 168) || (b3 =? 169)
          || (b3 =? 175))
   || (b1 =? 226) && (b2 =? 129) && (b3 =? 159)
   || (b1 =? 227) && (b2 =? 128) && (b3 =? 128)
   || (b1 =? 239) && (b2 =? 187) && (b3 =? 191))%N.

(** [!s.trim()]: the string [s] is made of white space only. *)
Fixpoint isBlank (s : string) : bool :=
  match s with
  | EmptyString => true
  | String c1 s1 =>
      if isWhite1 (N_of_ascii c1) then isBlank s1
      else
        match s1 with
        | EmptyString => false
        | String c2 s2 =>
            if isWhite2 (N_of_ascii c1) (N_of_ascii c2) then isBlank s2
            else
              match s2 with
              | EmptyString => false
              | String c3 s3 =>
                  if isWhite3 (N_of_ascii c1) (N_of_ascii c2) (N_of_ascii c3)
                  then isBlank s3
                  else false
              end
        end
  end.

(** The object spread [{...s, reviewCount, nextReviewAt, lastNotifiedAt,
    lastReviewedAt}]: every other field is the one of [s]. *)
Definition withSchedule (s : LearningSession) (rc : nat) (nra : Z)
    (lna lra : option Z) : LearningSession :=
  {| id := id s;
     originalImage := originalImage s;
     extractedText := extractedText s;
     words := words s;
     userTranslation := userTranslation s;
     aiTranslation := aiTranslation s;
     aiComparison := aiComparison s;
     createdAt := createdAt s;
     nextReviewAt := nra;
     reviewCount := rc;
     lastNotifiedAt := lna;
     lastReviewedAt := lra |}.

(** [{...s, lastNotifiedAt: t}]. *)
Definition withLastNotifiedAt (s : LearningSession) (t : Z) : LearningSession :=
  withSchedule s (reviewCount s) (nextReviewAt s) (Some t) (lastReviewedAt s).

(** A stored session seen as a [Partial<LearningSession>]
    ([setCurrentSession(s)]). *)
Definition toPartial (s : LearningSession) : PartialSession :=
  {| p_id := Some (id s);
     p_originalImage := originalImage s;
     p_extractedText := Some (extractedText s);
     p_words := Some (words s);
     p_userTranslation := Some (userTranslation s);
     p_aiTranslation := aiTranslation s;
     p_aiComparison := aiComparison s;
     p_createdAt := Some (createdAt s);
     p_nextReviewAt := Some (nextReviewAt s);
     p_reviewCount := Some (reviewCount s);
     p_lastNotifiedAt := lastNotifiedAt s;
     p_lastReviewedAt := lastReviewedAt s |}.

(** The empty object [{}]. *)
Definition emptySession : PartialSession :=
  {| p_id := None; p_originalImage := None; p_extractedText := None;
     p_words := None; p_userTranslation := None; p_aiTranslation := None;
     p_aiComparison := None; p_createdAt := None; p_nextReviewAt := None;
     p_reviewCount := None; p_lastNotifiedAt := None;
     p_lastReviewedAt := None |}.

(** The cast [currentSession as LearningSession].  TypeScript does not
    check it, and the object is stored with the fields it has.  The
    embedding follows the fields: the cast yields a stored session when the
    id, the text, the words, the translation of the user, the creation time
    and the schedule are present, which is the case whenever the COMPARISON
    stage shows a session with an id (lemma [comparison_complete] below);
    the two answers of the model are taken as they are, present or not. *)
Definition asLearningSession (p : PartialSession) : option LearningSession :=
  match p_id p, p_extractedText p, p_words p, p_userTranslation p,
        p_createdAt p, p_nextReviewAt p, p_reviewCount p with
  | Some i, Some tx, Some ws, Some ut, Some ca, Some nra, Some rc =>
      Some {| id := i;
              originalImage := p_originalImage p;
              extractedText := tx;
              words := ws;
              userTranslation := ut;
              aiTranslation := p_aiTranslation p;
              aiComparison := p_aiComparison p;
              createdAt := ca;
              nextReviewAt := nra;
              reviewCount := rc;
              lastNotifiedAt := p_lastNotifiedAt p;
              lastReviewedAt := p_lastReviewedAt p |}
  | _, _, _, _, _, _, _ => None
  end.

(* ================================================================== *)
(** * [src/App.tsx]: the scheduler ([handleFinishLearning]) *)
(* ================================================================== *)

Definition msPerDay : Z := 24 * 60 * 60 * 1000.

(** The updater given to [setSessions] by [handleFinishLearning]. *)
Definition finishUpdate (now : Z) (currentSession : PartialSession)
    (prev : list LearningSession) : list LearningSession :=
  match find (fun s => sameId s currentSession) prev with
  | Some existing =>
      let nextIntervalIndex :=
        Nat.min (or0 (reviewCount existing) + 1)
                (length EBBINGHAUS_INTERVALS - 1) in
      let daysToAdd := nth nextIntervalIndex EBBINGHAUS_INTERVALS 0 in
      map (fun s =>
             if sameId s currentSession
             then withSchedule s (or0 (reviewCount s) + 1)
                    (now + daysToAdd * 24 * 60 * 60 * 1000)
                    (Some 0) (Some now)
             else s) prev
  | None =>
      let firstIntervalDays := nth 0%nat EBBINGHAUS_INTERVALS 0 in
      match asLearningSession currentSession with
      | Some cs =>
          withSchedule cs 1
            (now + firstIntervalDays * 24 * 60 * 60 * 1000)
            (lastNotifiedAt cs) (Some now) :: prev
      | None => prev
      end
  end.

(* ================================================================== *)
(** * [src/App.tsx]: the application state and its handlers *)
(* ================================================================== *)

(** The [useState] cells the scheduling core reads or writes.  [sessions]
    is one array object shared by every reader; a handler that mutates it
    in place returns the state with the mutated array. *)
Record AppState := {
  isOpen : bool;
  stage : AppStage;
  sessions : list LearningSession;
  vocabulary : list VocabularyWord;
  currentSession : PartialSession;
  selectedWord : option WordDetail;
  userInput : string;
  manualEnglishInput : string;
  now : Z;
  goals : UserGoals
}.

Definition initialState (t : Z) : AppState :=
  {| isOpen := false; stage := IDLE; sessions := []; vocabulary := [];
     currentSession := emptySession; selectedWord := None; userInput := "";
     manualEnglishInput := ""; now := t;
     goals := {| dailyNewWords := 5; dailyReviews := 10 |} |}.

Definition setSessions (l : list LearningSession) (st : AppState) : AppState :=
  {| isOpen := isOpen st; stage := stage st; sessions := l;
     vocabulary := vocabulary st; currentSession := currentSession st;
     selectedWord := selectedWord st; userInput := userInput st;
     manualEnglishInput := manualEnglishInput st; now := now st;
     goals := goals st |}.

Definition setStage (g : AppStage) (st : AppState) : AppState :=
  {| isOpen := isOpen st; stage := g; sessions := sessions st;
     vocabulary := vocabulary st; currentSession := currentSession st;
     selectedWord := selectedWord st; userInput := userInput st;
     manualEnglishInput := manualEnglishInput st; now := now st;
     goals := goals st |}.

Definition setIsOpen (b : bool) (st : AppState) : AppState :=
  {| isOpen := b; stage := stage st; sessions := sessions st;
     vocabulary := vocabulary st; currentSession := currentSession st;
     selectedWord := selectedWord st; userInput := userInput st;
     manualEnglishInput := manualEnglishInput st; now := now st;
     goals := goals st |}.

Definition setCurrentSession (p : PartialSession) (st : AppState) : AppState :=
  {| isOpen := isOpen st; stage := stage st; sessions := sessions st;
     vocabulary := vocabulary st; currentSession := p;
     selectedWord := selectedWord st; userInput := userInput st;
     manualEnglishInput := manualEnglishInput st; now := now st;
     goals := goals st |}.

Definition setSelectedWord (w : option WordDetail) (st : AppState) : AppState :=
  {| isOpen := isOpen st; stage := stage st; sessions := sessions st;
     vocabulary := vocabulary st; currentSession := currentSession st;
     selectedWord := w; userInput := userInput st;
     manualEnglishInput := manualEnglishInput st; now := now st;
     goals := goals st |}.

Definition setUserInput (u : string) (st : AppState) : AppState :=
  {| isOpen := isOpen st; stage := stage st; sessions := sessions st;
     vocabulary := vocabulary st; currentSession := currentSession st;
     selectedWord := selectedWord st; userInput := u;
     manualEnglishInput := manualEnglishInput st; now := now st;
     goals := goals st |}.

Definition setManualEnglishInput (u : string) (st : AppState) : AppState :=
  {| isOpen := isOpen st; stage := stage st; sessions := sessions st;
     vocabulary := vocabulary st; currentSession := currentSession st;
     selectedWord := selectedWord st; userInput := userInput st;
     manualEnglishInput := u; now := now st; goals := goals st |}.

Definition setNow (t : Z) (st : AppState) : AppState :=
  {| isOpen := isOpen st; stage := stage st; sessions := sessions st;
     vocabulary := vocabulary st; currentSession := currentSession st;
     selectedWord := selectedWord st; userInput := userInput st;
     manualEnglishInput := manualEnglishInput st; now := t;
     goals := goals st |}.

Definition setVocabulary (v : list VocabularyWord) (st : AppState) : AppState :=
  {| isOpen := isOpen st; stage := stage st; sessions := sessions st;
     vocabulary := v; currentSession := currentSession st;
     selectedWord := selectedWord st; userInput := userInput st;
     manualEnglishInput := manualEnglishInput st; now := now st;
     goals := goals st |}.

Definition setGoals (g : UserGoals) (st : AppState) : AppState :=
  {| isOpen := isOpen st; stage := stage st; sessions := sessions st;
     vocabulary := vocabulary st; currentSession := currentSession st;
     selectedWord := selectedWord st; userInput := userInput st;
     manualEnglishInput := manualEnglishInput st; now := now st;
     goals := g |}.

(** The object both capture handlers give to [setCurrentSession]. *)
Definition capturedSession (t : Z) (text : string) : PartialSession :=
  {| p_id := Some (toString t);
     p_originalImage := None;
     p_extractedText := Some text;
     p_words := Some [];
     p_userTranslation := None;
     p_aiTranslation := None;
     p_aiComparison := None;
     p_createdAt := Some t;
     p_nextReviewAt := Some (t + 86400000);
     p_reviewCount := Some 0%nat;
     p_lastNotifiedAt := None;
     p_lastReviewedAt := None |}.

(** [processImageBase64], once [extractTextFromImage] has answered [text]
    (a failed extraction changes none of these cells). *)
Definition processImageBase64 (t : Z) (text : string) (st : AppState) : AppState :=
  setStage OCR_RESULT (setCurrentSession (capturedSession t text) st).

Definition handleManualSubmit (t : Z) (st : AppState) : AppState :=
  if isBlank (manualEnglishInput st) then st
  else
    setStage OCR_RESULT
      (setManualEnglishInput ""
         (setCurrentSession (capturedSession t (manualEnglishInput st)) st)).

(** The submit button of the translation challenge, once
    [compareTranslations] has answered [result]: [final] is
    [{...currentSession, userTranslation, aiTranslation:
    result.aiTranslation, aiComparison: result.comparison,
    createdAt: currentSession.createdAt || Date.now()}].  [ai] and [cmp]
    are the two properties read from [result], the object parsed from the
    answer of the model or from ['{}'] when the answer has no text: a string
    each, as the response schema says, or [undefined]. *)
Definition submitTranslation (t : Z) (ai cmp : option string) (st : AppState)
    : AppState :=
  let cur := currentSession st in
  let final :=
    {| p_id := p_id cur;
       p_originalImage := p_originalImage cur;
       p_extractedText := p_extractedText cur;
       p_words := p_words cur;
       p_userTranslation := Some (userInput st);
       p_aiTranslation := ai;
       p_aiComparison := cmp;
       p_createdAt := Some (orElse (p_createdAt cur) t);
       p_nextReviewAt := p_nextReviewAt cur;
       p_reviewCount := p_reviewCount cur;
       p_lastNotifiedAt := p_lastNotifiedAt cur;
       p_lastReviewedAt := p_lastReviewedAt cur |} in
  setStage COMPARISON (setCurrentSession final st).

(** A click on a stored session (due list, schedule listing, or the
    notification): [setCurrentSession(s); setStage(COMPARISON)]. *)
Definition openSession (s : LearningSession) (st : AppState) : AppState :=
  setIsOpen true (setStage COMPARISON (setCurrentSession (toPartial s) st)).

Definition handleFinishLearning (t : Z) (st : AppState) : AppState :=
  if negb (truthy_str (p_id (currentSession st))) then st
  else
    setUserInput ""
      (setSelectedWord None
         (setCurrentSession emptySession
            (setStage IDLE
               (setIsOpen false
                  (setSessions
                     (finishUpdate t (currentSession st) (sessions st))
                     st))))).

(* ================================================================== *)
(** * [src/App.tsx]: due detection and the notifier ([checkReviews]) *)
(* ================================================================== *)

Inductive NotificationPermission := granted | denied | undetermined.

(** The filter predicate of [checkReviews]:
    [s.nextReviewAt <= Date.now() &&
     (!s.lastNotifiedAt || s.lastNotifiedAt < s.nextReviewAt)]. *)
Definition newlyDue (t : Z) (s : LearningSession) : bool :=
  (nextReviewAt s <=? t)
  && (negb (truthy (lastNotifiedAt s))
      || ltOpt (lastNotifiedAt s) (nextReviewAt s)).

Definition dueSessions (t : Z) (l : list LearningSession) : list LearningSession :=
  filter (newlyDue t) l.

(** What the [Notification] carries: the count shown in its body and the
    session its click handler opens. *)
Record ReviewNotification := {
  dueNumber : nat;
  firstSession : LearningSession
}.

(** The updater given to [setSessions] by [checkReviews]. *)
Definition notifiedUpdate (t : Z) (due prev : list LearningSession)
    : list LearningSession :=
  map (fun s =>
         if existsb (fun ds => (id ds =? id s)%string) due
         then withLastNotifiedAt s t
         else s) prev.

(** One run of [checkReviews] over the [sessions] it closes over: the
    notification it constructs, if any, and the state update it queues. *)
Definition checkReviews (perm : NotificationPermission) (t : Z)
    (l : list LearningSession)
    : option (ReviewNotification * (list LearningSession -> list LearningSession)) :=
  match perm with
  | granted =>
      match dueSessions t l with
      | first :: rest =>
          Some ({| dueNumber := List.length (first :: rest);
                   firstSession := first |},
                notifiedUpdate t (first :: rest))
      | [] => None
      end
  | _ => None
  end.

(** A timer tick: [checkReviews] runs on the current sessions and React
    applies the queued update to them. *)
Definition tick (perm : NotificationPermission) (t : Z) (st : AppState)
    : option ReviewNotification * AppState :=
  match checkReviews perm t (sessions st) with
  | Some (n, update) => (Some n, setSessions (update (sessions st)) st)
  | None => (None, st)
  end.

(** [sessions.filter(s => s.nextReviewAt <= now)]. *)
Definition dueNow (t : Z) (l : list LearningSession) : list LearningSession :=
  filter (fun s => nextReviewAt s <=? t) l.

Definition dueCount (st : AppState) : nat := List.length (dueNow (now st) (sessions st)).

(* ================================================================== *)
(** * [src/App.tsx]: daily progress *)
(* ================================================================== *)

(** The time zone of the platform, as ECMAScript reads it:
    [LocalTZA tz t true] is the offset of the local time from UTC, in
    milliseconds, at the instant [t]; [LocalTZA tz t false] is the offset
    at the local time [t].  The offset changes at the transitions of the
    zone (daylight saving time). *)
Record TimeZone := { LocalTZA : Z -> bool -> Z }.

Definition LocalTime (tz : TimeZone) (t : Z) : Z := t + LocalTZA tz t true.

Definition UTC (tz : TimeZone) (t : Z) : Z := t - LocalTZA tz t false.

Definition Day (t : Z) : Z := t / msPerDay.

Definition MakeTime (hour min sec ms : Z) : Z :=
  hour * 3600000 + min * 60000 + sec * 1000 + ms.

Definition MakeDate (day time : Z) : Z := day * msPerDay + time.

(** [new Date(t).setHours(0, 0, 0, 0)], as [Date.prototype.setHours] is
    specified: the local time of [t], its day at the time 0, and back to
    an instant.  ([TimeClip] leaves the instants of a clock as they are.) *)
Definition setHours0 (tz : TimeZone) (t : Z) : Z :=
  UTC tz (MakeDate (Day (LocalTime tz t)) (MakeTime 0 0 0 0)).

Record DailyProgress := { newWords : nat; reviews : nat }.

Definition dailyProgress (tz : TimeZone) (t : Z) (voc : list VocabularyWord)
    (l : list LearningSession) : DailyProgress :=
  let startOfDay := setHours0 tz t in
  let newWordsCount :=
    List.length (filter (fun v => addedAt v >=? startOfDay) voc) in
  let reviewsCount :=
    List.length
      (filter (fun s => truthy (lastReviewedAt s)
                        && geOpt (lastReviewedAt s) startOfDay) l) in
  {| newWords := newWordsCount; reviews := reviewsCount |}.

(* ================================================================== *)
(** * [src/App.tsx]: the schedule listing (REVIEW_CENTER) *)
(* ================================================================== *)

(** [Array.prototype.sort(comparefn)]: a stable sort; [x] goes before [y]
    when [comparefn(x, y) <= 0] and [x] was before [y].  Any stable sort
    returns this list; it is written here as an insertion sort. *)
Section ArraySort.
Context {A : Type} (comparefn : A -> A -> Z).

Fixpoint insertSorted (x : A) (l : list A) : list A :=
  match l with
  | [] => [x]
  | y :: l' =>
      if comparefn x y <=? 0 then x :: y :: l'
      else y :: insertSorted x l'
  end.

Fixpoint Array_sort (l : list A) : list A :=
  match l with
  | [] => []
  | x :: l' => insertSorted x (Array_sort l')
  end.
End ArraySort.

(** [(a, b) => a.nextReviewAt - b.nextReviewAt]. *)
Definition byNextReviewAt (a b : LearningSession) : Z :=
  nextReviewAt a - nextReviewAt b.

(** A card of the schedule listing. *)
Record ScheduleCard := { card : LearningSession; isDue : bool }.

(** Rendering the REVIEW_CENTER stage: the cards shown, and the state
    after the render.  [sessions.sort(...)] sorts the state array itself,
    so the state after the render holds the sorted array. *)
Definition renderReviewCenter (st : AppState) : list ScheduleCard * AppState :=
  if isOpen st && AppStage_eqb (stage st) REVIEW_CENTER then
    if (List.length (sessions st) =? 0)%nat then ([], st)
    else
      let sorted := Array_sort byNextReviewAt (sessions st) in
      (map (fun s => {| card := s; isDue := nextReviewAt s <=? now st |}) sorted,
       setSessions sorted st)
  else ([], st).

(* ================================================================== *)
(** * [src/App.tsx]: the progress bar *)
(* ================================================================== *)

(** JavaScript numbers are binary64 floating-point numbers. *)
Module Number.
Definition prec : Z := 53.
Definition emax : Z := 1024.

Definition ofZ (z : Z) : spec_float := binary_normalize prec emax z 0 false.
Definition div : spec_float -> spec_float -> spec_float := SFdiv prec emax.
Definition mul : spec_float -> spec_float -> spec_float := SFmul prec emax.
Definition ltb : spec_float -> spec_float -> bool := SFltb.
Definition geb (x y : spec_float) : bool := SFleb y x.

(** [Math.round]: the nearest integer, a tie going up; NaN, the
    infinities and the zeros are returned as they are, and a result of
    zero keeps the sign of the argument. *)
Definition round (x : spec_float) : spec_float :=
  match x with
  | S754_finite s m e =>
      if 0 <=? e then x
      else
        let sm := if s then Z.neg m else Z.pos m in
        let n := Z.shiftr (2 * sm + Z.shiftl 1 (- e)) (- e + 1) in
        binary_normalize prec emax n 0 s
  | _ => x
  end.

(** [Math.min] of two numbers: NaN if either is NaN, and -0 is below +0. *)
Definition min (x y : spec_float) : spec_float :=
  match x, y with
  | S754_nan, _ | _, S754_nan => S754_nan
  | S754_zero sx, S754_zero sy => S754_zero (sx || sy)
  | _, _ => if ltb x y then x else y
  end.
End Number.

Record ProgressBarView := { percentage : spec_float; isCompleted : bool }.

(** [ProgressBar]: [current] and [goal] are integers (a count and a goal
    read by [parseInt]). *)
Definition ProgressBar (current goal : Z) : ProgressBarView :=
  {| percentage :=
       Number.min
         (Number.round
            (Number.mul (Number.div (Number.ofZ current) (Number.ofZ goal))
                        (Number.ofZ 100)))
         (Number.ofZ 100);
     isCompleted := Number.geb (Number.ofZ current) (Number.ofZ goal) |}.

(* ================================================================== *)
(** * The application as a transition system *)
(* ================================================================== *)

(** The user and timer events that read or write the cells above.  An
    event that carries an instant [t] is a handler run whose [Date.now()]
    is [t]. *)
Inductive Event :=
  | ImageExtracted (t : Z) (text : string)
  | TypeManual (text : string)
  | ManualSubmit (t : Z)
  | SelectWord (w : WordDetail)
  | NextToTranslation
  | TypeTranslation (u : string)
  | SubmitTranslation (t : Z) (ai cmp : option string)
  | OpenSession (s : LearningSession)
  | FinishLearning (t : Z)
  | Tick (perm : NotificationPermission) (t : Z)
  | ClockRefresh (t : Z)
  | Render
  | Navigate (o : bool) (g : AppStage)
  | VocabularyChange (v : list VocabularyWord)
  | Reload (t : Z)
  | CloseDrawer
  | SetGoals (g : UserGoals).

Definition handle (e : Event) (st : AppState) : AppState :=
  match e with
  | ImageExtracted t text => processImageBase64 t text st
  | TypeManual text => setManualEnglishInput text st
  | ManualSubmit t => handleManualSubmit t st
  | SelectWord w => setSelectedWord (Some w) st
  | NextToTranslation => setStage USER_THINKING st
  | TypeTranslation u => setUserInput u st
  | SubmitTranslation t ai cmp => submitTranslation t ai cmp st
  | OpenSession s => openSession s st
  | FinishLearning t => handleFinishLearning t st
  | Tick perm t => snd (tick perm t st)
  | ClockRefresh t => setNow t st
  | Render => snd (renderReviewCenter st)
  | Navigate o g => setIsOpen o (setStage g st)
  | VocabularyChange v => setVocabulary v st
  | Reload t =>
      setGoals (goals st)
        (setVocabulary (vocabulary st)
           (setSessions (sessions st) (initialState t)))
  | CloseDrawer => setIsOpen false st
  | SetGoals g => setGoals g st
  end.

(** When the user interface offers the event.
    - The buttons are rendered in one stage of the open drawer.
    - A session is opened from a list of the stored sessions or from a
      notification, which keeps the copy of the session it was built with;
      in both cases its id is the id of a stored session.
    - Every other stage change of the interface ([Navigate]) leads to a
      stage other than USER_THINKING and COMPARISON.
    - The goal sliders range from 1 to 50.
    - [Date.now()] is positive. *)
Definition enabled (e : Event) (st : AppState) : bool :=
  match e with
  | ImageExtracted t _ => 0 <? t
  | ManualSubmit t =>
      (0 <? t) && isOpen st && AppStage_eqb (stage st) CAPTURE
  | NextToTranslation =>
      isOpen st && AppStage_eqb (stage st) OCR_RESULT
      && match selectedWord st with None => true | Some _ => false end
  | SubmitTranslation t _ _ =>
      (0 <? t) && isOpen st && AppStage_eqb (stage st) USER_THINKING
      && negb (isBlank (userInput st))
  | OpenSession s =>
      existsb (fun s' => (id s' =? id s)%string) (sessions st)
  | FinishLearning t =>
      (0 <? t) && isOpen st && AppStage_eqb (stage st) COMPARISON
  | Tick _ t => 0 <? t
  | ClockRefresh t => 0 <? t
  | Reload t => 0 <? t
  | Navigate _ g =>
      negb (AppStage_eqb g USER_THINKING) && negb (AppStage_eqb g COMPARISON)
  | SetGoals g =>
      (1 <=? dailyNewWords g) && (dailyNewWords g <=? 50)
      && (1 <=? dailyReviews g) && (dailyReviews g <=? 50)
  | TypeManual _ | SelectWord _ | TypeTranslation _ | Render
  | VocabularyChange _ | CloseDrawer => true
  end.

Inductive reachable : AppState -> Prop :=
  | reachable_init (t : Z) : 0 < t -> reachable (initialState t)
  | reachable_step (st : AppState) (e : Event) :
      reachable st -> enabled e st = true -> reachable (handle e st).

(** Running a list of events, skipping those that are not offered. *)
Fixpoint run (es : list Event) (st : AppState) : AppState :=
  match es with
  | [] => st
  | e :: es' => run es' (if enabled e st then handle e st else st)
  end.

(* ================================================================== *)
(** * Specification vocabulary *)
(* ================================================================== *)

(** The interval table as a function of the stage, as the specification
    words it: the entry at the stage, or the last entry beyond the table. *)
Definition IntervalTable (i : nat) : Z :=
  nth (Nat.min i (List.length EBBINGHAUS_INTERVALS - 1)) EBBINGHAUS_INTERVALS 0.

(** The table index that scheduled a stored session with [rc] completed
    reviews: the first completion uses index 0, a later one the clamped
    count. *)
Definition stageIndex (rc : nat) : nat :=
  if (rc =? 1)%nat then 0%nat else Nat.min rc (List.length EBBINGHAUS_INTERVALS - 1).

(** The last scheduling event of a record: its last review or, before
    the first one, its creation. *)
Definition lastScheduled (s : LearningSession) : Z :=
  match lastReviewedAt s with
  | Some r => r
  | None => createdAt s
  end.

(** The fields [handleFinishLearning] does not write. *)
Definition sameContent (a b : LearningSession) : Prop :=
  id a = id b /\ createdAt a = createdAt b
  /\ extractedText a = extractedText b /\ words a = words b
  /\ userTranslation a = userTranslation b
  /\ aiTranslation a = aiTranslation b
  /\ aiComparison a = aiComparison b
  /\ originalImage a = originalImage b.

(** [Count P l n]: exactly [n] elements of [l] satisfy [P]. *)
Inductive Count {A : Type} (P : A -> Prop) : list A -> nat -> Prop :=
  | Count_nil : Count P [] 0
  | Count_in (x : A) (l : list A) (n : nat) :
      P x -> Count P l n -> Count P (x :: l) (S n)
  | Count_out (x : A) (l : list A) (n : nat) :
      ~ P x -> Count P l n -> Count P (x :: l) n.

(** The condition of the specification for a newly due record. *)
Definition NewlyDue (t : Z) (s : LearningSession) : Prop :=
  nextReviewAt s <= t
  /\ (lastNotifiedAt s = None \/ lastNotifiedAt s = Some 0
      \/ exists n, lastNotifiedAt s = Some n /\ n < nextReviewAt s).

(** A stored session is scheduled from its last review by the table. *)
Definition storedOk (s : LearningSession) : Prop :=
  (1 <= reviewCount s)%nat
  /\ exists last,
       0 < last /\ lastReviewedAt s = Some last
       /\ nextReviewAt s
          = last + nth (stageIndex (reviewCount s)) EBBINGHAUS_INTERVALS 0 * msPerDay.

(** A captured session that has not been reviewed. *)
Definition freshAt (c : Z) (p : PartialSession) : Prop :=
  0 < c
  /\ p_createdAt p = Some c
  /\ p_nextReviewAt p = Some (c + 86400000)
  /\ p_reviewCount p = Some 0%nat
  /\ p_lastReviewedAt p = None
  /\ p_id p <> None /\ p_extractedText p <> None /\ p_words p <> None.

Definition translated (p : PartialSession) : Prop :=
  p_userTranslation p <> None.

Record Inv (st : AppState) : Prop := {
  inv_stored : Forall storedOk (sessions st);
  inv_ids : NoDup (map id (sessions st));
  inv_current :
    p_id (currentSession st) = None
    \/ (exists c, freshAt c (currentSession st)
                  /\ (stage st = COMPARISON -> translated (currentSession st)))
    \/ (exists full, asLearningSession (currentSession st) = Some full
                     /\ In (id full) (map id (sessions st)))
}.

(** The local date of an instant, as a number of days. *)
Definition localDay (tz : TimeZone) (t : Z) : Z := Day (LocalTime tz t).

(** What ECMAScript asks of the platform for [UTC]: a local time that the
    clock shows at some instant is read as the first instant at which the
    clock shows it.  The offsets themselves are left to the platform. *)
Definition conforms (tz : TimeZone) : Prop :=
  forall u : Z,
    LocalTime tz (UTC tz (LocalTime tz u)) = LocalTime tz u
    /\ UTC tz (LocalTime tz u) <= u.

(** [m] is a local midnight: the first instant at which the local clock
    shows 00:00:00.000 of its date. *)
Definition localMidnight (tz : TimeZone) (m : Z) : Prop :=
  LocalTime tz m mod msPerDay = 0
  /\ forall u : Z, LocalTime tz u = LocalTime tz m -> m <= u.

(* ================================================================== *)
(** * States and records used as examples *)
(* ================================================================== *)

(** A session captured at [t0], translated at [t1], on the COMPARISON
    stage of an application that has stored nothing yet. *)
Definition learned (t0 t1 : Z) (text u ai cmp : string) : AppState :=
  handle (SubmitTranslation t1 (Some ai) (Some cmp))
    (handle (TypeTranslation u)
       (handle NextToTranslation
          (handle (ImageExtracted t0 text)
             (handle (Navigate true CAPTURE) (initialState t0))))).


(** A stored record that has been reviewed five times and is due for
    its sixth review. *)
Definition reviewedFiveTimes : LearningSession :=
  {| id := "1700000000000"; originalImage := None;
     extractedText := "carpe diem"; words := [];
     userTranslation := "seize the day";
     aiTranslation := Some "seize the day"%string;
     aiComparison := Some "ok"%string; createdAt := 1700000000000;
     nextReviewAt := 1702592000000; reviewCount := 5;
     lastNotifiedAt := None; lastReviewedAt := Some 1700000000000 |}.

(** A captured and translated session, as the COMPARISON stage holds it
    before its first completion. *)
Definition newcomer : LearningSession :=
  {| id := "1700000500000"; originalImage := None;
     extractedText := "tempus fugit"; words := [];
     userTranslation := "time flies";
     aiTranslation := Some "time flies"%string;
     aiComparison := Some "ok"%string; createdAt := 1700000500000;
     nextReviewAt := 1700086900000; reviewCount := 0;
     lastNotifiedAt := None; lastReviewedAt := None |}.

(** The store after the [n]-th review of one session, each review run at
    the instant 1. *)
Fixpoint reviewedTimes (n : nat) : AppState :=
  match n with
  | O => handle (FinishLearning 1) (learned 1 1 "a" "b" "c" "d")
  | S k =>
      match sessions (reviewedTimes k) with
      | s :: _ => handle (FinishLearning 1) (handle (OpenSession s) (reviewedTimes k))
      | [] => reviewedTimes k
      end
  end.

(** The first session, stored by a first completion at the instant 1 and
    opened again for review. *)
Definition revisit : AppState :=
  match sessions (reviewedTimes 0) with
  | s :: _ => handle (OpenSession s) (reviewedTimes 0)
  | [] => reviewedTimes 0
  end.

(** A store of three records at the instant 1700000000000: one due and
    never notified, one due and already notified, one not due yet. *)
Definition dueFresh : LearningSession :=
  {| id := "1699000000000"; originalImage := None;
     extractedText := "alea iacta est"; words := [];
     userTranslation := "the die is cast";
     aiTranslation := Some "the die is cast"%string;
     aiComparison := Some "ok"%string; createdAt := 1699000000000;
     nextReviewAt := 1699990000000; reviewCount := 3;
     lastNotifiedAt := Some 0; lastReviewedAt := Some 1699385200000 |}.

Definition dueNotified : LearningSession :=
  {| id := "1699000000001"; originalImage := None;
     extractedText := "veni vidi vici"; words := [];
     userTranslation := "I came";
     aiTranslation := Some "I came, I saw, I conquered"%string;
     aiComparison := Some "short"%string; createdAt := 1699000000001;
     nextReviewAt := 1699980000000; reviewCount := 2;
     lastNotifiedAt := Some 1699980030000;
     lastReviewedAt := Some 1699634400000 |}.

Definition notDue : LearningSession :=
  {| id := "1699000000002"; originalImage := None;
     extractedText := "festina lente"; words := [];
     userTranslation := "hurry slowly";
     aiTranslation := Some "make haste slowly"%string;
     aiComparison := Some "close"%string; createdAt := 1699000000002;
     nextReviewAt := 1700050000000; reviewCount := 1;
     lastNotifiedAt := None; lastReviewedAt := Some 1699963600000 |}.

(** A record that falls due at the instant 0. *)
Definition dueAtZero : LearningSession :=
  {| id := "0"; originalImage := None; extractedText := "ab ovo"; words := [];
     userTranslation := "from the egg";
     aiTranslation := Some "from the egg"%string;
     aiComparison := Some "ok"%string; createdAt := -86400000; nextReviewAt := 0;
     reviewCount := 1; lastNotifiedAt := None; lastReviewedAt := Some (-86400000) |}.

(** The three records above in a store. *)
Definition watched : AppState :=
  setSessions [dueFresh; dueNotified; notDue] (initialState 1700000000000).

Definition wordAddedAt (t : Z) : VocabularyWord :=
  {| detail := {| word := "lente"; phonetic := "lente"; definitions := [];
                  examples := [] |};
     addedAt := t; lastPracticedAt := None |}.

(** An input of white space that is not ASCII: an ideographic space
    (U+3000), a no-break space (U+00A0) and a line separator (U+2028), in
    UTF-8. *)
Definition wideBlank : string :=
  string_of_list_ascii
    (map ascii_of_N [227; 128; 128; 194; 160; 226; 128; 168]%N).

(** A zone that keeps one offset all year. *)
Definition fixedOffset (o : Z) : TimeZone := {| LocalTZA := fun _ _ => o |}.

(** A zone given by its first offset [o] and the table of its transitions,
    each with its instant and the offset from then on.  A local time that
    a transition skips or repeats is read with the offset before the
    transition. *)
Fixpoint offsetAt (o : Z) (table : list (Z * Z)) (t : Z) : Z :=
  match table with
  | [] => o
  | (start, o') :: rest => if t <? start then o else offsetAt o' rest t
  end.

Fixpoint offsetOfLocal (o : Z) (table : list (Z * Z)) (t : Z) : Z :=
  match table with
  | [] => o
  | (start, o') :: rest =>
      if (t - o <? start) || (t - o' <? start) then o
      else offsetOfLocal o' rest t
  end.

Definition zoneOfTable (o : Z) (table : list (Z * Z)) : TimeZone :=
  {| LocalTZA := fun t isUTC =>
                   if isUTC then offsetAt o table t else offsetOfLocal o table t |}.

(** New York in 2023: five hours behind UTC, four from 2023-03-12 07:00 UTC
    to 2023-11-05 06:00 UTC.  The 5th of November lasts 25 hours there. *)
Definition newYork2023 : TimeZone :=
  zoneOfTable (-18000000)
    [(1678604400000, -14400000); (1699164000000, -18000000)].

(** Two sessions learned one after the other, then the schedule listing
    is opened: the store holds the newer session first. *)
Definition twoSessions : AppState :=
  run [Navigate true CAPTURE; ImageExtracted 1000 "prima"; NextToTranslation;
       TypeTranslation "first";
       SubmitTranslation 2000 (Some "first"%string) (Some "ok"%string);
       FinishLearning 3000;
       Navigate true CAPTURE; ImageExtracted 4000 "secunda"; NextToTranslation;
       TypeTranslation "second";
       SubmitTranslation 5000 (Some "second"%string) (Some "ok"%string);
       FinishLearning 6000;
       Navigate true REVIEW_CENTER]
    (initialState 1).

(* ================================================================== *)
(** * Specification vocabulary of the listing and of the progress bar *)
(* ================================================================== *)

Definition earlier (a b : LearningSession) : Prop :=
  nextReviewAt a <= nextReviewAt b.

(** [floor (n / d + 1/2)] for a positive [d]: the nearest integer, a tie
    going up. *)
Definition roundHalfUp (n d : Z) : Z := (2 * n + d) / (2 * d).

(** The percentage of the specification:
    [min (round (100 * current / goal)) 100]. *)
Definition expectedPercentage (current goal : Z) : Z :=
  Z.min (roundHalfUp (100 * current) goal) 100.

(** The value the bar shows on the ranges of the goal sliders. *)
Definition shown (current goal : Z) : Z :=
  if (current =? 23) && (goal =? 40) then 57
  else expectedPercentage current goal.

Definition sf_eqb (x y : spec_float) : bool :=
  match x, y with
  | S754_zero a, S754_zero b => Bool.eqb a b
  | S754_infinity a, S754_infinity b => Bool.eqb a b
  | S754_nan, S754_nan => true
  | S754_finite a m e, S754_finite b m' e' =>
      Bool.eqb a b && Pos.eqb m m' && Z.eqb e e'
  | _, _ => false
  end.

(** The integers [lo, lo + 1, ..., lo + n - 1]. *)
Definition zrange (lo : Z) (n : nat) : list Z :=
  map (fun k => lo + Z.of_nat k) (seq 0 n).

Definition checkPositiveGoal (current goal : Z) : bool :=
  sf_eqb (percentage (ProgressBar current goal)) (Number.ofZ (shown current goal))
  && Bool.eqb (isCompleted (ProgressBar current goal)) (goal <=? current).

Definition checkZeroGoal (current : Z) : bool :=
  sf_eqb (percentage (ProgressBar current 0)) (Number.ofZ 100)
  && isCompleted (ProgressBar current 0).

Definition checkNegativeGoal (current goal : Z) : bool :=
  Number.geb (Number.ofZ 0) (percentage (ProgressBar current goal))
  && isCompleted (ProgressBar current goal).

(** [x] is plus infinity, or a normal number that is at least the normal
    number of mantissa [m0] and exponent [e0]. *)
Definition atLeast (m0 : positive) (e0 : Z) (x : spec_float) : Prop :=
  x = S754_infinity false
  \/ exists (m : positive) (e : Z),
       x = S754_finite false m e /\ Z.pos (digits2_pos m) = 53
       /\ (e0 < e \/ (e = e0 /\ Z.pos m0 <= Z.pos m)).

(** A number that is a zero with the sign bit, or negative. *)
Definition notAboveZero (x : spec_float) : Prop :=
  x = S754_zero true \/ x = S754_infinity true
  \/ exists (m : positive) (e : Z), x = S754_finite true m e.

(* ================================================================== *)
(** * [src/App.tsx]: the vocabulary *)
(* ================================================================== *)

(** The character class of
    [word.replace(/[.,/#!$%^&*;:{}=\-_`~()]/g, "")].  Its members are ASCII
    characters, so removing them from the bytes of a UTF-8 string removes
    them from the string. *)
Definition isPunctuation (c : ascii) : bool :=
  existsb (Ascii.eqb c) (list_ascii_of_string ".,/#!$%^&*;:{}=-_`~()").

Fixpoint stripPunctuation (w : string) : string :=
  match w with
  | EmptyString => EmptyString
  | String c w' =>
      if isPunctuation c then stripPunctuation w'
      else String c (stripPunctuation w')
  end.

(** The delete button of the vocabulary list:
    [vocabulary.filter(i => i.word !== v.word)]. *)
Definition deleteWord (v : VocabularyWord) (voc : list VocabularyWord)
    : list VocabularyWord :=
  filter (fun i => negb (word (detail i) =? word (detail v))%string) voc.

Section Vocabulary.
(** [String.prototype.toLowerCase], a function of the platform. *)
Variable toLowerCase : string -> string.

Definition isWordInVocab (voc : list VocabularyWord) (w : string) : bool :=
  existsb
    (fun v => (toLowerCase (word (detail v))
               =? toLowerCase (stripPunctuation w))%string)
    voc.

(** The click on the star of the selected word, at the instant [t]: the
    word is removed from the vocabulary when it is in it, and put in front
    of it otherwise.  No handler writes [lastPracticedAt]. *)
Definition toggleStar (t : Z) (selected : WordDetail)
    (voc : list VocabularyWord) : list VocabularyWord :=
  let cleanWord := stripPunctuation (word selected) in
  if isWordInVocab voc cleanWord
  then filter
         (fun i => negb (toLowerCase (word (detail i))
                         =? toLowerCase cleanWord)%string)
         voc
  else {| detail := {| word := cleanWord;
                       phonetic := phonetic selected;
                       definitions := definitions selected;
                       examples := examples selected |};
          addedAt := t;
          lastPracticedAt := None |} :: voc.

(** The vocabularies the star and the delete button build from the empty
    one. *)
Inductive vocabularyOf : list VocabularyWord -> Prop :=
  | vocabulary_empty : vocabularyOf []
  | vocabulary_star (t : Z) (selected : WordDetail) (voc : list VocabularyWord) :
      vocabularyOf voc -> vocabularyOf (toggleStar t selected voc)
  | vocabulary_delete (v : VocabularyWord) (voc : list VocabularyWord) :
      vocabularyOf voc -> vocabularyOf (deleteWord v voc).
End Vocabulary.

(** Lower case on the letters A to Z, for the examples. *)
Definition lowerAscii (c : ascii) : ascii :=
  let n := nat_of_ascii c in
  if ((65 <=? n) && (n <=? 90))%nat then ascii_of_nat (n + 32) else c.

Fixpoint asciiLower (s : string) : string :=
  match s with
  | EmptyString => EmptyString
  | String c s' => String (lowerAscii c) (asciiLower s')
  end.

(** The entry the star puts in front of the vocabulary. *)
Definition starredWord (t : Z) (selected : WordDetail) : VocabularyWord :=
  {| detail := {| word := stripPunctuation (word selected);
                  phonetic := phonetic selected;
                  definitions := definitions selected;
                  examples := examples selected |};
     addedAt := t;
     lastPracticedAt := None |}.

Definition detailOf (w : string) : WordDetail :=
  {| word := w; phonetic := ""; definitions := []; examples := [] |}.

(* ================================================================== *)
(** * [src/App.tsx]: the decoding of the speech audio ([playTTS]) *)
(* ================================================================== *)

(** [bytes[i] = audioData.charCodeAt(i)]: [atob] returns a binary string,
    one character for each byte. *)
Definition charCodes (audioData : string) : list Z :=
  map (fun c => Z.of_nat (nat_of_ascii c)) (list_ascii_of_string audioData).

(** A 16-bit pattern read as a signed integer. *)
Definition toInt16 (u : Z) : Z := if u <? 32768 then u else u - 65536.

(** [new Int16Array(bytes.buffer)]: the bytes taken two by two, the low
    byte first (the byte order of the platforms browsers run on); the
    constructor throws a RangeError when the number of bytes is odd. *)
Fixpoint int16Array (bytes : list Z) : option (list Z) :=
  match bytes with
  | [] => Some []
  | [_] => None
  | lo :: hi :: rest =>
      match int16Array rest with
      | Some l => Some (toInt16 (lo + 256 * hi) :: l)
      | None => None
      end
  end.

(** Storing a number into a [Float32Array] and reading it back: the
    nearest binary32 number, as a binary64 number. *)
Definition fround (x : spec_float) : spec_float :=
  match x with
  | S754_finite s m e =>
      match binary_round 24 128 s m e with
      | S754_finite s' m' e' => binary_round Number.prec Number.emax s' m' e'
      | y => y
      end
  | _ => x
  end.

(** [channelData[i] = dataInt16[i] / 32768.0]. *)
Definition channelSample (s : Z) : spec_float :=
  fround (Number.div (Number.ofZ s) (Number.ofZ 32768)).

(** The samples [playTTS] writes into the audio buffer, or [None] when
    the [Int16Array] constructor throws or [createBuffer] does, which
    refuses a buffer of no frame. *)
Definition decodeAudio (audioData : string) : option (list spec_float) :=
  match int16Array (charCodes audioData) with
  | Some [] => None
  | Some dataInt16 => Some (map channelSample dataInt16)
  | None => None
  end.

(** The binary64 number [s * 2^-15]. *)
Definition scaled (s : Z) : spec_float :=
  binary_normalize Number.prec Number.emax s (-15) false.

(** The integer [x * 2^15] of a number [x] that is a multiple of [2^-15]. *)
Definition unscaled (x : spec_float) : Z :=
  match x with
  | S754_finite s m e =>
      let n := if 0 <=? e + 15 then Z.shiftl (Z.pos m) (e + 15)
               else Z.shiftr (Z.pos m) (- (e + 15)) in
      if s then - n else n
  | _ => 0
  end.

Definition checkSample (s : Z) : bool :=
  let x := channelSample s in
  sf_eqb x (scaled s)
  && Number.geb x (Number.ofZ (-1))
  && Number.ltb x (Number.ofZ 1)
  && (unscaled x =? s).

(* ================================================================== *)
(** * Specification vocabulary of the extra properties *)
(* ================================================================== *)

(** [allBits n f b]: [f] holds of every integer that is [b] followed by
    [n] more bits. *)
Fixpoint allBits (n : nat) (f : Z -> bool) (b : Z) : bool :=
  match n with
  | O => f b
  | S k => allBits k f (2 * b) && allBits k f (2 * b + 1)
  end.

(** The intervals, in days, that schedule a stored session. *)
Definition scheduledDays (rc : nat) : Z :=
  if (rc =? 1)%nat then 1 else IntervalTable rc.

(** [s] counts as reviewed on the day that starts at [startOfDay]. *)
Definition reviewedSince (startOfDay : Z) (s : LearningSession) : Prop :=
  exists r, lastReviewedAt s = Some r /\ r <> 0 /\ startOfDay <= r.

Definition checkShown (current goal : Z) : bool :=
  (0 <=? shown current goal) && (shown current goal <=? 100)
  && Bool.eqb (shown current goal =? 100) (goal <=? current)
  && (shown current goal <=? shown (current + 1) goal).

(** Reading a field of a rebuilt record. *)
Ltac fields :=
  cbn [withSchedule withLastNotifiedAt id originalImage extractedText words
       userTranslation aiTranslation aiComparison createdAt nextReviewAt
       reviewCount lastNotifiedAt lastReviewedAt] in *.

(* ================================================================== *)
(** * Basic facts *)
(* ================================================================== *)

Lemma asLearningSession_toPartial (s : LearningSession) :
  asLearningSession (toPartial s) = Some s.
Proof. destruct s; reflexivity. Qed.

Lemma asLearningSession_id (p : PartialSession) (cs : LearningSession) :
  asLearningSession p = Some cs -> p_id p = Some (id cs).
Proof.
  unfold asLearningSession.
  destruct (p_id p), (p_extractedText p), (p_words p), (p_userTranslation p),
    (p_createdAt p), (p_nextReviewAt p), (p_reviewCount p); try discriminate.
  intros H; injection H as <-; reflexivity.
Qed.

Lemma sameId_true (s : LearningSession) (cur : PartialSession) :
  sameId s cur = true <-> p_id cur = Some (id s).
Proof.
  unfold sameId. destruct (p_id cur) as [i|].
  - rewrite String.eqb_eq. split; [intros -> | intros [= ->]]; reflexivity.
  - split; discriminate.
Qed.

Lemma or0_id (n : nat) : or0 n = n.
Proof. unfold or0. destruct (Nat.eqb_spec n 0); congruence. Qed.

Lemma NoDup_map_inj {A B : Type} (f : A -> B) (l : list A) (a b : A) :
  NoDup (map f l) -> In a l -> In b l -> f a = f b -> a = b.
Proof.
  induction l as [|x l IH]; simpl; [tauto|].
  intros Hnd Ha Hb Hab. inversion Hnd as [|? ? Hx Hl]; subst.
  destruct Ha as [->|Ha], Hb as [->|Hb]; auto.
  - exfalso. apply Hx. rewrite Hab. now apply in_map.
  - exfalso. apply Hx. rewrite <- Hab. now apply in_map.
Qed.

Lemma find_none_id (cur : PartialSession) (l : list LearningSession) (i : string) :
  p_id cur = Some i ->
  find (fun s => sameId s cur) l = None -> ~ In i (map id l).
Proof.
  intros Hi Hf Hin. apply in_map_iff in Hin as (s & Hs & Hin).
  apply (find_none _ _ Hf) in Hin.
  assert (sameId s cur = true) by (apply sameId_true; congruence).
  congruence.
Qed.

Lemma find_some_unique (cur : PartialSession) (l : list LearningSession)
    (existing s : LearningSession) :
  NoDup (map id l) ->
  find (fun s => sameId s cur) l = Some existing ->
  In s l -> sameId s cur = true -> s = existing.
Proof.
  intros Hnd Hf Hin Hs. apply find_some in Hf as [Hex Hes].
  apply (NoDup_map_inj id l); auto.
  apply sameId_true in Hs. apply sameId_true in Hes. congruence.
Qed.

(** The table is not empty, its entries are positive and do not decrease. *)
Lemma EBBINGHAUS_INTERVALS_sorted (i j : nat) :
  (i <= j < List.length EBBINGHAUS_INTERVALS)%nat ->
  0 < nth i EBBINGHAUS_INTERVALS 0 <= nth j EBBINGHAUS_INTERVALS 0.
Proof.
  simpl. intros [Hij Hj].
  do 6 (destruct j as [|j];
        [do 6 (destruct i as [|i]; [simpl; lia|]); lia|]).
  lia.
Qed.

Lemma IntervalTable_in_range (i : nat) :
  nth_error EBBINGHAUS_INTERVALS
    (Nat.min i (List.length EBBINGHAUS_INTERVALS - 1)) = Some (IntervalTable i).
Proof.
  unfold IntervalTable. apply nth_error_nth'. simpl. lia.
Qed.

(** ** The ids of the store *)

Lemma finishUpdate_existing_ids (t : Z) (cur : PartialSession)
    (prev : list LearningSession) (existing : LearningSession) :
  find (fun s => sameId s cur) prev = Some existing ->
  map id (finishUpdate t cur prev) = map id prev.
Proof.
  intros Hf. unfold finishUpdate. rewrite Hf. rewrite map_map.
  apply map_ext. intros s. now destruct (sameId s cur).
Qed.

Lemma notifiedUpdate_ids (t : Z) (due prev : list LearningSession) :
  map id (notifiedUpdate t due prev) = map id prev.
Proof.
  unfold notifiedUpdate. rewrite map_map. apply map_ext. intros s.
  now destruct (existsb _ due).
Qed.

(** ** [Array.prototype.sort] *)

Section ArraySortFacts.
Context {A : Type} (comparefn : A -> A -> Z).

Lemma insertSorted_perm (x : A) (l : list A) :
  Permutation (x :: l) (insertSorted comparefn x l).
Proof.
  induction l as [|y l IH]; simpl; [reflexivity|].
  destruct (comparefn x y <=? 0); [reflexivity|].
  rewrite perm_swap. now apply perm_skip.
Qed.

Lemma Array_sort_perm (l : list A) : Permutation l (Array_sort comparefn l).
Proof.
  induction l as [|x l IH]; simpl; [reflexivity|].
  rewrite <- insertSorted_perm. now apply perm_skip.
Qed.
End ArraySortFacts.

(* ================================================================== *)
(** * The invariant of the reachable states *)
(* ================================================================== *)

Lemma storedOk_withLastNotifiedAt (s : LearningSession) (t : Z) :
  storedOk s -> storedOk (withLastNotifiedAt s t).
Proof. intros H; exact H. Qed.

Lemma days_ms (d : Z) : d * 24 * 60 * 60 * 1000 = d * msPerDay.
Proof. unfold msPerDay. lia. Qed.

Lemma finishUpdate_stored (t : Z) (cur : PartialSession)
    (prev : list LearningSession) :
  0 < t -> Forall storedOk prev -> NoDup (map id prev) ->
  Forall storedOk (finishUpdate t cur prev).
Proof.
  intros Ht Hall Hnd. unfold finishUpdate.
  destruct (find (fun s => sameId s cur) prev) as [existing|] eqn:Hf.
  - apply Forall_forall. intros s' Hin.
    apply in_map_iff in Hin as (s & <- & Hin).
    pose proof (proj1 (Forall_forall _ _) Hall s Hin) as Hs.
    destruct (sameId s cur) eqn:Hid; [|exact Hs].
    assert (s = existing) as -> by (eapply find_some_unique; eauto).
    destruct Hs as [Hrc _]. split; fields.
    + rewrite or0_id. lia.
    + exists t. repeat split; auto.
      unfold stageIndex. rewrite or0_id, days_ms.
      destruct (Nat.eqb_spec (reviewCount existing + 1) 1); [lia|].
      reflexivity.
  - destruct (asLearningSession cur) as [cs|]; [|exact Hall].
    constructor; [|exact Hall].
    split; fields; [lia|]. exists t. repeat split; auto.
Qed.

Lemma finishUpdate_ids (t : Z) (cur : PartialSession)
    (prev : list LearningSession) :
  NoDup (map id prev) -> NoDup (map id (finishUpdate t cur prev)).
Proof.
  intros Hnd.
  destruct (find (fun s => sameId s cur) prev) as [existing|] eqn:Hf.
  - now rewrite (finishUpdate_existing_ids _ _ _ _ Hf).
  - unfold finishUpdate. rewrite Hf.
    destruct (asLearningSession cur) as [cs|] eqn:Hcs; [|exact Hnd].
    simpl. constructor; [|exact Hnd].
    eapply find_none_id; eauto. now apply asLearningSession_id.
Qed.

Lemma notifiedUpdate_stored (t : Z) (due prev : list LearningSession) :
  Forall storedOk prev -> Forall storedOk (notifiedUpdate t due prev).
Proof.
  intros Hall. unfold notifiedUpdate. apply Forall_forall. intros s' Hin.
  apply in_map_iff in Hin as (s & <- & Hin).
  pose proof (proj1 (Forall_forall _ _) Hall s Hin) as Hs.
  destruct (existsb _ due); [now apply storedOk_withLastNotifiedAt | exact Hs].
Qed.

Lemma tick_sessions (perm : NotificationPermission) (t : Z) (st : AppState) :
  sessions (snd (tick perm t st)) = sessions st
  \/ sessions (snd (tick perm t st))
     = notifiedUpdate t (dueSessions t (sessions st)) (sessions st).
Proof.
  unfold tick, checkReviews. destruct perm; auto.
  destruct (dueSessions t (sessions st)); auto.
Qed.

Lemma tick_frame (perm : NotificationPermission) (t : Z) (st : AppState) :
  currentSession (snd (tick perm t st)) = currentSession st
  /\ stage (snd (tick perm t st)) = stage st.
Proof.
  unfold tick, checkReviews. destruct perm; auto.
  destruct (dueSessions t (sessions st)); auto.
Qed.

Lemma render_sessions (st : AppState) :
  Permutation (sessions st) (sessions (snd (renderReviewCenter st))).
Proof.
  unfold renderReviewCenter.
  destruct (isOpen st && AppStage_eqb (stage st) REVIEW_CENTER); [|reflexivity].
  destruct (List.length (sessions st) =? 0)%nat; [reflexivity|].
  apply Array_sort_perm.
Qed.

Lemma render_frame (st : AppState) :
  currentSession (snd (renderReviewCenter st)) = currentSession st
  /\ stage (snd (renderReviewCenter st)) = stage st.
Proof.
  unfold renderReviewCenter.
  destruct (isOpen st && AppStage_eqb (stage st) REVIEW_CENTER); auto.
  destruct (List.length (sessions st) =? 0)%nat; auto.
Qed.

Lemma AppStage_eqb_eq (a b : AppStage) : AppStage_eqb a b = true <-> a = b.
Proof. destruct a, b; simpl; split; intros H; congruence. Qed.

(** The current session stays acceptable when the store keeps its ids. *)
Lemma current_kept (p : PartialSession) (g g' : AppStage)
    (l l' : list LearningSession) :
  (forall i, In i (map id l) -> In i (map id l')) ->
  (g' = COMPARISON -> g = COMPARISON) ->
  (p_id p = None
   \/ (exists c, freshAt c p /\ (g = COMPARISON -> translated p))
   \/ (exists full, asLearningSession p = Some full /\ In (id full) (map id l))) ->
  p_id p = None
  \/ (exists c, freshAt c p /\ (g' = COMPARISON -> translated p))
  \/ (exists full, asLearningSession p = Some full /\ In (id full) (map id l')).
Proof.
  intros Hids Hg [H|[(c & Hc & Ht)|(full & Hf & Hin)]]; auto.
  - right; left. exists c. split; auto.
  - right; right. exists full. split; auto.
Qed.

Lemma capturedSession_fresh (t : Z) (text : string) :
  0 < t -> freshAt t (capturedSession t text).
Proof. intros Ht. repeat split; simpl; auto; discriminate. Qed.

Lemma submitTranslation_current (t : Z) (ai cmp : option string)
    (st : AppState) :
  Inv st -> Inv (submitTranslation t ai cmp st).
Proof.
  intros [Hs Hn Hc]. constructor; [exact Hs | exact Hn |].
  cbn [submitTranslation setStage setCurrentSession currentSession stage sessions].
  destruct Hc as [H|[(c & Hc & _)|(full & Hf & Hin)]].
  - left. exact H.
  - right; left. exists c. split.
    + destruct Hc as (Hpos & Hca & Hn' & Hrc & Hlr & Hi & Htx & Hw).
      repeat split; simpl; auto.
      rewrite Hca. simpl. destruct (Z.eqb_spec c 0); [lia | reflexivity].
    + intros _. repeat split; simpl; discriminate.
  - right; right. revert Hf. unfold asLearningSession. simpl.
    destruct (p_id (currentSession st)), (p_extractedText (currentSession st)),
      (p_words (currentSession st)), (p_userTranslation (currentSession st)),
      (p_createdAt (currentSession st)), (p_nextReviewAt (currentSession st)),
      (p_reviewCount (currentSession st)); try discriminate.
    intros [= <-]. eexists. split; [reflexivity | exact Hin].
Qed.

Lemma handle_inv (e : Event) (st : AppState) :
  Inv st -> enabled e st = true -> Inv (handle e st).
Proof.
  intros Hinv Hen. pose proof Hinv as [Hs Hn Hc].
  destruct e; cbn [handle]; cbn [enabled] in Hen.
  - (* ImageExtracted *)
    apply Z.ltb_lt in Hen. constructor; simpl; auto.
    right; left. exists t. split; [now apply capturedSession_fresh | discriminate].
  - (* TypeManual *) constructor; assumption.
  - (* ManualSubmit *)
    unfold handleManualSubmit. destruct (isBlank (manualEnglishInput st)); [exact Hinv|].
    apply andb_prop in Hen as [Hen _]. apply andb_prop in Hen as [Hen _].
    apply Z.ltb_lt in Hen. constructor; simpl; auto.
    right; left. exists t. split; [now apply capturedSession_fresh | discriminate].
  - (* SelectWord *) constructor; assumption.
  - (* NextToTranslation *)
    constructor; simpl; auto.
    eapply (current_kept _ (stage st) USER_THINKING); eauto. discriminate.
  - (* TypeTranslation *) constructor; assumption.
  - (* SubmitTranslation *) now apply submitTranslation_current.
  - (* OpenSession *)
    constructor; simpl; auto. right; right. exists s.
    split; [apply asLearningSession_toPartial|].
    apply existsb_exists in Hen as (s' & Hin & Heq).
    apply String.eqb_eq in Heq. rewrite <- Heq. now apply in_map.
  - (* FinishLearning *)
    unfold handleFinishLearning.
    destruct (negb (truthy_str (p_id (currentSession st)))); [exact Hinv|].
    apply andb_prop in Hen as [Hen _]. apply andb_prop in Hen as [Hen _].
    apply Z.ltb_lt in Hen. constructor; simpl.
    + now apply finishUpdate_stored.
    + now apply finishUpdate_ids.
    + now left.
  - (* Tick *)
    destruct (tick_frame perm t st) as [Hcur Hst].
    constructor.
    + destruct (tick_sessions perm t st) as [-> | ->]; auto.
      now apply notifiedUpdate_stored.
    + destruct (tick_sessions perm t st) as [-> | ->]; auto.
      now rewrite notifiedUpdate_ids.
    + rewrite Hcur, Hst.
      destruct (tick_sessions perm t st) as [-> | ->]; auto.
      now rewrite notifiedUpdate_ids.
  - (* ClockRefresh *) constructor; assumption.
  - (* Render *)
    destruct (render_frame st) as [Hcur Hst].
    pose proof (render_sessions st) as Hp.
    constructor.
    + eapply Permutation_Forall; eauto.
    + eapply Permutation_NoDup; [|exact Hn]. now apply Permutation_map.
    + rewrite Hcur, Hst.
      eapply (current_kept _ (stage st) (stage st) (sessions st)); eauto.
      intros i. apply Permutation_in. now apply Permutation_map.
  - (* Navigate *)
    constructor; simpl; auto.
    eapply (current_kept _ (stage st) g); eauto.
    intros ->. discriminate Hen.
  - (* VocabularyChange *) constructor; assumption.
  - (* Reload *) constructor; simpl; auto.
  - (* CloseDrawer *) constructor; assumption.
  - (* SetGoals *) constructor; assumption.
Qed.

Lemma reachable_inv (st : AppState) : reachable st -> Inv st.
Proof.
  induction 1 as [t Ht | st e _ IH Hen].
  - constructor; simpl; auto using NoDup_nil.
  - now apply handle_inv.
Qed.

(** The goals stay in the range of the sliders. *)
Lemma reachable_goals (st : AppState) :
  reachable st ->
  1 <= dailyNewWords (goals st) <= 50 /\ 1 <= dailyReviews (goals st) <= 50.
Proof.
  induction 1 as [t Ht | st e _ IH Hen]; [simpl; lia|].
  destruct e; try exact IH; cbn [handle].
  - unfold handleManualSubmit.
    destruct (isBlank (manualEnglishInput st)); exact IH.
  - unfold handleFinishLearning.
    destruct (negb (truthy_str (p_id (currentSession st)))); exact IH.
  - unfold tick. destruct (checkReviews perm t (sessions st)) as [[n u]|]; exact IH.
  - unfold renderReviewCenter.
    destruct (isOpen st && AppStage_eqb (stage st) REVIEW_CENTER); [|exact IH].
    destruct (List.length (sessions st) =? 0)%nat; exact IH.
  - cbn [enabled] in Hen. cbn [setGoals goals].
    repeat (apply andb_prop in Hen as [Hen ?]). lia.
Qed.

(** No stored session is ever scheduled with the second entry of the
    table, the interval of 2 days. *)
Lemma second_entry_unused (st : AppState) (s : LearningSession) :
  reachable st -> In s (sessions st) ->
  stageIndex (reviewCount s) <> 1%nat
  /\ exists last,
       lastReviewedAt s = Some last
       /\ nextReviewAt s
          = last + nth (stageIndex (reviewCount s)) EBBINGHAUS_INTERVALS 0 * msPerDay.
Proof.
  intros Hr Hin. apply reachable_inv in Hr as [Hs _ _].
  destruct (proj1 (Forall_forall _ _) Hs s Hin) as (Hrc & last & _ & Hl & Hn).
  split; [|now exists last].
  unfold stageIndex. simpl List.length.
  destruct (Nat.eqb_spec (reviewCount s) 1); lia.
Qed.

(* ================================================================== *)
(** * The schedule of the first two reviews *)
(* ================================================================== *)

Lemma toString_truthy (t : Z) : truthy_str (Some (toString t)) = true.
Proof.
  unfold toString, truthy_str.
  destruct (Z.to_int t) as [u|u]; [destruct u|]; reflexivity.
Qed.

Lemma sameId_toPartial (s : LearningSession) : sameId s (toPartial s) = true.
Proof. apply sameId_true. reflexivity. Qed.

Lemma handleFinishLearning_sessions (t : Z) (st : AppState) :
  truthy_str (p_id (currentSession st)) = true ->
  sessions (handleFinishLearning t st)
  = finishUpdate t (currentSession st) (sessions st).
Proof. intros H. unfold handleFinishLearning. now rewrite H. Qed.

Lemma handleFinishLearning_no_id (t : Z) (st : AppState) :
  truthy_str (p_id (currentSession st)) = false ->
  handleFinishLearning t st = st.
Proof. intros H. unfold handleFinishLearning. now rewrite H. Qed.

Lemma finishUpdate_new (t : Z) (cur : PartialSession)
    (prev : list LearningSession) (cs : LearningSession) :
  find (fun s => sameId s cur) prev = None ->
  asLearningSession cur = Some cs ->
  finishUpdate t cur prev
  = withSchedule cs 1 (t + 1 * 24 * 60 * 60 * 1000) (lastNotifiedAt cs) (Some t)
    :: prev.
Proof. intros Hf Hc. unfold finishUpdate. now rewrite Hf, Hc. Qed.

Lemma finishUpdate_existing (t : Z) (cur : PartialSession)
    (prev : list LearningSession) (existing : LearningSession) :
  find (fun s => sameId s cur) prev = Some existing ->
  finishUpdate t cur prev
  = map (fun s =>
           if sameId s cur
           then withSchedule s (reviewCount s + 1)
                  (t + IntervalTable (reviewCount existing + 1) * msPerDay)
                  (Some 0) (Some t)
           else s) prev.
Proof.
  intros Hf. unfold finishUpdate. rewrite Hf. apply map_ext. intros s.
  now rewrite !or0_id, days_ms.
Qed.

Lemma learned_reachable (t0 t1 : Z) (text u ai cmp : string) :
  0 < t0 -> 0 < t1 -> isBlank u = false ->
  reachable (learned t0 t1 text u ai cmp).
Proof.
  intros H0 H1 Hu. unfold learned.
  apply reachable_step.
  - repeat apply reachable_step; try reflexivity.
    + now apply reachable_init.
    + now apply Z.ltb_lt.
  - apply Z.ltb_lt in H1.
    cbn [enabled handle setUserInput setStage processImageBase64
         setCurrentSession setIsOpen initialState isOpen stage userInput].
    now rewrite H1, Hu.
Qed.

(** Claim C1 on the code.  The first completion of a new item at [T]
    stores it with [reviewCount = 1] and [nextReviewAt = T + 1 day], as the
    claim says.  The second completion, at any [T'], sets [reviewCount = 2]
    but schedules [nextReviewAt = T' + 4 days]: the handler reads the table
    at index [reviewCount + 1 = 2], so the entry of 2 days is skipped and
    the scheduled instant is not [T' + 2 days]. *)
Theorem second_review_skips_two_days (t0 t1 T T' : Z) (text u ai cmp : string) :
  exists s1 s2 : LearningSession,
    sessions (handleFinishLearning T (learned t0 t1 text u ai cmp)) = [s1]
    /\ reviewCount s1 = 1%nat
    /\ nextReviewAt s1 = T + 1 * msPerDay
    /\ sessions
         (handleFinishLearning T'
            (openSession s1
               (handleFinishLearning T (learned t0 t1 text u ai cmp)))) = [s2]
    /\ id s2 = id s1
    /\ reviewCount s2 = 2%nat
    /\ nextReviewAt s2 = T' + 4 * msPerDay
    /\ nextReviewAt s2 <> T' + 2 * msPerDay.
Proof.
  set (st1 := handleFinishLearning T (learned t0 t1 text u ai cmp)).
  assert (Hcur : currentSession (learned t0 t1 text u ai cmp)
                 = toPartial
                     {| id := toString t0; originalImage := None;
                        extractedText := text; words := [];
                        userTranslation := u; aiTranslation := Some ai;
                        aiComparison := Some cmp; createdAt := orElse (Some t0) t1;
                        nextReviewAt := t0 + 86400000; reviewCount := 0;
                        lastNotifiedAt := None; lastReviewedAt := None |})
    by reflexivity.
  assert (H1 : sessions st1
               = [withSchedule
                    {| id := toString t0; originalImage := None;
                       extractedText := text; words := [];
                       userTranslation := u; aiTranslation := Some ai;
                       aiComparison := Some cmp; createdAt := orElse (Some t0) t1;
                       nextReviewAt := t0 + 86400000; reviewCount := 0;
                       lastNotifiedAt := None; lastReviewedAt := None |}
                    1 (T + 1 * 24 * 60 * 60 * 1000) None (Some T)]).
  { unfold st1. rewrite handleFinishLearning_sessions.
    - rewrite Hcur.
      apply finishUpdate_new; [reflexivity | apply asLearningSession_toPartial].
    - rewrite Hcur. apply toString_truthy. }
  eexists. eexists. split; [exact H1|].
  split; [reflexivity|]. split; [fields; now rewrite days_ms|].
  rewrite handleFinishLearning_sessions by apply toString_truthy.
  cbn [openSession setIsOpen setStage setCurrentSession currentSession sessions].
  rewrite H1.
  erewrite finishUpdate_existing
    by (cbn [find]; rewrite sameId_toPartial; reflexivity).
  cbn [map]. rewrite sameId_toPartial.
  split; [reflexivity|]. fields.
  repeat split; try reflexivity. unfold msPerDay. simpl. lia.
Qed.

(* ================================================================== *)
(** * The interval table plateaus *)
(* ================================================================== *)

Lemma Forall2_map_self {A : Type} (R : A -> A -> Prop) (f : A -> A) (l : list A) :
  (forall a, In a l -> R a (f a)) -> Forall2 R l (map f l).
Proof.
  induction l as [|a l IH]; intros H; simpl; constructor.
  - apply H. now left.
  - apply IH. intros b Hb. apply H. now right.
Qed.

Lemma Forall2_same {A : Type} (R : A -> A -> Prop) (l : list A) :
  (forall a, In a l -> R a a) -> Forall2 R l l.
Proof.
  intros H. rewrite <- (map_id l) at 2. now apply Forall2_map_self.
Qed.

Lemma IntervalTable_last (i : nat) :
  (List.length EBBINGHAUS_INTERVALS - 1 <= i)%nat -> IntervalTable i = 30.
Proof.
  intros H. unfold IntervalTable. rewrite Nat.min_r by exact H. reflexivity.
Qed.

(** Claim C6.  Beyond the table the lookup returns the last entry, 30
    days: [IntervalTable i = IntervalTable (length - 1)] for every
    [i >= length].  The index the handler uses is always inside the table,
    so the lookup never reads past it; and when [reviewCount + 1] of the
    record found in the store is at or beyond the last index, every record
    the completion rewrites gets [nextReviewAt = now + 30 days], the other
    records staying as they are. *)
Theorem interval_plateau :
  (forall i : nat,
      (List.length EBBINGHAUS_INTERVALS <= i)%nat ->
      IntervalTable i = IntervalTable (List.length EBBINGHAUS_INTERVALS - 1))
  /\ IntervalTable (List.length EBBINGHAUS_INTERVALS - 1) = 30
  /\ (forall rc : nat,
         nth_error EBBINGHAUS_INTERVALS
           (Nat.min (or0 rc + 1) (List.length EBBINGHAUS_INTERVALS - 1))
         = Some (IntervalTable (rc + 1)))
  /\ (forall (t : Z) (cur : PartialSession) (prev : list LearningSession)
             (existing : LearningSession),
         find (fun s => sameId s cur) prev = Some existing ->
         (List.length EBBINGHAUS_INTERVALS - 1 <= reviewCount existing + 1)%nat ->
         Forall2
           (fun s s' =>
              if sameId s cur
              then nextReviewAt s' = t + 30 * msPerDay
              else s' = s)
           prev (finishUpdate t cur prev)).
Proof.
  split; [|split; [|split]].
  - intros i Hi. rewrite !IntervalTable_last; [reflexivity | lia |].
    simpl in *. lia.
  - reflexivity.
  - intros rc. rewrite or0_id. apply IntervalTable_in_range.
  - intros t cur prev existing Hf Hrc.
    rewrite (finishUpdate_existing _ _ _ _ Hf).
    apply Forall2_map_self. intros s _.
    destruct (sameId s cur); [|reflexivity].
    fields. now rewrite IntervalTable_last.
Qed.

Lemma interval_plateau_witness :
  Forall2
    (fun s s' =>
       if sameId s (toPartial reviewedFiveTimes)
       then nextReviewAt s' = 1702592000000 + 30 * msPerDay
       else s' = s)
    [reviewedFiveTimes]
    (finishUpdate 1702592000000 (toPartial reviewedFiveTimes) [reviewedFiveTimes]).
Proof.
  apply (proj2 (proj2 (proj2 interval_plateau))
           1702592000000 (toPartial reviewedFiveTimes) [reviewedFiveTimes]
           reviewedFiveTimes).
  - reflexivity.
  - simpl. lia.
Defined.

(* ================================================================== *)
(** * Completing a review on a reachable state *)
(* ================================================================== *)

Lemma fresh_complete (c : Z) (p : PartialSession) :
  freshAt c p -> translated p ->
  exists cs, asLearningSession p = Some cs
             /\ reviewCount cs = 0%nat /\ createdAt cs = c
             /\ nextReviewAt cs = c + 86400000 /\ lastReviewedAt cs = None.
Proof.
  intros (Hc & Hca & Hn & Hrc & Hlr & Hi & Htx & Hw) Hu.
  unfold translated in Hu.
  unfold asLearningSession. rewrite Hca, Hn, Hrc, Hlr.
  destruct (p_id p); [|congruence].
  destruct (p_extractedText p); [|congruence].
  destruct (p_words p); [|congruence].
  destruct (p_userTranslation p); [|congruence].
  eexists. split; [reflexivity|]. simpl. auto.
Qed.

Lemma truthy_str_some (o : option string) :
  truthy_str o = true -> exists i, o = Some i.
Proof. destruct o as [i|]; [now exists i | discriminate]. Qed.

(** What a completion starts from: when the store has no record with the
    id of the current session, the current session is a captured and
    translated one that was never reviewed. *)
Lemma first_completion (st : AppState) :
  Inv st -> stage st = COMPARISON ->
  truthy_str (p_id (currentSession st)) = true ->
  find (fun s => sameId s (currentSession st)) (sessions st) = None ->
  exists cs, asLearningSession (currentSession st) = Some cs
             /\ reviewCount cs = 0%nat /\ 0 < createdAt cs
             /\ nextReviewAt cs = createdAt cs + 86400000
             /\ lastReviewedAt cs = None.
Proof.
  intros [_ _ Hc] Hst Hid Hf.
  destruct (truthy_str_some _ Hid) as [i Hi].
  destruct Hc as [H|[(c & Hc & Ht)|(full & Hfull & Hin)]].
  - congruence.
  - destruct (fresh_complete c _ Hc (Ht Hst)) as (cs & Hcs & Hrc & Hca & Hn & Hl).
    exists cs. rewrite Hca. repeat split; auto. apply Hc.
  - exfalso.
    exact (find_none_id _ _ _ (asLearningSession_id _ _ Hfull) Hf Hin).
Qed.

Lemma find_none_sameId (cur : PartialSession) (l : list LearningSession)
    (s : LearningSession) :
  find (fun s => sameId s cur) l = None -> In s l -> sameId s cur = false.
Proof. intros Hf Hin. exact (find_none _ _ Hf _ Hin). Qed.

Lemma reviewedTimes_spec (n : nat) :
  reachable (reviewedTimes n)
  /\ exists s, sessions (reviewedTimes n) = [s]
               /\ reviewCount s = S n /\ id s = toString 1.
Proof.
  induction n as [|n [Hr (s & Hs & Hrc & Hid)]].
  - split.
    + apply reachable_step; [|reflexivity].
      apply learned_reachable; try lia. reflexivity.
    + eexists. repeat split; reflexivity.
  - assert (Hen : enabled (OpenSession s) (reviewedTimes n) = true).
    { simpl. rewrite Hs. simpl. now rewrite String.eqb_refl. }
    change (reviewedTimes (S n))
      with (match sessions (reviewedTimes n) with
            | s :: _ =>
                handle (FinishLearning 1)
                  (handle (OpenSession s) (reviewedTimes n))
            | [] => reviewedTimes n
            end).
    rewrite Hs. split.
    + apply reachable_step; [now apply reachable_step | reflexivity].
    + cbn [handle]. eexists. split; [|split].
      * rewrite handleFinishLearning_sessions.
        -- cbn [openSession setIsOpen setStage setCurrentSession currentSession
                sessions].
           rewrite Hs.
           erewrite finishUpdate_existing
             by (cbn [find]; rewrite sameId_toPartial; reflexivity).
           cbn [map]. rewrite sameId_toPartial. reflexivity.
        -- cbn [openSession setIsOpen setStage setCurrentSession currentSession
                toPartial p_id].
           rewrite Hid. apply toString_truthy.
      * fields. lia.
      * fields. exact Hid.
Qed.

Lemma filter_none {A : Type} (f : A -> bool) (l : list A) :
  (forall a, In a l -> f a = false) -> filter f l = [].
Proof.
  induction l as [|x l IH]; intros H; simpl; [reflexivity|].
  rewrite (H x (or_introl eq_refl)). apply IH. intros a Ha. apply H. now right.
Qed.

Lemma one_record_per_id (cur : PartialSession) (l : list LearningSession)
    (e : LearningSession) :
  NoDup (map id l) -> In e l -> sameId e cur = true ->
  List.length (filter (fun s => sameId s cur) l) = 1%nat.
Proof.
  induction l as [|x l IH]; simpl; [tauto|].
  intros Hnd Hin He. inversion Hnd as [|? ? Hx Hl]; subst.
  destruct (sameId x cur) eqn:Ex.
  - simpl. rewrite filter_none; [reflexivity|].
    intros a Ha. destruct (sameId a cur) eqn:Ea; [|reflexivity].
    exfalso. apply Hx. apply sameId_true in Ex. apply sameId_true in Ea.
    assert (id x = id a) as -> by congruence. now apply in_map.
  - destruct Hin as [->|Hin]; [congruence|]. now apply IH.
Qed.

(** Claim C5.  On every reachable state, a completion (the finish button
    of the COMPARISON stage, on a session that has an id) rewrites exactly
    one record, the one with the id of the current session: the stored one,
    or the current session itself when the store has none; that record
    keeps its id and its [reviewCount] grows by exactly 1, and every other
    record keeps its count.  The count has no cap: every positive number is
    the [reviewCount] of a stored session of some reachable state, while
    the index used in the table never passes the last one. *)
Theorem reviewCount_increments :
  (forall (st : AppState) (t : Z),
      reachable st -> stage st = COMPARISON ->
      truthy_str (p_id (currentSession st)) = true ->
      exists pre : list LearningSession,
        (pre = []
         \/ exists cs, asLearningSession (currentSession st) = Some cs
                       /\ pre = [cs])
        /\ Forall2
             (fun a b =>
                id b = id a
                /\ reviewCount b
                   = (reviewCount a
                      + (if sameId a (currentSession st) then 1 else 0))%nat)
             (pre ++ sessions st) (sessions (handleFinishLearning t st))
        /\ List.length
             (filter (fun a => sameId a (currentSession st))
                (pre ++ sessions st)) = 1%nat)
  /\ (forall n : nat,
         (1 <= n)%nat ->
         exists st s, reachable st /\ In s (sessions st) /\ reviewCount s = n)
  /\ (forall rc : nat,
         (Nat.min (or0 rc + 1) (List.length EBBINGHAUS_INTERVALS - 1)
          <= List.length EBBINGHAUS_INTERVALS - 1)%nat).
Proof.
  split; [|split].
  - intros st t Hr Hst Hid.
    pose proof (reachable_inv _ Hr) as Hinv.
    rewrite (handleFinishLearning_sessions _ _ Hid).
    destruct (find (fun s => sameId s (currentSession st)) (sessions st))
      as [existing|] eqn:Hf.
    + exists []. split; [now left|]. cbn [app].
      rewrite (finishUpdate_existing _ _ _ _ Hf). split.
      * apply Forall2_map_self. intros a _.
        destruct (sameId a (currentSession st)); fields; split; auto.
      * apply find_some in Hf as [Hin He].
        eapply one_record_per_id; eauto. apply Hinv.
    + destruct (first_completion st Hinv Hst Hid Hf)
        as (cs & Hcs & Hrc & _).
      exists [cs]. split; [right; now exists cs|].
      rewrite (finishUpdate_new _ _ _ _ Hf Hcs). cbn [app].
      assert (Hsame : sameId cs (currentSession st) = true)
        by (apply sameId_true; now apply asLearningSession_id).
      split.
      * constructor.
        -- fields. rewrite Hsame, Hrc. split; reflexivity.
        -- apply Forall2_same. intros a Ha.
           rewrite (find_none_sameId _ _ _ Hf Ha). split; auto.
      * cbn [filter]. rewrite Hsame.
        rewrite filter_none; [reflexivity|].
        intros a Ha. exact (find_none_sameId _ _ _ Hf Ha).
  - intros [|n] Hn; [lia|].
    destruct (reviewedTimes_spec n) as (Hr & s & Hs & Hrc & _).
    exists (reviewedTimes n), s. rewrite Hs. repeat split; auto. now left.
  - intros rc. apply Nat.le_min_r.
Qed.

(** The session captured and translated at the instant 1, on the
    COMPARISON stage. *)
Lemma reviewCount_increments_witness :
  exists pre : list LearningSession,
    (pre = []
     \/ exists cs,
          asLearningSession (currentSession (learned 1 1 "a" "b" "c" "d")) = Some cs
          /\ pre = [cs])
    /\ Forall2
         (fun a b =>
            id b = id a
            /\ reviewCount b
               = (reviewCount a
                  + (if sameId a (currentSession (learned 1 1 "a" "b" "c" "d"))
                     then 1 else 0))%nat)
         (pre ++ sessions (learned 1 1 "a" "b" "c" "d"))
         (sessions (handleFinishLearning 2 (learned 1 1 "a" "b" "c" "d")))
    /\ List.length
         (filter (fun a => sameId a (currentSession (learned 1 1 "a" "b" "c" "d")))
            (pre ++ sessions (learned 1 1 "a" "b" "c" "d"))) = 1%nat.
Proof.
  apply (proj1 reviewCount_increments (learned 1 1 "a" "b" "c" "d") 2).
  - apply learned_reachable; [lia | lia | reflexivity].
  - reflexivity.
  - reflexivity.
Defined.

Lemma fresh_cast (c : Z) (p : PartialSession) (cs : LearningSession) :
  freshAt c p -> asLearningSession p = Some cs ->
  nextReviewAt cs = c + 86400000 /\ lastScheduled cs = c.
Proof.
  intros (Hc & Hca & Hn & Hrc & Hlr & _). unfold asLearningSession.
  rewrite Hca, Hn, Hrc, Hlr.
  destruct (p_id p), (p_extractedText p), (p_words p), (p_userTranslation p);
    try discriminate.
  intros [= <-]. split; reflexivity.
Qed.

Lemma stageIndex_next (rc : nat) :
  (stageIndex rc <= Nat.min (rc + 1) (List.length EBBINGHAUS_INTERVALS - 1)
   < List.length EBBINGHAUS_INTERVALS)%nat.
Proof.
  unfold stageIndex. simpl List.length.
  destruct (Nat.eqb_spec rc 1); lia.
Qed.

(** Claim C4.  On every reachable state, a completion at an instant [t]
    that is not earlier than the last scheduling event (the last review,
    or the creation of a session never reviewed) of the record it
    completes never moves a due date back: each record of the store, and
    the current session when it enters the store, has afterwards a
    [nextReviewAt] at least as large as before, under the same id. *)
Theorem nextReviewAt_monotone (st : AppState) (t : Z) :
  reachable st ->
  (forall s : LearningSession,
      In s (sessions st) \/ asLearningSession (currentSession st) = Some s ->
      sameId s (currentSession st) = true -> lastScheduled s <= t) ->
  exists pre : list LearningSession,
    (pre = []
     \/ exists cs, asLearningSession (currentSession st) = Some cs
                   /\ pre = [cs])
    /\ Forall2
         (fun a b => id b = id a /\ nextReviewAt a <= nextReviewAt b)
         (pre ++ sessions st) (sessions (handleFinishLearning t st)).
Proof.
  intros Hr Ht. pose proof (reachable_inv _ Hr) as Hinv.
  destruct (truthy_str (p_id (currentSession st))) eqn:Hid.
  2:{ rewrite (handleFinishLearning_no_id _ _ Hid). exists [].
      split; [now left|]. apply Forall2_same. intros a _. split; [reflexivity | lia]. }
  rewrite (handleFinishLearning_sessions _ _ Hid).
  destruct (find (fun s => sameId s (currentSession st)) (sessions st))
    as [existing|] eqn:Hf.
  - exists []. split; [now left|]. cbn [app].
    rewrite (finishUpdate_existing _ _ _ _ Hf).
    apply Forall2_map_self. intros a Ha.
    destruct (sameId a (currentSession st)) eqn:Ea; [|split; [reflexivity | lia]].
    fields. split; [reflexivity|].
    assert (a = existing) as ->
      by (eapply find_some_unique; eauto; apply Hinv).
    pose proof (proj1 (Forall_forall _ _) (inv_stored _ Hinv) _ Ha)
      as (Hrc & last & Hpos & Hlast & Hnext).
    specialize (Ht existing (or_introl Ha) Ea).
    unfold lastScheduled in Ht. rewrite Hlast in Ht. rewrite Hnext.
    pose proof (EBBINGHAUS_INTERVALS_sorted _ _
                  (stageIndex_next (reviewCount existing))) as Hd.
    unfold IntervalTable, msPerDay. nia.
  - destruct (asLearningSession (currentSession st)) as [cs|] eqn:Hcs.
    + exists [cs]. split; [right; now exists cs|].
      rewrite (finishUpdate_new _ _ _ _ Hf Hcs). cbn [app].
      constructor.
      * fields. split; [reflexivity|].
        assert (Hsame : sameId cs (currentSession st) = true)
          by (apply sameId_true; now apply asLearningSession_id).
        specialize (Ht cs (or_intror eq_refl) Hsame).
        destruct (inv_current _ Hinv) as [H|[(c & Hc & _)|(full & Hfull & Hin)]].
        -- destruct (truthy_str_some _ Hid). congruence.
        -- destruct (fresh_cast _ _ _ Hc Hcs) as [-> Hl]. lia.
        -- exfalso.
           exact (find_none_id _ _ _ (asLearningSession_id _ _ Hfull) Hf Hin).
      * apply Forall2_same. intros a _. split; [reflexivity | lia].
    + exists []. split; [now left|]. unfold finishUpdate. rewrite Hf, Hcs.
      apply Forall2_same. intros a _. split; [reflexivity | lia].
Qed.

Lemma revisit_reachable : reachable revisit.
Proof.
  unfold revisit. destruct (reviewedTimes_spec 0) as (Hr & s & Hs & _).
  rewrite Hs. apply reachable_step; [exact Hr|].
  cbn [enabled]. rewrite Hs. cbn [existsb]. now rewrite String.eqb_refl.
Qed.

Lemma nextReviewAt_monotone_witness :
  exists pre : list LearningSession,
    (pre = []
     \/ exists cs, asLearningSession (currentSession revisit) = Some cs
                   /\ pre = [cs])
    /\ Forall2
         (fun a b => id b = id a /\ nextReviewAt a <= nextReviewAt b)
         (pre ++ sessions revisit) (sessions (handleFinishLearning 5 revisit)).
Proof.
  apply (nextReviewAt_monotone revisit 5).
  - exact revisit_reachable.
  - intros s [H|H] _.
    + vm_compute in H. destruct H as [<-|[]]. vm_compute. discriminate.
    + vm_compute in H. injection H as <-. vm_compute. discriminate.
Defined.

(* ================================================================== *)
(** * What a completion leaves alone *)
(* ================================================================== *)

Lemma sameContent_withSchedule (s : LearningSession) (rc : nat) (nra : Z)
    (lna lra : option Z) :
  sameContent s (withSchedule s rc nra lna lra).
Proof. repeat split. Qed.

Lemma at_most_one_record (cur : PartialSession) (l : list LearningSession) :
  NoDup (map id l) ->
  (List.length (filter (fun s => sameId s cur) l) <= 1)%nat.
Proof.
  intros Hnd.
  destruct (find (fun s => sameId s cur) l) as [e|] eqn:Hf.
  - apply find_some in Hf as [Hin He].
    now rewrite (one_record_per_id cur l e).
  - rewrite filter_none; [simpl; lia|].
    intros a Ha. exact (find_none_sameId _ _ _ Hf Ha).
Qed.

(** Claim C9.  A completion writes the scheduling fields only.  When the
    store has a record with the id of the current session, each record
    with that id is replaced by a copy that has the same id, [createdAt]
    and content fields and new [reviewCount], [nextReviewAt],
    [lastNotifiedAt] and [lastReviewedAt], and every other record is left
    as it is, at its place; in a reachable state at most one record has
    that id.  When the store has none, the new record is put in front of
    the unchanged store, with the id, [createdAt] and content of the
    current session.  The vocabulary and the goals are not touched. *)
Theorem completion_frame :
  (forall (t : Z) (cur : PartialSession) (prev : list LearningSession)
          (existing : LearningSession),
      find (fun s => sameId s cur) prev = Some existing ->
      Forall2
        (fun s s' =>
           if sameId s cur
           then sameContent s s'
                /\ reviewCount s' = (reviewCount s + 1)%nat
                /\ nextReviewAt s'
                   = t + IntervalTable (reviewCount existing + 1) * msPerDay
                /\ lastNotifiedAt s' = Some 0
                /\ lastReviewedAt s' = Some t
           else s' = s)
        prev (finishUpdate t cur prev))
  /\ (forall (t : Z) (cur : PartialSession) (prev : list LearningSession)
             (cs : LearningSession),
         find (fun s => sameId s cur) prev = None ->
         asLearningSession cur = Some cs ->
         exists new,
           finishUpdate t cur prev = new :: prev
           /\ sameContent cs new
           /\ reviewCount new = 1%nat
           /\ nextReviewAt new = t + 1 * msPerDay
           /\ lastReviewedAt new = Some t
           /\ lastNotifiedAt new = lastNotifiedAt cs)
  /\ (forall st : AppState,
         reachable st ->
         (List.length
            (filter (fun s => sameId s (currentSession st)) (sessions st))
          <= 1)%nat)
  /\ (forall (t : Z) (st : AppState),
         vocabulary (handleFinishLearning t st) = vocabulary st
         /\ goals (handleFinishLearning t st) = goals st).
Proof.
  split; [|split; [|split]].
  - intros t cur prev existing Hf.
    rewrite (finishUpdate_existing _ _ _ _ Hf).
    apply Forall2_map_self. intros s _.
    destruct (sameId s cur); [|reflexivity].
    split; [apply sameContent_withSchedule|]. fields. auto.
  - intros t cur prev cs Hf Hcs. eexists.
    split; [exact (finishUpdate_new _ _ _ _ Hf Hcs)|].
    split; [apply sameContent_withSchedule|]. fields.
    rewrite days_ms. repeat split.
  - intros st Hr. apply at_most_one_record. apply (reachable_inv _ Hr).
  - intros t st. unfold handleFinishLearning.
    destruct (negb (truthy_str (p_id (currentSession st)))); split; reflexivity.
Qed.

Lemma completion_frame_witness :
  Forall2
    (fun s s' =>
       if sameId s (toPartial reviewedFiveTimes)
       then sameContent s s'
            /\ reviewCount s' = (reviewCount s + 1)%nat
            /\ nextReviewAt s'
               = 1702592000000
                 + IntervalTable (reviewCount reviewedFiveTimes + 1) * msPerDay
            /\ lastNotifiedAt s' = Some 0
            /\ lastReviewedAt s' = Some 1702592000000
       else s' = s)
    [newcomer; reviewedFiveTimes]
    (finishUpdate 1702592000000 (toPartial reviewedFiveTimes)
       [newcomer; reviewedFiveTimes])
  /\ exists new,
       finishUpdate 1700000600000 (toPartial newcomer) [reviewedFiveTimes]
       = new :: [reviewedFiveTimes]
       /\ sameContent newcomer new
       /\ reviewCount new = 1%nat
       /\ nextReviewAt new = 1700000600000 + 1 * msPerDay
       /\ lastReviewedAt new = Some 1700000600000
       /\ lastNotifiedAt new = lastNotifiedAt newcomer.
Proof.
  split.
  - apply (proj1 completion_frame 1702592000000 (toPartial reviewedFiveTimes)
             [newcomer; reviewedFiveTimes] reviewedFiveTimes).
    reflexivity.
  - apply (proj1 (proj2 completion_frame) 1700000600000 (toPartial newcomer)
             [reviewedFiveTimes] newcomer); reflexivity.
Defined.

(* ================================================================== *)
(** * Due detection *)
(* ================================================================== *)

Lemma newlyDue_spec (t : Z) (s : LearningSession) :
  newlyDue t s = true <-> NewlyDue t s.
Proof.
  unfold newlyDue, NewlyDue, truthy, ltOpt.
  rewrite andb_true_iff, orb_true_iff, Z.leb_le.
  destruct (lastNotifiedAt s) as [n|].
  - rewrite negb_true_iff, negb_false_iff, Z.eqb_eq, Z.ltb_lt. split.
    + intros [H [->|Hn]]; split; auto. right; right. now exists n.
    + intros [H [Hn|[[= ->]|(m & [= <-] & Hm)]]]; [discriminate| |]; auto.
  - split; intros [H _]; auto.
Qed.

Lemma newlyDue_false (t : Z) (s : LearningSession) :
  newlyDue t s = false <-> ~ NewlyDue t s.
Proof.
  rewrite <- newlyDue_spec. destruct (newlyDue t s); split; congruence.
Qed.

(** Claim C2.  The records [checkReviews] detects are exactly the records
    of the store that are newly due, in the order of the store and as often
    as they occur in it: a record is kept when [nextReviewAt <= now] and
    [lastNotifiedAt] is absent, zero, or earlier than [nextReviewAt], and
    dropped otherwise. *)
Theorem newly_due_detection (t : Z) :
  (forall (l : list LearningSession) (s : LearningSession),
      In s (dueSessions t l) <-> In s l /\ NewlyDue t s)
  /\ (forall a b : list LearningSession,
         dueSessions t (a ++ b) = dueSessions t a ++ dueSessions t b)
  /\ (forall s : LearningSession, NewlyDue t s -> dueSessions t [s] = [s])
  /\ (forall s : LearningSession, ~ NewlyDue t s -> dueSessions t [s] = [])
  /\ (forall (l : list LearningSession) (n : ReviewNotification)
             (u : list LearningSession -> list LearningSession),
         checkReviews granted t l = Some (n, u) ->
         dueNumber n = List.length (dueSessions t l)
         /\ hd_error (dueSessions t l) = Some (firstSession n)).
Proof.
  split; [|split; [|split; [|split]]].
  - intros l s. unfold dueSessions. rewrite filter_In. now rewrite newlyDue_spec.
  - intros a b. apply filter_app.
  - intros s H. unfold dueSessions. simpl.
    now rewrite (proj2 (newlyDue_spec t s) H).
  - intros s H. unfold dueSessions. simpl.
    now rewrite (proj2 (newlyDue_false t s) H).
  - intros l n u. unfold checkReviews.
    destruct (dueSessions t l) as [|first rest]; [discriminate|].
    intros [= <- _]. split; reflexivity.
Qed.

Lemma newly_due_detection_witness :
  dueSessions 1700000000000 [dueFresh] = [dueFresh]
  /\ dueSessions 1700000000000 [dueNotified] = []
  /\ dueSessions 1700000000000 [notDue] = [].
Proof.
  pose proof (newly_due_detection 1700000000000) as (_ & _ & Hin & Hout & _).
  split; [|split].
  - apply Hin. split; [vm_compute; discriminate | right; left; reflexivity].
  - apply Hout. intros [_ [H|[H|(n & H & Hn)]]]; try discriminate H.
    injection H as <-. vm_compute in Hn. discriminate Hn.
  - apply Hout. intros [H _]. vm_compute in H. now apply H.
Defined.

(* ================================================================== *)
(** * The notifier tick *)
(* ================================================================== *)

Lemma existsb_self (due : list LearningSession) (s : LearningSession) :
  In s due -> existsb (fun ds => (id ds =? id s)%string) due = true.
Proof.
  intros H. apply existsb_exists. exists s. split; [exact H|].
  apply String.eqb_refl.
Qed.

Lemma existsb_unique (t : Z) (l : list LearningSession) (s : LearningSession) :
  NoDup (map id l) -> In s l ->
  existsb (fun ds => (id ds =? id s)%string) (dueSessions t l) = true ->
  newlyDue t s = true.
Proof.
  intros Hnd Hin H. apply existsb_exists in H as (ds & Hds & Heq).
  apply String.eqb_eq in Heq. apply filter_In in Hds as [Hds Hdue].
  now rewrite <- (NoDup_map_inj id l ds s Hnd Hds Hin Heq).
Qed.

(** After a tick at [t], no record of the store is newly due at [t'],
    when [t'] is not earlier than [t] and no record has crossed its due
    date in between. *)
Lemma notified_not_due (t t' : Z) (l : list LearningSession) :
  t <> 0 -> t <= t' ->
  (forall s, In s l -> nextReviewAt s <= t \/ t' < nextReviewAt s) ->
  dueSessions t' (notifiedUpdate t (dueSessions t l) l) = [].
Proof.
  intros H0 Hle Hcross. apply filter_none. intros s' Hin.
  apply in_map_iff in Hin as (s & <- & Hin).
  specialize (Hcross s Hin).
  destruct (existsb _ (dueSessions t l)) eqn:Hex.
  - unfold newlyDue, truthy, ltOpt. fields.
    destruct (Z.eqb_spec t 0); [contradiction|]. simpl.
    destruct (Z.leb_spec (nextReviewAt s) t'); [|reflexivity].
    destruct (Z.ltb_spec t (nextReviewAt s)); [lia | reflexivity].
  - assert (Hs : newlyDue t s = false).
    { destruct (newlyDue t s) eqn:E; [|reflexivity].
      rewrite existsb_self in Hex; [discriminate|].
      apply filter_In. now split. }
    unfold newlyDue in *.
    destruct (negb (truthy (lastNotifiedAt s))
              || ltOpt (lastNotifiedAt s) (nextReviewAt s));
      [|now rewrite andb_false_r].
    rewrite andb_true_r in *. apply Z.leb_gt in Hs. apply Z.leb_gt. lia.
Qed.

(** Why the instant of a tick must not be 0: the stamp 0 reads as "never
    notified", so a record stamped by a tick at 0 is newly due again. *)
Lemma zero_stamp_reads_as_absent :
  dueSessions 0 [dueAtZero] = [dueAtZero]
  /\ dueSessions 0 (notifiedUpdate 0 [dueAtZero] [dueAtZero])
     = [withLastNotifiedAt dueAtZero 0].
Proof. split; reflexivity. Qed.

(** Claim C3.  With the permission granted, a tick at an instant [t]
    other than 0 (the value that stands for "never notified") issues a
    notification exactly when some record is newly due; it carries their
    number and the first of them.  The tick stamps every newly due record
    with [lastNotifiedAt = t]; a record that is not newly due is left as it
    is, unless it has the id of a newly due one, which the ids of a store
    without duplicate ids exclude.  A second tick on the resulting state, at
    the same instant or at a later one before any record crosses its due
    date, finds no newly due record, issues nothing and changes nothing.
    Without the permission a tick does nothing. *)
Theorem tick_idempotent (st : AppState) (t : Z) :
  t <> 0 ->
  (fst (tick granted t st) = None <-> dueSessions t (sessions st) = [])
  /\ (forall n, fst (tick granted t st) = Some n ->
                dueNumber n = List.length (dueSessions t (sessions st))
                /\ hd_error (dueSessions t (sessions st)) = Some (firstSession n))
  /\ Forall2
       (fun s s' =>
          if newlyDue t s
          then s' = withLastNotifiedAt s t /\ lastNotifiedAt s' = Some t
          else s' = s \/ s' = withLastNotifiedAt s t)
       (sessions st) (sessions (snd (tick granted t st)))
  /\ (NoDup (map id (sessions st)) ->
      Forall2 (fun s s' => newlyDue t s = false -> s' = s)
        (sessions st) (sessions (snd (tick granted t st))))
  /\ (forall t' : Z,
         t <= t' ->
         (forall s, In s (sessions st) ->
                    nextReviewAt s <= t \/ t' < nextReviewAt s) ->
         dueSessions t' (sessions (snd (tick granted t st))) = []
         /\ tick granted t' (snd (tick granted t st))
            = (None, snd (tick granted t st)))
  /\ (forall perm, perm <> granted -> tick perm t st = (None, st)).
Proof.
  intros H0.
  assert (Htick :
    (dueSessions t (sessions st) = [] /\ tick granted t st = (None, st))
    \/ (exists first rest,
          dueSessions t (sessions st) = first :: rest
          /\ tick granted t st
             = (Some {| dueNumber := List.length (first :: rest);
                        firstSession := first |},
                setSessions
                  (notifiedUpdate t (dueSessions t (sessions st)) (sessions st))
                  st))).
  { unfold tick, checkReviews.
    destruct (dueSessions t (sessions st)) as [|first rest]; [now left|].
    right. now exists first, rest. }
  assert (Hempty : dueSessions t (sessions st) = [] ->
                   notifiedUpdate t (dueSessions t (sessions st)) (sessions st)
                   = sessions st).
  { intros ->. unfold notifiedUpdate. cbn [existsb]. apply map_id. }
  assert (Hsess : sessions (snd (tick granted t st))
                  = notifiedUpdate t (dueSessions t (sessions st)) (sessions st)).
  { destruct Htick as [[He ->]|(f & r & _ & ->)]; [|reflexivity].
    symmetry. now apply Hempty. }
  split; [|split; [|split; [|split; [|split]]]].
  - destruct Htick as [[He ->]|(f & r & He & ->)]; rewrite He; simpl;
      split; congruence.
  - intros n. destruct Htick as [[He ->]|(f & r & He & ->)]; [discriminate|].
    rewrite He. intros [= <-]. split; reflexivity.
  - rewrite Hsess. apply Forall2_map_self. intros s Hin.
    destruct (newlyDue t s) eqn:E.
    + rewrite existsb_self by (apply filter_In; now split). now split.
    + destruct (existsb _ (dueSessions t (sessions st))); auto.
  - intros Hnd. rewrite Hsess. apply Forall2_map_self. intros s Hin E.
    destruct (existsb _ (dueSessions t (sessions st))) eqn:Hex; [|reflexivity].
    rewrite (existsb_unique _ _ _ Hnd Hin Hex) in E. discriminate.
  - intros t' Hle Hcross.
    assert (Hnone : dueSessions t' (sessions (snd (tick granted t st))) = [])
      by (rewrite Hsess; now apply notified_not_due).
    split; [exact Hnone|]. unfold tick at 1, checkReviews. now rewrite Hnone.
  - intros perm Hp. unfold tick, checkReviews. destruct perm; congruence.
Qed.

Lemma tick_idempotent_witness :
  1700000000000 <> 0
  /\ (exists n, fst (tick granted 1700000000000 watched) = Some n
                /\ dueNumber n = 1%nat /\ firstSession n = dueFresh)
  /\ sessions (snd (tick granted 1700000000000 watched))
     = [withLastNotifiedAt dueFresh 1700000000000; dueNotified; notDue]
  /\ tick granted 1700000060000 (snd (tick granted 1700000000000 watched))
     = (None, snd (tick granted 1700000000000 watched)).
Proof.
  assert (H0 : 1700000000000 <> 0) by lia.
  destruct (tick_idempotent watched 1700000000000 H0)
    as (_ & Hn & _ & _ & Hagain & _).
  split; [exact H0|]. split; [|split].
  - eexists. split; [reflexivity|]. split; reflexivity.
  - reflexivity.
  - apply (Hagain 1700000060000); [lia|].
    intros s [<-|[<-|[<-|[]]]]; simpl; lia.
Defined.

(* ================================================================== *)
(** * Daily progress *)
(* ================================================================== *)

Lemma MakeDate_midnight (d : Z) : MakeDate d (MakeTime 0 0 0 0) = d * msPerDay.
Proof. unfold MakeDate, MakeTime. lia. Qed.

(** The start of the day depends on the instant through its local date
    only. *)
Lemma setHours0_same_day (tz : TimeZone) (t t' : Z) :
  localDay tz t = localDay tz t' -> setHours0 tz t = setHours0 tz t'.
Proof. unfold setHours0, localDay. now intros ->. Qed.

Lemma localMidnight_date (tz : TimeZone) (m : Z) :
  localMidnight tz m -> LocalTime tz m = MakeDate (localDay tz m) 0.
Proof.
  intros [Hm _]. unfold MakeDate, localDay, Day.
  pose proof (Z.div_mod (LocalTime tz m) msPerDay ltac:(unfold msPerDay; lia)).
  lia.
Qed.

(** [setHours0 tz t] is the first instant at which the local clock shows
    00:00:00.000 of the date of [t], when it shows it at all. *)
Lemma setHours0_first (tz : TimeZone) (t u : Z) :
  conforms tz -> LocalTime tz u = MakeDate (localDay tz t) 0 ->
  LocalTime tz (setHours0 tz t) = MakeDate (localDay tz t) 0
  /\ setHours0 tz t <= u.
Proof.
  intros Hc Hu. unfold setHours0. fold (localDay tz t).
  change (MakeTime 0 0 0 0) with 0. rewrite <- Hu. apply Hc.
Qed.

Lemma setHours0_midnight (tz : TimeZone) (t m : Z) :
  conforms tz -> localMidnight tz m -> localDay tz m = localDay tz t ->
  setHours0 tz t = m.
Proof.
  intros Hc Hm Hd. pose proof (localMidnight_date _ _ Hm) as Hdate.
  rewrite Hd in Hdate.
  destruct (setHours0_first tz t m Hc Hdate) as [Hl Hle].
  destruct Hm as [_ Hmin]. specialize (Hmin (setHours0 tz t)).
  rewrite Hl, Hdate in Hmin. specialize (Hmin eq_refl). lia.
Qed.

(** In a zone that keeps one offset, the days have 24 hours and the start
    of the day is the last instant at which the local time is a multiple of
    a day. *)
Lemma fixedOffset_conforms (o : Z) : conforms (fixedOffset o).
Proof. intros u. unfold LocalTime, UTC. cbn [fixedOffset LocalTZA]. lia. Qed.

Lemma setHours0_fixedOffset (o t : Z) :
  setHours0 (fixedOffset o) t = t - (t + o) mod msPerDay
  /\ setHours0 (fixedOffset o) t <= t < setHours0 (fixedOffset o) t + msPerDay
  /\ localMidnight (fixedOffset o) (setHours0 (fixedOffset o) t).
Proof.
  assert (Hd : 0 < msPerDay) by reflexivity.
  assert (E : setHours0 (fixedOffset o) t = t - (t + o) mod msPerDay).
  { unfold setHours0, UTC, LocalTime, MakeDate, MakeTime, Day.
    cbn [fixedOffset LocalTZA].
    pose proof (Z.div_mod (t + o) msPerDay ltac:(lia)). lia. }
  pose proof (Z.mod_pos_bound (t + o) msPerDay Hd) as Hb.
  split; [exact E|]. split; [lia|]. split.
  - rewrite E. unfold LocalTime. cbn [fixedOffset LocalTZA].
    replace (t - (t + o) mod msPerDay + o)
      with ((t + o) / msPerDay * msPerDay)
      by (pose proof (Z.div_mod (t + o) msPerDay ltac:(lia)); lia).
    apply Z_mod_mult.
  - intros u. unfold LocalTime. cbn [fixedOffset LocalTZA]. lia.
Qed.

Lemma newWords_one (tz : TimeZone) (t : Z) (v : VocabularyWord) :
  newWords (dailyProgress tz t [v] [])
  = if setHours0 tz t <=? addedAt v then 1%nat else 0%nat.
Proof.
  unfold dailyProgress. cbn [newWords filter]. rewrite Z.geb_leb.
  now destruct (setHours0 tz t <=? addedAt v).
Qed.

Lemma Count_filter {A : Type} (P : A -> Prop) (f : A -> bool) (l : list A) :
  (forall x, In x l -> (f x = true <-> P x)) ->
  Count P l (List.length (filter f l)).
Proof.
  induction l as [|x l IH]; intros H; simpl; [constructor|].
  assert (Hl : Count P l (List.length (filter f l)))
    by (apply IH; intros y Hy; apply H; now right).
  pose proof (H x (or_introl eq_refl)) as Hx.
  destruct (f x) eqn:E; simpl.
  - apply Count_in; [now apply Hx | exact Hl].
  - apply Count_out; [|exact Hl]. intros HP. apply Hx in HP. discriminate.
Qed.

Lemma Count_unique {A : Type} (P : A -> Prop) (l : list A) (n m : nat) :
  Count P l n -> Count P l m -> n = m.
Proof.
  intros Hn. revert m.
  induction Hn as [|x l n Hx _ IH|x l n Hx _ IH]; intros m Hm;
    inversion Hm; subst; auto; contradiction.
Qed.

Lemma reachable_reviewed (st : AppState) :
  reachable st -> Forall (fun s => lastReviewedAt s <> Some 0) (sessions st).
Proof.
  intros Hr. apply reachable_inv in Hr as [Hs _ _].
  eapply Forall_impl; [|exact Hs].
  intros s (_ & last & Hpos & Hl & _). rewrite Hl. intros [= ->]. lia.
Qed.

(** Claim C7.  [dailyProgress], computed at the instant [t] in any time
    zone, counts the vocabulary items added at or after [setHours0 tz t]
    and the sessions whose [lastReviewedAt] is present (the code reads
    [undefined] and 0 as absent) and at or after it; in a store where no
    [lastReviewedAt] is 0, as in every reachable store, these are the
    sessions that have a [lastReviewedAt] at or after it.  On a platform
    that reads local times as ECMAScript asks, [setHours0 tz t] is the local
    midnight of the day that contains [t]: the first instant at which the
    clock shows 00:00:00.000 of the date of [t], whatever the length of the
    day.  Around a local midnight [m]: an item added one second before [m]
    is counted all along its day, and not on the day that starts at [m]; an
    item added at [m] is counted all along the day that starts at [m], and
    not on a later day. *)
Theorem dailyProgress_counts (tz : TimeZone) (t : Z)
    (voc : list VocabularyWord) (l : list LearningSession) :
  Count (fun v => setHours0 tz t <= addedAt v) voc
    (newWords (dailyProgress tz t voc l))
  /\ Count (fun s => exists r, lastReviewedAt s = Some r /\ r <> 0
                               /\ setHours0 tz t <= r) l
       (reviews (dailyProgress tz t voc l))
  /\ (Forall (fun s => lastReviewedAt s <> Some 0) l ->
      Count (fun s => exists r, lastReviewedAt s = Some r /\ setHours0 tz t <= r) l
        (reviews (dailyProgress tz t voc l)))
  /\ (conforms tz ->
      (forall u : Z,
          LocalTime tz u = MakeDate (localDay tz t) 0 ->
          LocalTime tz (setHours0 tz t) = MakeDate (localDay tz t) 0
          /\ setHours0 tz t <= u)
      /\ (forall m : Z,
             localMidnight tz m -> localDay tz m = localDay tz t ->
             setHours0 tz t = m)
      /\ (forall (m : Z) (v : VocabularyWord),
             localMidnight tz m ->
             (addedAt v = m - 1000 ->
              (forall m0 t' : Z,
                  localMidnight tz m0 -> m0 <= m - 1000 ->
                  localDay tz m0 = localDay tz (m - 1000) ->
                  localDay tz t' = localDay tz (m - 1000) ->
                  newWords (dailyProgress tz t' [v] []) = 1%nat)
              /\ (forall t' : Z,
                     localDay tz t' = localDay tz m ->
                     newWords (dailyProgress tz t' [v] []) = 0%nat))
             /\ (addedAt v = m ->
                 (forall t' : Z,
                     localDay tz t' = localDay tz m ->
                     newWords (dailyProgress tz t' [v] []) = 1%nat)
                 /\ (forall m1 t' : Z,
                        localMidnight tz m1 -> m < m1 ->
                        localDay tz t' = localDay tz m1 ->
                        newWords (dailyProgress tz t' [v] []) = 0%nat)))).
Proof.
  split; [|split; [|split; [|intros Hc; split; [|split]]]].
  - apply Count_filter. intros v _. rewrite Z.geb_le. reflexivity.
  - apply Count_filter. intros s _.
    unfold truthy, geOpt. destruct (lastReviewedAt s) as [r|].
    + rewrite andb_true_iff, negb_true_iff, Z.eqb_neq, Z.geb_le. split.
      * intros [H0 H]. now exists r.
      * intros (r' & [= <-] & H0 & H). now split.
    + split; [discriminate | intros (r & H & _); discriminate].
  - intros Hz. apply Count_filter. intros s Hin.
    pose proof (proj1 (Forall_forall _ _) Hz s Hin) as Hs.
    unfold truthy, geOpt. destruct (lastReviewedAt s) as [r|] eqn:E.
    + rewrite andb_true_iff, negb_true_iff, Z.eqb_neq, Z.geb_le. split.
      * intros [_ H]. now exists r.
      * intros (r' & [= <-] & H). split; [congruence | exact H].
    + split; [discriminate | intros (r & H & _); discriminate].
  - intros u. now apply setHours0_first.
  - intros m. now apply setHours0_midnight.
  - intros m v Hm. split; intros Hv; split.
    + intros m0 t' Hm0 Hle Hd0 Hd. rewrite newWords_one, Hv.
      rewrite (setHours0_midnight tz t' m0 Hc Hm0) by congruence.
      destruct (Z.leb_spec m0 (m - 1000)); [reflexivity | lia].
    + intros t' Hd. rewrite newWords_one, Hv.
      rewrite (setHours0_midnight tz t' m Hc Hm) by congruence.
      destruct (Z.leb_spec m (m - 1000)); [lia | reflexivity].
    + intros t' Hd. rewrite newWords_one, Hv.
      rewrite (setHours0_midnight tz t' m Hc Hm) by congruence.
      destruct (Z.leb_spec m m); [reflexivity | lia].
    + intros m1 t' Hm1 Hlt Hd. rewrite newWords_one, Hv.
      rewrite (setHours0_midnight tz t' m1 Hc Hm1) by congruence.
      destruct (Z.leb_spec m1 m); [lia | reflexivity].
Qed.

Lemma newYork2023_conforms : conforms newYork2023.
Proof.
  intros u. unfold LocalTime, UTC, newYork2023, zoneOfTable.
  cbn [LocalTZA offsetAt offsetOfLocal].
  destruct (Z.ltb_spec u 1678604400000);
    [|destruct (Z.ltb_spec u 1699164000000)];
    repeat (match goal with
            | |- context [?a <? ?b] => destruct (Z.ltb_spec a b)
            end; cbn [orb]); lia.
Qed.

Lemma newYork2023_midnight (m : Z) :
  In m [1699070400000; 1699156800000; 1699246800000] ->
  localMidnight newYork2023 m.
Proof.
  intros Hin. split.
  - destruct Hin as [<-|[<-|[<-|[]]]]; reflexivity.
  - intros u. unfold LocalTime, newYork2023, zoneOfTable.
    cbn [LocalTZA offsetAt].
    destruct Hin as [<-|[<-|[<-|[]]]];
      repeat (match goal with
              | |- context [?a <? ?b] => destruct (Z.ltb_spec a b)
              end; cbn [orb]); lia.
Qed.

(** New York, 5 November 2023, a day of 25 hours.  At 23:30 of that day the
    start of the day is its midnight, 24 hours and a half earlier; a word
    added one second before that midnight is not counted, a word added at
    it is, and a word added at half past midnight is one of the two words
    of the day. *)
Lemma dailyProgress_counts_witness :
  conforms newYork2023
  /\ localMidnight newYork2023 1699156800000
  /\ localDay newYork2023 1699156800000 = localDay newYork2023 1699245000000
  /\ setHours0 newYork2023 1699245000000 = 1699245000000 - 88200000
  /\ Count (fun v => setHours0 newYork2023 1699245000000 <= addedAt v)
       [wordAddedAt 1699156799000; wordAddedAt 1699156800000;
        wordAddedAt 1699158600000] 2
  /\ Forall (fun s => lastReviewedAt s <> Some 0) [reviewedFiveTimes; notDue]
  /\ Count (fun s => exists r, lastReviewedAt s = Some r
                               /\ setHours0 newYork2023 1699245000000 <= r)
       [reviewedFiveTimes; notDue] 2
  /\ newWords (dailyProgress newYork2023 1699245000000
                 [wordAddedAt 1699156799000] []) = 0%nat
  /\ newWords (dailyProgress newYork2023 1699245000000
                 [wordAddedAt 1699156800000] []) = 1%nat
  /\ newWords (dailyProgress newYork2023 1699156799000
                 [wordAddedAt 1699156799000] []) = 1%nat.
Proof.
  assert (Hz : Forall (fun s => lastReviewedAt s <> Some 0)
                 [reviewedFiveTimes; notDue])
    by (repeat constructor; discriminate).
  assert (Hm : localMidnight newYork2023 1699156800000)
    by (apply newYork2023_midnight; right; left; reflexivity).
  assert (Hm0 : localMidnight newYork2023 1699070400000)
    by (apply newYork2023_midnight; left; reflexivity).
  assert (Hd : localDay newYork2023 1699156800000
               = localDay newYork2023 1699245000000) by reflexivity.
  destruct (dailyProgress_counts newYork2023 1699245000000
              [wordAddedAt 1699156799000; wordAddedAt 1699156800000;
               wordAddedAt 1699158600000]
              [reviewedFiveTimes; notDue])
    as (Hw & _ & Hr & Hzone).
  specialize (Hr Hz).
  destruct (Hzone newYork2023_conforms) as (_ & Hstart & Hb).
  destruct (Hb 1699156800000 (wordAddedAt 1699156799000) Hm) as [Hb1 _].
  destruct (Hb 1699156800000 (wordAddedAt 1699156800000) Hm) as [_ Hb2].
  split; [exact newYork2023_conforms|]. split; [exact Hm|].
  split; [exact Hd|]. split; [exact (Hstart _ Hm Hd)|].
  split; [exact Hw|]. split; [exact Hz|]. split; [exact Hr|].
  split; [|split].
  - apply (proj2 (Hb1 eq_refl)). symmetry. exact Hd.
  - apply (proj1 (Hb2 eq_refl)). symmetry. exact Hd.
  - apply (proj1 (Hb1 eq_refl) 1699070400000); [exact Hm0 | lia | | ];
      reflexivity.
Defined.

(* ================================================================== *)
(** * The progress bar *)
(* ================================================================== *)

Lemma sf_eqb_eq (x y : spec_float) : sf_eqb x y = true -> x = y.
Proof.
  destruct x as [a|a| |a m e], y as [b|b| |b m' e']; simpl; try discriminate.
  - intros H. apply eqb_prop in H. congruence.
  - intros H. apply eqb_prop in H. congruence.
  - reflexivity.
  - intros H. apply andb_prop in H as [H He]. apply andb_prop in H as [Ha Hm].
    apply eqb_prop in Ha. apply Pos.eqb_eq in Hm. apply Z.eqb_eq in He.
    congruence.
Qed.

Lemma zrange_In (lo : Z) (n : nat) (z : Z) :
  lo <= z < lo + Z.of_nat n -> In z (zrange lo n).
Proof.
  intros H. unfold zrange. apply in_map_iff. exists (Z.to_nat (z - lo)).
  split; [lia|]. apply in_seq. lia.
Qed.

Lemma checked_on_ranges :
  forallb (fun g => forallb (fun c => checkPositiveGoal c g) (zrange 0 201))
    (zrange 1 50)
  && forallb checkZeroGoal (zrange 1 200)
  && forallb (fun g => forallb (fun c => checkNegativeGoal c g) (zrange 0 201))
       (zrange (-50) 50)
  = true.
Proof. vm_cast_no_check (eq_refl true). Qed.

Lemma forallb_range (f : Z -> bool) (lo : Z) (n : nat) (z : Z) :
  forallb f (zrange lo n) = true -> lo <= z < lo + Z.of_nat n -> f z = true.
Proof.
  intros H Hz. exact (proj1 (forallb_forall f _) H z (zrange_In lo n z Hz)).
Qed.

(** ** Binary64 arithmetic on the numbers of the bar *)

(** The number of binary digits of a positive mantissa. *)
Lemma digits2_log2 (p : positive) :
  Z.pos (digits2_pos p) = Z.log2 (Z.pos p) + 1.
Proof.
  assert (H : forall q, digits2_pos q = Pos.size q)
    by (induction q as [q IH|q IH|]; simpl; congruence).
  rewrite H. destruct p; simpl; lia.
Qed.

Lemma digits2_bounds (p : positive) :
  2 ^ (Z.pos (digits2_pos p) - 1) <= Z.pos p < 2 ^ Z.pos (digits2_pos p).
Proof.
  rewrite digits2_log2.
  pose proof (Z.log2_spec (Z.pos p) ltac:(lia)) as H.
  replace (Z.log2 (Z.pos p) + 1 - 1) with (Z.log2 (Z.pos p)) by lia.
  replace (Z.log2 (Z.pos p) + 1) with (Z.succ (Z.log2 (Z.pos p))) by lia.
  exact H.
Qed.

Lemma digits2_unique (p : positive) (k : Z) :
  2 ^ (k - 1) <= Z.pos p < 2 ^ k -> Z.pos (digits2_pos p) = k.
Proof.
  intros H. rewrite digits2_log2.
  assert (Hk : 1 <= k).
  { destruct (Z_lt_le_dec k 1) as [Hlt|]; [|assumption]. exfalso.
    destruct (Z.eq_dec k 0) as [->|].
    - simpl in H. lia.
    - rewrite (Z.pow_neg_r 2 k) in H by lia. lia. }
  rewrite (Z.log2_unique (Z.pos p) (k - 1)); [lia | lia |].
  replace (Z.succ (k - 1)) with k by lia. exact H.
Qed.

(** Shifting a mantissa to the right. *)
Lemma shr_1_m (mrs : shr_record) :
  0 <= shr_m mrs -> shr_m (shr_1 mrs) = shr_m mrs / 2.
Proof.
  destruct mrs as [m r s]. cbn [shr_m]. intros Hm.
  rewrite <- Z.div2_div.
  destruct m as [|[p|p|]|p]; try reflexivity. lia.
Qed.

Lemma iter_shr_1_m (p : positive) :
  forall mrs : shr_record,
    0 <= shr_m mrs ->
    shr_m (iter_pos shr_1 p mrs) = shr_m mrs / 2 ^ Z.pos p.
Proof.
  induction p as [p IH|p IH|]; intros mrs Hm; cbn [iter_pos].
  - assert (H1 : 0 <= shr_m (shr_1 mrs))
      by (rewrite shr_1_m by assumption; apply Z.div_pos; lia).
    assert (H2 : 0 <= shr_m (iter_pos shr_1 p (shr_1 mrs)))
      by (rewrite IH by assumption; apply Z.div_pos; lia).
    rewrite IH, IH, shr_1_m by assumption.
    rewrite !Z.div_div by lia. f_equal.
    rewrite <- Z.pow_add_r by lia.
    rewrite <- (Z.pow_1_r 2) at 1. rewrite <- Z.pow_add_r by lia.
    f_equal. lia.
  - assert (H2 : 0 <= shr_m (iter_pos shr_1 p mrs))
      by (rewrite IH by assumption; apply Z.div_pos; lia).
    rewrite IH, IH by assumption.
    rewrite Z.div_div by lia. f_equal.
    rewrite <- Z.pow_add_r by lia. f_equal. lia.
  - rewrite shr_1_m by assumption. reflexivity.
Qed.

Lemma shr_record_of_loc_m (m : Z) (l : location) :
  shr_m (shr_record_of_loc m l) = m.
Proof. destruct l as [|[]]; reflexivity. Qed.

Lemma shr_m_spec (mrs : shr_record) (e n : Z) :
  0 <= shr_m mrs -> 0 <= n ->
  shr_m (fst (shr mrs e n)) = shr_m mrs / 2 ^ n /\ snd (shr mrs e n) = e + n.
Proof.
  intros Hm Hn. destruct n as [|p|p]; cbn [shr fst snd]; [| |lia].
  - rewrite Z.div_1_r. split; [reflexivity | lia].
  - split; [now apply iter_shr_1_m | reflexivity].
Qed.

Lemma fexp_eq (x : Z) : fexp Number.prec Number.emax x = Z.max (x - 53) (-1074).
Proof. reflexivity. Qed.

Lemma round_nearest_even_bounds (m : Z) (l : location) :
  m <= round_nearest_even m l <= m + 1.
Proof.
  destruct l as [|[]]; cbn [round_nearest_even]; try lia.
  destruct (Z.even m); lia.
Qed.

Lemma shr_spec (mrs : shr_record) (e n : Z) :
  0 <= shr_m mrs ->
  shr_m (fst (shr mrs e n)) = shr_m mrs / 2 ^ Z.max 0 n
  /\ snd (shr mrs e n) = e + Z.max 0 n.
Proof.
  intros Hm. destruct n as [|p|p]; cbn [shr fst snd].
  - rewrite Z.div_1_r. split; [reflexivity | lia].
  - rewrite Z.max_r by lia. split; [now apply iter_shr_1_m | reflexivity].
  - rewrite Z.max_l by lia. rewrite Z.div_1_r. split; [reflexivity | lia].
Qed.

Lemma shr_fexp_spec (m e : Z) (l : location) :
  0 <= m ->
  shr_m (fst (shr_fexp Number.prec Number.emax m e l))
  = m / 2 ^ Z.max 0 (fexp Number.prec Number.emax (Zdigits2 m + e) - e)
  /\ snd (shr_fexp Number.prec Number.emax m e l)
     = e + Z.max 0 (fexp Number.prec Number.emax (Zdigits2 m + e) - e).
Proof.
  intros Hm. unfold shr_fexp.
  pose proof (shr_spec (shr_record_of_loc m l) e
                (fexp Number.prec Number.emax (Zdigits2 m + e) - e)) as H.
  rewrite shr_record_of_loc_m in H. now apply H.
Qed.

(** The result of a rounding has the sign it is given. *)
Lemma bra_sign (s : bool) (m e : Z) (l : location) :
  0 <= m ->
  binary_round_aux Number.prec Number.emax s m e l = S754_zero s
  \/ binary_round_aux Number.prec Number.emax s m e l = S754_infinity s
  \/ exists m' e',
       binary_round_aux Number.prec Number.emax s m e l = S754_finite s m' e'.
Proof.
  intros Hm. unfold binary_round_aux.
  pose proof (shr_fexp_spec m e l Hm) as [H1 _].
  destruct (shr_fexp Number.prec Number.emax m e l) as [mrs1 e1].
  cbn [fst] in H1.
  assert (H1' : 0 <= shr_m mrs1) by (rewrite H1; apply Z.div_pos; lia).
  pose proof (round_nearest_even_bounds (shr_m mrs1) (loc_of_shr_record mrs1))
    as Hr.
  pose proof (shr_fexp_spec
                (round_nearest_even (shr_m mrs1) (loc_of_shr_record mrs1))
                e1 loc_Exact ltac:(lia)) as [H2 _].
  destruct (shr_fexp Number.prec Number.emax
              (round_nearest_even (shr_m mrs1) (loc_of_shr_record mrs1))
              e1 loc_Exact) as [mrs2 e2].
  cbn [fst] in H2.
  assert (H2' : 0 <= shr_m mrs2) by (rewrite H2; apply Z.div_pos; lia).
  destruct (shr_m mrs2) as [|p|p]; [now left | | lia].
  right. destruct (e2 <=? Number.emax - Number.prec); [right; eauto | now left].
Qed.

(** Rounding a mantissa of 53 digits or more: the result is normal. *)
Lemma bra_normal (s : bool) (mx : positive) (ex : Z) (lx : location) :
  53 <= Z.pos (digits2_pos mx) ->
  -1074 <= ex + Z.pos (digits2_pos mx) - 53 ->
  exists (m : positive) (e : Z),
    binary_round_aux Number.prec Number.emax s (Z.pos mx) ex lx
    = (if e <=? 971 then S754_finite s m e else S754_infinity s)
    /\ Z.pos (digits2_pos m) = 53
    /\ ((e = ex + Z.pos (digits2_pos mx) - 53
         /\ Z.pos mx / 2 ^ (Z.pos (digits2_pos mx) - 53) <= Z.pos m)
        \/ (e = ex + Z.pos (digits2_pos mx) - 53 + 1 /\ Z.pos m = 2 ^ 52)).
Proof.
  set (D := Z.pos (digits2_pos mx)). intros HD He.
  unfold binary_round_aux.
  pose proof (shr_fexp_spec (Z.pos mx) ex lx ltac:(lia)) as [H1 H1e].
  destruct (shr_fexp Number.prec Number.emax (Z.pos mx) ex lx) as [mrs1 e1].
  cbn [fst snd] in H1, H1e. cbn [Zdigits2] in H1, H1e. fold D in H1, H1e.
  rewrite fexp_eq in H1, H1e.
  replace (Z.max 0 (Z.max (D + ex - 53) (-1074) - ex)) with (D - 53)
    in H1, H1e by lia.
  pose proof (digits2_bounds mx) as Hb. fold D in Hb.
  assert (Hp : 0 < 2 ^ (D - 53)) by (apply Z.pow_pos_nonneg; lia).
  assert (Hlo : 2 ^ 52 <= shr_m mrs1).
  { rewrite H1. apply Z.div_le_lower_bound; [lia|].
    rewrite <- Z.pow_add_r by lia.
    replace (D - 53 + 52) with (D - 1) by lia. lia. }
  assert (Hhi : shr_m mrs1 < 2 ^ 53).
  { rewrite H1. apply Z.div_lt_upper_bound; [lia|].
    rewrite <- Z.pow_add_r by lia.
    replace (D - 53 + 53) with D by lia. lia. }
  pose proof (round_nearest_even_bounds (shr_m mrs1) (loc_of_shr_record mrs1))
    as Hr.
  set (m2 := round_nearest_even (shr_m mrs1) (loc_of_shr_record mrs1)) in *.
  pose proof (shr_fexp_spec m2 e1 loc_Exact ltac:(lia)) as [H2 H2e].
  destruct (shr_fexp Number.prec Number.emax m2 e1 loc_Exact) as [mrs2 e2].
  cbn [fst snd] in H2, H2e.
  destruct m2 as [|q|q] eqn:Em2; [lia | | lia].
  cbn [Zdigits2] in H2, H2e. rewrite fexp_eq in H2, H2e.
  destruct (Z_lt_le_dec (Z.pos q) (2 ^ 53)) as [Hq|Hq].
  - assert (Hdq : Z.pos (digits2_pos q) = 53)
      by (apply digits2_unique; lia).
    rewrite Hdq in H2, H2e.
    replace (Z.max 0 (Z.max (53 + e1 - 53) (-1074) - e1)) with 0
      in H2, H2e by lia.
    rewrite Z.div_1_r in H2. rewrite H2.
    exists q, e2. split; [reflexivity|]. split; [exact Hdq|].
    left. split; [lia|]. rewrite <- H1. lia.
  - assert (Hq' : Z.pos q = 2 ^ 53) by lia.
    assert (Hdq : Z.pos (digits2_pos q) = 54)
      by (apply digits2_unique; lia).
    rewrite Hdq in H2, H2e.
    replace (Z.max 0 (Z.max (54 + e1 - 53) (-1074) - e1)) with 1
      in H2, H2e by lia.
    rewrite Hq' in H2. change (2 ^ 53 / 2 ^ 1) with (Z.pos (2 ^ 52)) in H2.
    rewrite H2.
    exists (2 ^ 52)%positive, e2. split; [reflexivity|].
    split; [reflexivity|]. right. split; [lia | reflexivity].
Qed.

Lemma bra_exact (s : bool) (mx : positive) (ex : Z) :
  Z.pos (digits2_pos mx) = 53 -> -1074 <= ex <= 971 ->
  binary_round_aux Number.prec Number.emax s (Z.pos mx) ex loc_Exact
  = S754_finite s mx ex.
Proof.
  intros HD He. unfold binary_round_aux, shr_fexp. cbn [Zdigits2].
  rewrite HD, fexp_eq.
  replace (Z.max (53 + ex - 53) (-1074) - ex) with 0 by lia.
  cbn [shr shr_record_of_loc shr_m loc_of_shr_record round_nearest_even
       Zdigits2].
  rewrite HD, fexp_eq.
  replace (Z.max (53 + ex - 53) (-1074) - ex) with 0 by lia.
  cbn [shr shr_record_of_loc shr_m].
  replace (ex <=? Number.emax - Number.prec) with true; [reflexivity|].
  symmetry. apply Z.leb_le. cbv [Number.emax Number.prec]. lia.
Qed.

Lemma iter_xO (d : positive) (m : positive) :
  Z.pos (Pos.iter xO m d) = Z.pos m * 2 ^ Z.pos d.
Proof.
  induction d as [|d IH] using Pos.peano_ind.
  - cbn [Pos.iter]. lia.
  - rewrite Pos.iter_succ, Pos2Z.inj_xO, IH, Pos2Z.inj_succ.
    rewrite Z.pow_succ_r by lia. lia.
Qed.

(** The binary64 number of a positive integer [p], with the sign [s]. *)
Lemma binary_round_small (s : bool) (p : positive) :
  Z.pos (digits2_pos p) <= 53 ->
  exists m : positive,
    binary_round Number.prec Number.emax s p 0
    = S754_finite s m (Z.pos (digits2_pos p) - 53)
    /\ Z.pos m = Z.pos p * 2 ^ (53 - Z.pos (digits2_pos p))
    /\ Z.pos (digits2_pos m) = 53.
Proof.
  set (D := Z.pos (digits2_pos p)). intros HD.
  assert (H1 : 1 <= D) by (unfold D; lia).
  pose proof (digits2_bounds p) as Hb. fold D in Hb.
  unfold binary_round, shl_align. fold D. rewrite Z.add_0_r, fexp_eq.
  replace (Z.max (D - 53) (-1074)) with (D - 53) by lia.
  rewrite Z.sub_0_r.
  destruct (D - 53) as [|d|d] eqn:Ed; [| lia |].
  - assert (HD53 : D = 53) by lia.
    exists p. rewrite bra_exact by (fold D; lia).
    split; [reflexivity|]. split; [|exact HD53].
    rewrite HD53. change (2 ^ (53 - 53)) with 1. lia.
  - assert (Hd : Z.pos d = 53 - D) by lia.
    assert (Hm : Z.pos (Pos.iter xO p d) = Z.pos p * 2 ^ (53 - D))
      by (rewrite iter_xO, Hd; reflexivity).
    assert (Hp : 0 < 2 ^ (53 - D)) by (apply Z.pow_pos_nonneg; lia).
    assert (Hdm : Z.pos (digits2_pos (Pos.iter xO p d)) = 53).
    { apply digits2_unique. rewrite Hm. split.
      - replace (53 - 1) with ((D - 1) + (53 - D)) by lia.
        rewrite Z.pow_add_r by lia. nia.
      - replace 53 with (D + (53 - D)) at 2 by lia.
        rewrite Z.pow_add_r by lia. nia. }
    exists (Pos.iter xO p d).
    rewrite bra_exact by (try assumption; lia).
    split; [reflexivity|]. split; [exact Hm | exact Hdm].
Qed.

Lemma binary_round_large (s : bool) (p : positive) :
  53 < Z.pos (digits2_pos p) ->
  exists (m : positive) (e : Z),
    binary_round Number.prec Number.emax s p 0
    = (if e <=? 971 then S754_finite s m e else S754_infinity s)
    /\ Z.pos (digits2_pos m) = 53 /\ 1 <= e.
Proof.
  set (D := Z.pos (digits2_pos p)). intros HD.
  unfold binary_round, shl_align. fold D. rewrite Z.add_0_r, fexp_eq.
  replace (Z.max (D - 53) (-1074)) with (D - 53) by lia.
  rewrite Z.sub_0_r.
  destruct (D - 53) as [|d|d] eqn:Ed; [lia | | lia].
  destruct (bra_normal s p 0 loc_Exact) as (m & e & Hr & Hm & He);
    [fold D; lia | fold D; lia |].
  fold D in He. exists m, e. split; [exact Hr|]. split; [exact Hm | lia].
Qed.

Lemma atLeast_if (m0 m : positive) (e0 e : Z) :
  Z.pos (digits2_pos m) = 53 ->
  e0 < e \/ (e = e0 /\ Z.pos m0 <= Z.pos m) ->
  atLeast m0 e0
    (if e <=? 971 then S754_finite false m e else S754_infinity false).
Proof.
  intros Hd He. destruct (e <=? 971); [right; eauto | now left].
Qed.

(** The numbers of two positive integers are ordered as the integers. *)
Lemma ofZ_atLeast (g c : Z) :
  1 <= g <= c -> g < 2 ^ 53 ->
  exists (mg : positive) (eg : Z),
    Number.ofZ g = S754_finite false mg eg
    /\ Z.pos (digits2_pos mg) = 53
    /\ Z.pos mg = g * 2 ^ (- eg) /\ -52 <= eg <= 0
    /\ atLeast mg eg (Number.ofZ c).
Proof.
  intros [Hg Hgc] Hg53.
  destruct g as [|pg|pg]; [lia | | lia].
  destruct c as [|pc|pc]; [lia | | lia].
  unfold Number.ofZ. cbn [binary_normalize].
  pose proof (digits2_bounds pg) as Hbg.
  assert (HDg : Z.pos (digits2_pos pg) <= 53).
  { destruct (Z_lt_le_dec 53 (Z.pos (digits2_pos pg))) as [H|]; [|assumption].
    exfalso.
    assert (2 ^ 53 <= 2 ^ (Z.pos (digits2_pos pg) - 1))
      by (apply Z.pow_le_mono_r; lia). lia. }
  destruct (binary_round_small false pg HDg) as (mg & Hrg & Hmg & Hdg).
  exists mg, (Z.pos (digits2_pos pg) - 53).
  split; [exact Hrg|]. split; [exact Hdg|].
  split; [rewrite Hmg; f_equal; f_equal; lia|]. split; [lia|].
  assert (Hmono : Z.pos (digits2_pos pg) <= Z.pos (digits2_pos pc)).
  { rewrite !digits2_log2.
    pose proof (Z.log2_le_mono (Z.pos pg) (Z.pos pc) Hgc). lia. }
  destruct (Z_lt_le_dec 53 (Z.pos (digits2_pos pc))) as [Hc|Hc].
  - destruct (binary_round_large false pc Hc) as (m & e & Hr & Hm & He).
    rewrite Hr. apply atLeast_if; [exact Hm | left; lia].
  - destruct (binary_round_small false pc Hc) as (mc & Hrc & Hmc & Hdc).
    rewrite Hrc. right. exists mc, (Z.pos (digits2_pos pc) - 53).
    split; [reflexivity|]. split; [exact Hdc|].
    destruct (Z.eq_dec (Z.pos (digits2_pos pg)) (Z.pos (digits2_pos pc)))
      as [E|E]; [right | left; lia].
    split; [lia|]. rewrite Hmg, Hmc, E.
    apply Z.mul_le_mono_nonneg_r; [|exact Hgc].
    apply Z.pow_nonneg. lia.
Qed.

Lemma digits53_bounds (m : positive) :
  Z.pos (digits2_pos m) = 53 -> 2 ^ 52 <= Z.pos m < 2 ^ 53.
Proof. intros H. pose proof (digits2_bounds m) as Hb. now rewrite H in Hb. Qed.

Lemma SFdiv_core_normal (mx my : positive) (ex ey : Z) :
  Z.pos (digits2_pos mx) = 53 -> Z.pos (digits2_pos my) = 53 -> ey <= ex ->
  SFdiv_core_binary Number.prec Number.emax (Z.pos mx) ex (Z.pos my) ey
  = (Z.pos mx * 2 ^ 53 / Z.pos my, ex - ey - 53,
     new_location (Z.pos my) ((Z.pos mx * 2 ^ 53) mod Z.pos my)).
Proof.
  intros Hx Hy He. unfold SFdiv_core_binary. cbn [Zdigits2].
  rewrite Hx, Hy, fexp_eq.
  replace (Z.min (Z.max (53 + ex - (53 + ey) - 53) (-1074)) (ex - ey))
    with (ex - ey - 53) by lia.
  replace (ex - ey - (ex - ey - 53)) with 53 by lia.
  rewrite Z.shiftl_mul_pow2 by lia.
  unfold Z.div, Z.modulo.
  now destruct (Z.div_eucl (Z.pos mx * 2 ^ 53) (Z.pos my)).
Qed.

(** A quotient of two normal numbers, the first at least the second, is
    at least 1. *)
Lemma div_atLeast (x : spec_float) (my : positive) (ey : Z) :
  Z.pos (digits2_pos my) = 53 ->
  atLeast my ey x ->
  atLeast (2 ^ 52) (-52) (Number.div x (S754_finite false my ey)).
Proof.
  intros Hy [->|(mx & ex & -> & Hx & Hge)]; [now left|].
  unfold Number.div, SFdiv.
  rewrite (SFdiv_core_normal mx my ex ey Hx Hy) by lia.
  pose proof (digits53_bounds mx Hx) as Hbx.
  pose proof (digits53_bounds my Hy) as Hby.
  set (q := Z.pos mx * 2 ^ 53 / Z.pos my).
  assert (Hqlo : 2 ^ 52 <= q)
    by (apply Z.div_le_lower_bound; [lia | nia]).
  assert (Hqhi : q < 2 ^ 54)
    by (apply Z.div_lt_upper_bound; [lia | nia]).
  assert (Hq53 : ex = ey -> 2 ^ 53 <= q)
    by (intros ->; apply Z.div_le_lower_bound; [lia | nia]).
  destruct q as [|qp|qp] eqn:Eq; [lia | | lia].
  assert (HD : Z.pos (digits2_pos qp) = 53 \/ Z.pos (digits2_pos qp) = 54).
  { destruct (Z_lt_le_dec (Z.pos qp) (2 ^ 53)).
    - left. apply digits2_unique. lia.
    - right. apply digits2_unique. lia. }
  assert (HD54 : ex = ey -> Z.pos (digits2_pos qp) = 54)
    by (intros E; apply digits2_unique; specialize (Hq53 E); lia).
  destruct (bra_normal (xorb false false) qp (ex - ey - 53)
              (new_location (Z.pos my) ((Z.pos mx * 2 ^ 53) mod Z.pos my)))
    as (m & e & Hr & Hm & He); [lia | lia |].
  rewrite Hr. cbn [xorb]. apply atLeast_if; [exact Hm|].
  pose proof (digits53_bounds m Hm) as Hbm.
  assert (-52 <= e).
  { destruct (Z.eq_dec ex ey) as [E|E]; [specialize (HD54 E)|]; lia. }
  destruct (Z.eq_dec e (-52)); [right | left]; lia.
Qed.

Lemma ofZ_100 : Number.ofZ 100 = S754_finite false 7036874417766400 (-46).
Proof. reflexivity. Qed.

(** A number that is at least 1, times 100, is at least 100. *)
Lemma mul_atLeast (d : spec_float) :
  atLeast (2 ^ 52) (-52) d ->
  atLeast 7036874417766400 (-46) (Number.mul d (Number.ofZ 100)).
Proof.
  intros [->|(m & e & -> & Hm & Hge)]; [now left|].
  rewrite ofZ_100. unfold Number.mul, SFmul. cbn [xorb].
  pose proof (digits53_bounds m Hm) as Hbm.
  set (P := (m * 7036874417766400)%positive).
  assert (HP : Z.pos P = Z.pos m * 7036874417766400) by reflexivity.
  pose proof (digits2_bounds P) as HbP.
  assert (HDlo : 105 <= Z.pos (digits2_pos P)).
  { destruct (Z_lt_le_dec (Z.pos (digits2_pos P)) 105) as [H|]; [|assumption].
    exfalso.
    assert (2 ^ Z.pos (digits2_pos P) <= 2 ^ 104)
      by (apply Z.pow_le_mono_r; lia). lia. }
  assert (HDhi : Z.pos (digits2_pos P) <= 106).
  { destruct (Z_lt_le_dec 106 (Z.pos (digits2_pos P))) as [H|]; [|assumption].
    exfalso.
    assert (2 ^ 106 <= 2 ^ (Z.pos (digits2_pos P) - 1))
      by (apply Z.pow_le_mono_r; lia). lia. }
  destruct (bra_normal false P (e + -46) loc_Exact)
    as (m' & e' & Hr & Hm' & He'); [lia | lia |].
  rewrite Hr. apply atLeast_if; [exact Hm'|].
  destruct (Z.eq_dec e' (-46)) as [E|E]; [right | left; lia].
  split; [exact E|].
  destruct He' as [[He' Hlow]|[He' _]]; [|lia].
  assert (HD : Z.pos (digits2_pos P) = 105) by lia.
  rewrite HD in Hlow. change (105 - 53) with 52 in Hlow.
  apply Z.le_trans with (m := Z.pos P / 2 ^ 52); [|exact Hlow].
  apply Z.div_le_lower_bound; [lia | nia].
Qed.

(** [Math.round] of a number that is at least 100 is at least 100. *)
Lemma round_atLeast (p : spec_float) :
  atLeast 7036874417766400 (-46) p ->
  atLeast 7036874417766400 (-46) (Number.round p).
Proof.
  intros [->|(m & e & -> & Hm & Hge)]; [now left|].
  unfold Number.round. destruct (Z.leb_spec 0 e) as [He|He].
  - right. exists m, e. auto.
  - pose proof (digits53_bounds m Hm) as Hbm.
    rewrite Z.shiftr_div_pow2, Z.shiftl_mul_pow2 by lia.
    set (n := (2 * Z.pos m + 1 * 2 ^ (- e)) / 2 ^ (- e + 1)).
    assert (Hn : 100 <= n).
    { apply Z.div_le_lower_bound; [apply Z.pow_pos_nonneg; lia|].
      rewrite Z.pow_add_r, Z.pow_1_r by lia.
      assert (Hp : 0 < 2 ^ (- e)) by (apply Z.pow_pos_nonneg; lia).
      destruct Hge as [Hgt|[-> Hle]].
      - assert (2 ^ (- e) <= 2 ^ 45) by (apply Z.pow_le_mono_r; lia). lia.
      - change (2 ^ (- -46)) with (2 ^ 46) in *. lia. }
    destruct (ofZ_atLeast 100 n) as (mg & eg & Hg & _ & _ & _ & Hat);
      [lia | lia |].
    rewrite ofZ_100 in Hg. injection Hg as <- <-. exact Hat.
Qed.

Lemma min_atLeast (m0 : positive) (e0 : Z) (r : spec_float) :
  atLeast m0 e0 r ->
  Number.min r (S754_finite false m0 e0) = S754_finite false m0 e0.
Proof.
  intros [->|(m & e & -> & Hm & Hge)]; [reflexivity|].
  unfold Number.min, Number.ltb, SFltb, SFcompare.
  destruct Hge as [Hgt|[-> Hle]].
  - rewrite (proj2 (Z.compare_gt_iff e e0)) by lia. reflexivity.
  - rewrite Z.compare_refl. fold (Pos.compare m m0).
    destruct (Pos.compare_spec m m0); [reflexivity | lia | reflexivity].
Qed.

Lemma geb_atLeast (m0 : positive) (e0 : Z) (x : spec_float) :
  atLeast m0 e0 x -> Number.geb x (S754_finite false m0 e0) = true.
Proof.
  intros [->|(m & e & -> & Hm & Hge)]; [reflexivity|].
  unfold Number.geb, SFleb, SFcompare.
  destruct Hge as [Hgt|[-> Hle]].
  - rewrite (proj2 (Z.compare_lt_iff e0 e)) by lia. reflexivity.
  - rewrite Z.compare_refl. fold (Pos.compare m0 m).
    destruct (Pos.compare_spec m0 m); [reflexivity | reflexivity | lia].
Qed.

(** A count that has reached its goal shows 100 percent. *)
Lemma bar_full (current goal : Z) :
  1 <= goal < 2 ^ 53 -> goal <= current ->
  percentage (ProgressBar current goal) = Number.ofZ 100
  /\ isCompleted (ProgressBar current goal) = true.
Proof.
  intros Hg Hc. unfold ProgressBar. cbn [percentage isCompleted].
  destruct (ofZ_atLeast goal current) as (mg & eg & Hgoal & Hd & _ & _ & Hat);
    [lia | lia |].
  rewrite Hgoal. split; [|now apply geb_atLeast].
  rewrite ofZ_100 at 2. apply min_atLeast, round_atLeast, mul_atLeast.
  now apply div_atLeast.
Qed.

(** The number of a positive integer is positive, the number of a negative
    integer negative; neither is a zero. *)
Lemma binary_round_signed (s : bool) (p : positive) :
  binary_round Number.prec Number.emax s p 0 = S754_infinity s
  \/ exists (m : positive) (e : Z),
       binary_round Number.prec Number.emax s p 0 = S754_finite s m e.
Proof.
  destruct (Z_lt_le_dec 53 (Z.pos (digits2_pos p))) as [H|H].
  - destruct (binary_round_large s p H) as (m & e & -> & _).
    destruct (e <=? 971); [right; eauto | now left].
  - destruct (binary_round_small s p H) as (m & -> & _). right; eauto.
Qed.

Lemma SFdiv_core_nonneg (mx my : positive) (ex ey : Z) :
  0 <= fst (fst (SFdiv_core_binary Number.prec Number.emax
                   (Z.pos mx) ex (Z.pos my) ey)).
Proof.
  unfold SFdiv_core_binary.
  set (s := ex - ey - _).
  set (m' := match s with Z.pos _ => Z.shiftl (Z.pos mx) s | 0 => Z.pos mx
                        | Z.neg _ => 0 end).
  assert (Hm : 0 <= m').
  { unfold m'. destruct s; [lia | | lia]. apply Z.shiftl_nonneg. lia. }
  pose proof (Z.div_pos m' (Z.pos my) Hm ltac:(lia)) as Hq.
  unfold Z.div in Hq. now destruct (Z.div_eucl m' (Z.pos my)).
Qed.

Lemma bra_notAboveZero (m e : Z) (l : location) :
  0 <= m -> notAboveZero (binary_round_aux Number.prec Number.emax true m e l).
Proof.
  intros Hm. destruct (bra_sign true m e l Hm) as [->|[->|(m' & e' & ->)]];
    unfold notAboveZero; eauto.
Qed.

Lemma mul_notAboveZero (x : spec_float) :
  notAboveZero x -> notAboveZero (Number.mul x (Number.ofZ 100)).
Proof.
  rewrite ofZ_100.
  intros [->|[->|(m & e & ->)]]; unfold Number.mul, SFmul; cbn [xorb].
  - now left.
  - right; now left.
  - apply bra_notAboveZero. lia.
Qed.

Lemma round_notAboveZero (x : spec_float) :
  notAboveZero x -> notAboveZero (Number.round x).
Proof.
  intros [->|[->|(m & e & ->)]]; [now left | right; now left |].
  unfold Number.round. destruct (Z.leb_spec 0 e) as [He|He].
  - right; right; eauto.
  - rewrite Z.shiftr_div_pow2, Z.shiftl_mul_pow2 by lia.
    set (n := (2 * Z.neg m + 1 * 2 ^ (- e)) / 2 ^ (- e + 1)).
    assert (Hn : n < 1).
    { apply Z.div_lt_upper_bound; [apply Z.pow_pos_nonneg; lia|].
      rewrite Z.pow_add_r, Z.pow_1_r by lia.
      assert (Hp : 0 < 2 ^ (- e)) by (apply Z.pow_pos_nonneg; lia). lia. }
    destruct n as [|p|p]; [now left | lia |].
    cbn [binary_normalize].
    destruct (binary_round_signed true p) as [->|(m' & e' & ->)];
      unfold notAboveZero; eauto.
Qed.

Lemma min_notAboveZero (x : spec_float) :
  notAboveZero x -> Number.min x (Number.ofZ 100) = x.
Proof. intros [->|[->|(m & e & ->)]]; reflexivity. Qed.

Lemma notAboveZero_geb (x : spec_float) :
  notAboveZero x -> Number.geb (Number.ofZ 0) x = true.
Proof. intros [->|[->|(m & e & ->)]]; reflexivity. Qed.

Lemma notAboveZero_ltb (x : spec_float) :
  notAboveZero x -> Number.ltb (Number.ofZ 0) x = false.
Proof. intros [->|[->|(m & e & ->)]]; reflexivity. Qed.

(** A goal of 0: the quotient of a positive count is infinite. *)
Lemma bar_zero_goal (current : Z) :
  1 <= current ->
  percentage (ProgressBar current 0) = Number.ofZ 100
  /\ isCompleted (ProgressBar current 0) = true.
Proof.
  intros Hc. unfold ProgressBar. cbn [percentage isCompleted].
  assert (Hcur : Number.ofZ current = S754_infinity false
                 \/ exists m e, Number.ofZ current = S754_finite false m e).
  { destruct current as [|p|p]; [lia | | lia]. apply binary_round_signed. }
  destruct Hcur as [->|(m & e & ->)]; split; reflexivity.
Qed.

(** A negative goal: the percentage is a zero or negative, unless the
    count and the goal are both beyond the largest number. *)
Lemma bar_negative_goal (current goal : Z) :
  goal < 0 -> 0 <= current ->
  isCompleted (ProgressBar current goal) = true
  /\ (notAboveZero (percentage (ProgressBar current goal))
      \/ (percentage (ProgressBar current goal) = S754_nan
          /\ Number.ofZ current = S754_infinity false)).
Proof.
  intros Hg Hc. unfold ProgressBar. cbn [percentage isCompleted].
  assert (Hgoal : Number.ofZ goal = S754_infinity true
                  \/ exists m e, Number.ofZ goal = S754_finite true m e).
  { destruct goal as [|p|p]; [lia | lia |]. apply binary_round_signed. }
  assert (Hcur : Number.ofZ current = S754_zero false
                 \/ Number.ofZ current = S754_infinity false
                 \/ exists m e, Number.ofZ current = S754_finite false m e).
  { destruct current as [|p|p]; [now left | | lia].
    right. apply binary_round_signed. }
  assert (Hdiv :
            notAboveZero (Number.div (Number.ofZ current) (Number.ofZ goal))
            \/ (Number.div (Number.ofZ current) (Number.ofZ goal) = S754_nan
                /\ Number.ofZ current = S754_infinity false)).
  { destruct Hcur as [->|[->|(mc & ec & ->)]],
             Hgoal as [->|(mg & eg & ->)];
      try (left; unfold notAboveZero; cbn; eauto; fail).
    - right. split; reflexivity.
    - left. unfold Number.div, SFdiv.
      pose proof (SFdiv_core_nonneg mc mg ec eg) as Hq.
      destruct (SFdiv_core_binary Number.prec Number.emax
                  (Z.pos mc) ec (Z.pos mg) eg) as [[q e'] l].
      cbn [fst] in Hq. cbn [xorb]. now apply bra_notAboveZero. }
  split.
  - destruct Hcur as [->|[->|(mc & ec & ->)]],
             Hgoal as [->|(mg & eg & ->)]; reflexivity.
  - destruct Hdiv as [Hd|[Hd Hinf]].
    + left. rewrite min_notAboveZero;
        now apply round_notAboveZero, mul_notAboveZero.
    + right. rewrite Hd. split; [reflexivity | exact Hinf].
Qed.

Lemma ofZ_small_finite (c : Z) :
  0 <= c < 2 ^ 53 -> Number.ofZ c <> S754_infinity false.
Proof.
  intros Hc. destruct c as [|p|p]; [discriminate | | lia].
  unfold Number.ofZ. cbn [binary_normalize].
  assert (HD : Z.pos (digits2_pos p) <= 53).
  { pose proof (digits2_bounds p) as Hb.
    destruct (Z_lt_le_dec 53 (Z.pos (digits2_pos p))) as [H|]; [|assumption].
    exfalso.
    assert (2 ^ 53 <= 2 ^ (Z.pos (digits2_pos p) - 1))
      by (apply Z.pow_le_mono_r; lia). lia. }
  destruct (binary_round_small false p HD) as (m & -> & _). discriminate.
Qed.

Lemma shown_full (current goal : Z) :
  1 <= goal <= 50 -> goal <= current -> shown current goal = 100.
Proof.
  intros Hg Hc. unfold shown, expectedPercentage, roundHalfUp.
  destruct ((current =? 23) && (goal =? 40)) eqn:E.
  - apply andb_prop in E as [E1 E2]. apply Z.eqb_eq in E1, E2. lia.
  - apply Z.min_r. apply Z.div_le_lower_bound; lia.
Qed.

(** Claim C8 as the code has it.  For a goal from 1 to 50, the range of
    the goal sliders, and every count, the percentage is
    [min (round (100 * current / goal)) 100], a tie rounded up, except at
    23 of 40, where the binary64 product is 57.49999999999999 and the bar
    shows 57; the completed flag is [current >= goal].  With the goal 5
    the counts 3, 5 and 6 give 60, 100 with the flag, and 100.  A goal of 0
    or less is not shown as 100 percent: with the goal 0 the percentage is
    100 for every positive count (the quotient is infinite) and NaN for the
    count 0; with a negative goal it is never above 0, and it is 0 or less
    for every count below 2^53 (a count and a goal that are both beyond the
    largest number give NaN); the completed flag is set in these cases. *)
Theorem progress_percentage :
  (forall current goal : Z,
      1 <= goal <= 50 -> 0 <= current ->
      percentage (ProgressBar current goal) = Number.ofZ (shown current goal)
      /\ isCompleted (ProgressBar current goal) = (goal <=? current))
  /\ (ProgressBar 3 5 = {| percentage := Number.ofZ 60; isCompleted := false |}
      /\ ProgressBar 5 5 = {| percentage := Number.ofZ 100; isCompleted := true |}
      /\ ProgressBar 6 5 = {| percentage := Number.ofZ 100; isCompleted := true |})
  /\ (forall current : Z,
         1 <= current ->
         percentage (ProgressBar current 0) = Number.ofZ 100
         /\ isCompleted (ProgressBar current 0) = true)
  /\ ProgressBar 0 0 = {| percentage := S754_nan; isCompleted := true |}
  /\ (forall current goal : Z,
         goal < 0 -> 0 <= current ->
         Number.ltb (Number.ofZ 0) (percentage (ProgressBar current goal)) = false
         /\ (current < 2 ^ 53 ->
             Number.geb (Number.ofZ 0) (percentage (ProgressBar current goal))
             = true)
         /\ isCompleted (ProgressBar current goal) = true).
Proof.
  pose proof checked_on_ranges as H.
  apply andb_prop in H as [H _]. apply andb_prop in H as [Hpos _].
  split; [|split; [|split; [|split]]].
  - intros current goal Hg Hc.
    destruct (Z_lt_le_dec current goal) as [Hlt|Hge].
    + pose proof (forallb_range _ _ _ goal Hpos ltac:(simpl; lia)) as H1.
      pose proof (forallb_range _ _ _ current H1 ltac:(simpl; lia)) as H2.
      apply andb_prop in H2 as [Hp Hf].
      split; [now apply sf_eqb_eq | now apply eqb_prop].
    + rewrite (shown_full current goal Hg Hge).
      rewrite (proj2 (Z.leb_le goal current) Hge).
      apply bar_full; [|exact Hge].
      split; [lia|]. apply Z.le_lt_trans with (m := 50); [lia | reflexivity].
  - repeat split; vm_compute; reflexivity.
  - intros current Hc. now apply bar_zero_goal.
  - vm_compute. reflexivity.
  - intros current goal Hg Hc.
    destruct (bar_negative_goal current goal Hg Hc) as [Hf [Hn|[Hnan Hinf]]].
    + split; [now apply notAboveZero_ltb|].
      split; [intros _; now apply notAboveZero_geb | exact Hf].
    + split; [now rewrite Hnan|]. split; [|exact Hf].
      intros Hlt. destruct (ofZ_small_finite current ltac:(lia) Hinf).
Qed.

Lemma progress_percentage_witness :
  (1 <= 5 <= 50 /\ 0 <= 3)
  /\ percentage (ProgressBar 3 5) = Number.ofZ 60
  /\ isCompleted (ProgressBar 3 5) = false
  /\ percentage (ProgressBar 23 40) = Number.ofZ 57
  /\ percentage (ProgressBar 5000 50) = Number.ofZ 100
  /\ percentage (ProgressBar 7 0) = Number.ofZ 100
  /\ Number.geb (Number.ofZ 0) (percentage (ProgressBar 3 (-5))) = true.
Proof.
  destruct progress_percentage as (Hpos & _ & Hzero & _ & Hneg).
  split; [lia|].
  destruct (Hpos 3 5 ltac:(lia) ltac:(lia)) as [Hp Hc].
  split; [exact Hp|]. split; [exact Hc|].
  split; [exact (proj1 (Hpos 23 40 ltac:(lia) ltac:(lia)))|].
  split; [exact (proj1 (Hpos 5000 50 ltac:(lia) ltac:(lia)))|].
  split; [exact (proj1 (Hzero 7 ltac:(lia)))|].
  apply (proj1 (proj2 (Hneg 3 (-5) ltac:(lia) ltac:(lia)))). reflexivity.
Defined.

(** The claim as it is worded fails on the code at these inputs: a
    negative goal shows -60, the goal 0 with the count 0 shows NaN, and 23
    of 40 shows 57 where [min (round 57.5) 100] is 58. *)
Lemma progress_percentage_counterexample :
  percentage (ProgressBar 3 (-5)) = Number.ofZ (-60)
  /\ percentage (ProgressBar 3 (-5)) <> Number.ofZ 100
  /\ percentage (ProgressBar 0 0) = S754_nan
  /\ percentage (ProgressBar 0 0) <> Number.ofZ 100
  /\ expectedPercentage 23 40 = 58
  /\ percentage (ProgressBar 23 40) = Number.ofZ 57
  /\ percentage (ProgressBar 23 40) <> Number.ofZ (expectedPercentage 23 40).
Proof.
  repeat split; try (vm_compute; reflexivity); vm_compute; discriminate.
Qed.

(* ================================================================== *)
(** * The schedule listing sorts the store *)
(* ================================================================== *)

Lemma insertSorted_sorted (x : LearningSession) (l : list LearningSession) :
  StronglySorted earlier l ->
  StronglySorted earlier (insertSorted byNextReviewAt x l).
Proof.
  induction 1 as [|y l Hl IH Hy]; simpl.
  - repeat constructor.
  - unfold byNextReviewAt at 1.
    destruct (Z.leb_spec (nextReviewAt x - nextReviewAt y) 0) as [Hle|Hgt].
    + constructor; [now constructor|].
      constructor; [unfold earlier; lia|].
      eapply Forall_impl; [|exact Hy]. unfold earlier. intros a Ha. lia.
    + constructor; [exact IH|].
      eapply Permutation_Forall; [apply insertSorted_perm|].
      constructor; [unfold earlier; lia | exact Hy].
Qed.

Lemma Array_sort_sorted (l : list LearningSession) :
  StronglySorted earlier (Array_sort byNextReviewAt l).
Proof.
  induction l as [|x l IH]; simpl; [constructor | now apply insertSorted_sorted].
Qed.

(** The sort is stable: records with the same due date keep their order. *)
Lemma insertSorted_stable (k : Z) (x : LearningSession) (l : list LearningSession) :
  filter (fun s => nextReviewAt s =? k) (insertSorted byNextReviewAt x l)
  = filter (fun s => nextReviewAt s =? k) (x :: l).
Proof.
  induction l as [|y l IH]; [reflexivity|].
  cbn [insertSorted]. unfold byNextReviewAt at 1.
  destruct (Z.leb_spec (nextReviewAt x - nextReviewAt y) 0) as [Hle|Hgt];
    [reflexivity|].
  cbn [filter] in *.
  destruct (Z.eqb_spec (nextReviewAt y) k) as [Hy|Hy];
    destruct (Z.eqb_spec (nextReviewAt x) k) as [Hx|Hx];
    try lia; rewrite IH; reflexivity.
Qed.

Lemma Array_sort_stable (k : Z) (l : list LearningSession) :
  filter (fun s => nextReviewAt s =? k) (Array_sort byNextReviewAt l)
  = filter (fun s => nextReviewAt s =? k) l.
Proof.
  induction l as [|x l IH]; [reflexivity|].
  cbn [Array_sort]. rewrite insertSorted_stable. cbn [filter]. now rewrite IH.
Qed.

(** Two sorted lists of the same records, with distinct due dates, are
    the same list. *)
Lemma sorted_unique (l1 l2 : list LearningSession) :
  StronglySorted earlier l1 -> StronglySorted earlier l2 ->
  Permutation l1 l2 -> NoDup (map nextReviewAt l1) -> l1 = l2.
Proof.
  revert l2. induction l1 as [|x l1 IH]; intros l2 H1 H2 Hp Hnd.
  - now apply Permutation_nil in Hp.
  - destruct l2 as [|y l2];
      [apply Permutation_sym, Permutation_nil in Hp; discriminate|].
    apply StronglySorted_inv in H1 as [H1 Hx].
    apply StronglySorted_inv in H2 as [H2 Hy].
    assert (x = y) as <-.
    { assert (Hxin : In x (y :: l2))
        by (eapply Permutation_in; [exact Hp | now left]).
      assert (Hyin : In y (x :: l1))
        by (eapply Permutation_in; [exact (Permutation_sym Hp) | now left]).
      destruct Hxin as [->|Hxin]; [reflexivity|].
      destruct Hyin as [->|Hyin]; [reflexivity|].
      apply (NoDup_map_inj nextReviewAt (x :: l1)); auto;
        [now left | now right|].
      pose proof (proj1 (Forall_forall _ _) Hx y Hyin).
      pose proof (proj1 (Forall_forall _ _) Hy x Hxin).
      unfold earlier in *. lia. }
    f_equal. apply IH; auto.
    + now apply Permutation_cons_inv in Hp.
    + now inversion Hnd.
Qed.

Lemma run_reachable (es : list Event) (st : AppState) :
  reachable st -> reachable (run es st).
Proof.
  revert st. induction es as [|e es IH]; intros st Hr; [exact Hr|].
  simpl. apply IH. destruct (enabled e st) eqn:E; [|exact Hr].
  now apply reachable_step.
Qed.

(** Claim C10.  Rendering the schedule listing sorts the array of the
    state itself: after the render the store is the stable ascending sort
    by [nextReviewAt] of the store before (a permutation of it, in
    ascending order, records with equal due dates in their former order);
    the cards show that order, and the render writes nothing else.  The
    order of insertion is lost: two stores that hold the same records, with
    distinct due dates, in any two orders are the same store after the
    render; and on a reachable state that holds the newer session first,
    the store differs after the render, and the record that the next tick
    names first, the one the notification opens, is another one. *)
Theorem render_sorts_store :
  (forall st : AppState,
      isOpen st = true -> stage st = REVIEW_CENTER ->
      Permutation (sessions st) (sessions (snd (renderReviewCenter st)))
      /\ StronglySorted earlier (sessions (snd (renderReviewCenter st)))
      /\ (forall k : Z,
             filter (fun s => nextReviewAt s =? k)
               (sessions (snd (renderReviewCenter st)))
             = filter (fun s => nextReviewAt s =? k) (sessions st))
      /\ map card (fst (renderReviewCenter st))
         = (if (List.length (sessions st) =? 0)%nat then []
            else sessions (snd (renderReviewCenter st)))
      /\ setSessions (sessions st) (snd (renderReviewCenter st)) = st)
  /\ (forall st st' : AppState,
         isOpen st = true -> stage st = REVIEW_CENTER ->
         isOpen st' = true -> stage st' = REVIEW_CENTER ->
         Permutation (sessions st) (sessions st') ->
         NoDup (map nextReviewAt (sessions st)) ->
         sessions (snd (renderReviewCenter st))
         = sessions (snd (renderReviewCenter st')))
  /\ (exists (st : AppState) (t : Z) (n n' : ReviewNotification),
         reachable st /\ isOpen st = true /\ stage st = REVIEW_CENTER
         /\ sessions (snd (renderReviewCenter st)) <> sessions st
         /\ fst (tick granted t st) = Some n
         /\ fst (tick granted t (snd (renderReviewCenter st))) = Some n'
         /\ id (firstSession n) <> id (firstSession n')
         /\ hd_error (dueNow t (sessions st))
            <> hd_error (dueNow t (sessions (snd (renderReviewCenter st))))).
Proof.
  assert (Hrender : forall st : AppState,
             isOpen st = true -> stage st = REVIEW_CENTER ->
             sessions (snd (renderReviewCenter st))
             = Array_sort byNextReviewAt (sessions st)).
  { intros st Ho Hs. unfold renderReviewCenter. rewrite Ho, Hs.
    cbn [andb AppStage_eqb].
    destruct (List.length (sessions st) =? 0)%nat eqn:E; [|reflexivity].
    apply Nat.eqb_eq in E. apply length_zero_iff_nil in E.
    cbn [snd]. now rewrite E. }
  split; [|split].
  - intros st Ho Hs. unfold renderReviewCenter. rewrite Ho, Hs. cbn [andb AppStage_eqb].
    destruct (List.length (sessions st) =? 0)%nat eqn:E.
    + apply Nat.eqb_eq in E. apply length_zero_iff_nil in E.
      cbn [fst snd]. rewrite E. repeat split; try constructor.
      destruct st; simpl in *; subst; reflexivity.
    + cbn [fst snd setSessions sessions]. split; [apply Array_sort_perm|].
      split; [apply Array_sort_sorted|]. split; [intros k; apply Array_sort_stable|].
      split; [|destruct st; reflexivity].
      rewrite map_map. cbn [card]. apply map_id.
  - intros st st' Ho Hs Ho' Hs' Hp Hnd.
    rewrite (Hrender st Ho Hs), (Hrender st' Ho' Hs').
    apply sorted_unique; try apply Array_sort_sorted.
    + rewrite <- (Array_sort_perm byNextReviewAt (sessions st)).
      rewrite <- (Array_sort_perm byNextReviewAt (sessions st')). exact Hp.
    + eapply Permutation_NoDup; [|exact Hnd].
      apply Permutation_map, Array_sort_perm.
  - exists twoSessions, 200000000. do 2 eexists.
    split; [apply run_reachable, reachable_init; lia|].
    split; [reflexivity|]. split; [reflexivity|].
    split; [vm_compute; discriminate|].
    split; [vm_compute; reflexivity|]. split; [vm_compute; reflexivity|].
    split; vm_compute; discriminate.
Qed.

Lemma render_sorts_store_witness :
  isOpen twoSessions = true /\ stage twoSessions = REVIEW_CENTER
  /\ map id (sessions twoSessions) = ["4000"; "1000"]%string
  /\ map id (sessions (snd (renderReviewCenter twoSessions)))
     = ["1000"; "4000"]%string
  /\ StronglySorted earlier (sessions (snd (renderReviewCenter twoSessions))).
Proof.
  destruct (proj1 render_sorts_store twoSessions eq_refl eq_refl)
    as (_ & Hsorted & _).
  split; [reflexivity|]. split; [reflexivity|].
  split; [reflexivity|]. split; [reflexivity | exact Hsorted].
Defined.

(* ================================================================== *)
(** * More on the store: what every reachable state keeps *)
(* ================================================================== *)

(** In every reachable state the stored sessions have pairwise distinct
    ids: a completion adds a record only when no stored record has the id
    of the current session, and nothing else adds one. *)
Theorem store_ids_distinct (st : AppState) :
  reachable st ->
  NoDup (map id (sessions st))
  /\ (forall a b, In a (sessions st) -> In b (sessions st) ->
                  id a = id b -> a = b).
Proof.
  intros Hr. pose proof (inv_ids _ (reachable_inv _ Hr)) as Hnd.
  split; [exact Hnd|]. intros a b Ha Hb Hab.
  exact (NoDup_map_inj id (sessions st) a b Hnd Ha Hb Hab).
Qed.

Lemma store_ids_distinct_witness :
  NoDup (map id (sessions twoSessions))
  /\ (forall a b, In a (sessions twoSessions) -> In b (sessions twoSessions) ->
                  id a = id b -> a = b).
Proof.
  apply (store_ids_distinct twoSessions).
  apply run_reachable, reachable_init. lia.
Defined.

Lemma scheduledDays_values (rc : nat) :
  (1 <= rc)%nat ->
  scheduledDays rc = nth (stageIndex rc) EBBINGHAUS_INTERVALS 0
  /\ In (scheduledDays rc) [1; 4; 7; 15; 30].
Proof.
  intros H. unfold scheduledDays, stageIndex, IntervalTable.
  destruct rc as [|[|[|[|[|[|rc]]]]]]; [lia| | | | | | ]; simpl;
    (split; [reflexivity|]); repeat (first [left; reflexivity | right]).
Qed.

(** In every reachable state a stored session has been reviewed at least
    once, at a positive instant [last], and is due [d] days after it, where
    [d] is 1 after the first review and the table entry at the clamped
    review count afterwards: one of 1, 4, 7, 15 and 30 days, never 2.  So
    its due date lies after its last review and at most 30 days after. *)
Theorem stored_schedule (st : AppState) (s : LearningSession) :
  reachable st -> In s (sessions st) ->
  (1 <= reviewCount s)%nat
  /\ exists last,
       lastReviewedAt s = Some last /\ 0 < last
       /\ nextReviewAt s = last + scheduledDays (reviewCount s) * msPerDay
       /\ In (scheduledDays (reviewCount s)) [1; 4; 7; 15; 30]
       /\ last < nextReviewAt s <= last + 30 * msPerDay.
Proof.
  intros Hr Hin. apply reachable_inv in Hr as [Hs _ _].
  destruct (proj1 (Forall_forall _ _) Hs s Hin) as (Hrc & last & Hpos & Hl & Hn).
  destruct (scheduledDays_values _ Hrc) as [Hd Hval].
  split; [exact Hrc|]. exists last.
  split; [exact Hl|]. split; [exact Hpos|]. split; [now rewrite Hd|].
  split; [exact Hval|]. rewrite Hn, <- Hd. simpl in Hval.
  unfold msPerDay. lia.
Qed.

Lemma stored_schedule_witness :
  exists s,
    In s (sessions twoSessions)
    /\ (1 <= reviewCount s)%nat
    /\ exists last,
         lastReviewedAt s = Some last /\ 0 < last
         /\ nextReviewAt s = last + scheduledDays (reviewCount s) * msPerDay
         /\ In (scheduledDays (reviewCount s)) [1; 4; 7; 15; 30]
         /\ last < nextReviewAt s <= last + 30 * msPerDay.
Proof.
  assert (Hin : exists s, In s (sessions twoSessions))
    by (eexists; vm_compute; left; reflexivity).
  destruct Hin as [s Hin]. exists s. split; [exact Hin|].
  apply (stored_schedule twoSessions s); [|exact Hin].
  apply run_reachable, reachable_init. lia.
Defined.

Lemma finishUpdate_grows (t : Z) (cur : PartialSession)
    (prev : list LearningSession) :
  (forall i, In i (map id prev) -> In i (map id (finishUpdate t cur prev)))
  /\ (List.length prev <= List.length (finishUpdate t cur prev))%nat.
Proof.
  destruct (find (fun s => sameId s cur) prev) as [existing|] eqn:Hf.
  - rewrite (finishUpdate_existing_ids _ _ _ _ Hf). split; [auto|].
    rewrite <- (length_map id (finishUpdate t cur prev)).
    rewrite (finishUpdate_existing_ids _ _ _ _ Hf). now rewrite length_map.
  - unfold finishUpdate. rewrite Hf.
    destruct (asLearningSession cur); simpl; split; auto.
Qed.

(** No event removes a session: whatever the event, every id of the store
    is still in the store afterwards, and the store is not shorter. *)
Theorem sessions_never_removed (e : Event) (st : AppState) :
  (forall i, In i (map id (sessions st)) ->
             In i (map id (sessions (handle e st))))
  /\ (List.length (sessions st) <= List.length (sessions (handle e st)))%nat.
Proof.
  destruct e; cbn [handle]; try (split; [auto | reflexivity]).
  - unfold handleManualSubmit.
    destruct (isBlank (manualEnglishInput st)); split; auto.
  - unfold handleFinishLearning.
    destruct (negb (truthy_str (p_id (currentSession st))));
      [split; auto|].
    cbn [sessions setUserInput setSelectedWord setCurrentSession setStage
         setIsOpen setSessions].
    apply finishUpdate_grows.
  - destruct (tick_sessions perm t st) as [-> | ->]; [split; auto|].
    rewrite notifiedUpdate_ids. split; [auto|].
    unfold notifiedUpdate. now rewrite length_map.
  - pose proof (render_sessions st) as Hp. split.
    + intros i. apply Permutation_in. now apply Permutation_map.
    + now rewrite (Permutation_length Hp).
Qed.

(** A second click on the finish button changes nothing: the first one
    empties the current session, and the handler returns at once on a
    session without id.  One review is recorded once. *)
Theorem finish_twice (t t' : Z) (st : AppState) :
  handleFinishLearning t' (handleFinishLearning t st)
  = handleFinishLearning t st.
Proof.
  destruct (truthy_str (p_id (currentSession st))) eqn:E.
  - apply handleFinishLearning_no_id.
    unfold handleFinishLearning. rewrite E. reflexivity.
  - rewrite (handleFinishLearning_no_id t st E).
    now apply handleFinishLearning_no_id.
Qed.

(** A second click on the submit button of the manual input changes
    nothing either, the first one having cleared the input; an input that
    [trim] empties, made of white space only, is not captured at all; and a
    capture never writes the store. *)
Theorem manual_submit_twice (t t' : Z) (st : AppState) :
  handleManualSubmit t' (handleManualSubmit t st) = handleManualSubmit t st
  /\ (isBlank (manualEnglishInput st) = true -> handleManualSubmit t st = st)
  /\ (isBlank (manualEnglishInput st) = false ->
      currentSession (handleManualSubmit t st)
      = capturedSession t (manualEnglishInput st)
      /\ stage (handleManualSubmit t st) = OCR_RESULT)
  /\ sessions (handleManualSubmit t st) = sessions st.
Proof.
  unfold handleManualSubmit.
  destruct (isBlank (manualEnglishInput st)) eqn:E.
  - rewrite E. repeat split; auto; discriminate.
  - repeat split; auto; discriminate.
Qed.

Lemma manual_submit_twice_witness :
  isBlank (manualEnglishInput
             (setManualEnglishInput "per aspera" (initialState 1700000000000)))
  = false
  /\ currentSession
       (handleManualSubmit 1700000000000
          (setManualEnglishInput "per aspera" (initialState 1700000000000)))
     = capturedSession 1700000000000 "per aspera"
  /\ isBlank (manualEnglishInput
                (setManualEnglishInput wideBlank (initialState 1700000000000)))
     = true
  /\ handleManualSubmit 1700000000000
       (setManualEnglishInput wideBlank (initialState 1700000000000))
     = setManualEnglishInput wideBlank (initialState 1700000000000).
Proof.
  split; [reflexivity|]. split; [|split; [reflexivity|]].
  - apply (proj1 (proj2 (proj2 (manual_submit_twice 1700000000000 1700000000001
                           (setManualEnglishInput "per aspera"
                              (initialState 1700000000000)))))
             eq_refl).
  - apply (proj1 (proj2 (manual_submit_twice 1700000000000 1700000000001
                           (setManualEnglishInput wideBlank
                              (initialState 1700000000000))))
             eq_refl).
Defined.

(** A completion of a stored session re-arms its notification: the
    rewritten record is due at least a day after the completion, so it is
    not due right after it, and from its due date on it is newly due
    whatever notification it had before. *)
Theorem completion_rearms (t : Z) (cur : PartialSession)
    (prev : list LearningSession) (existing s' : LearningSession) :
  find (fun s => sameId s cur) prev = Some existing ->
  In s' (finishUpdate t cur prev) -> sameId s' cur = true ->
  t + msPerDay <= nextReviewAt s'
  /\ newlyDue t s' = false
  /\ (forall t', newlyDue t' s' = (nextReviewAt s' <=? t')).
Proof.
  intros Hf Hin Hs.
  rewrite (finishUpdate_existing _ _ _ _ Hf) in Hin.
  apply in_map_iff in Hin as (s & <- & Hin).
  destruct (sameId s cur) eqn:E; [|congruence].
  assert (Hd : 1 <= IntervalTable (reviewCount existing + 1)).
  { pose proof (EBBINGHAUS_INTERVALS_sorted 0
                  (Nat.min (reviewCount existing + 1)
                     (List.length EBBINGHAUS_INTERVALS - 1))
                  ltac:(simpl; lia)) as H.
    unfold IntervalTable. simpl in H |- *. lia. }
  assert (Hall : forall t', newlyDue t'
                   (withSchedule s (reviewCount s + 1)
                      (t + IntervalTable (reviewCount existing + 1) * msPerDay)
                      (Some 0) (Some t))
                 = (t + IntervalTable (reviewCount existing + 1) * msPerDay <=? t')).
  { intros t'. unfold newlyDue. fields. simpl. now rewrite andb_true_r. }
  fields. split; [unfold msPerDay in *; nia|]. split; [|exact Hall].
  rewrite Hall. apply Z.leb_gt. unfold msPerDay. nia.
Qed.

Lemma completion_rearms_witness :
  1702592000000 + msPerDay
  <= nextReviewAt
       (withSchedule reviewedFiveTimes 6 (1702592000000 + 30 * msPerDay)
          (Some 0) (Some 1702592000000))
  /\ newlyDue 1702592000000
       (withSchedule reviewedFiveTimes 6 (1702592000000 + 30 * msPerDay)
          (Some 0) (Some 1702592000000)) = false
  /\ (forall t',
         newlyDue t'
           (withSchedule reviewedFiveTimes 6 (1702592000000 + 30 * msPerDay)
              (Some 0) (Some 1702592000000))
         = (nextReviewAt
              (withSchedule reviewedFiveTimes 6 (1702592000000 + 30 * msPerDay)
                 (Some 0) (Some 1702592000000)) <=? t')).
Proof.
  apply (completion_rearms 1702592000000 (toPartial reviewedFiveTimes)
           [newcomer; reviewedFiveTimes] reviewedFiveTimes).
  - reflexivity.
  - right; left. reflexivity.
  - reflexivity.
Defined.





(* ================================================================== *)
(** * More on due detection, the tick and the listing *)
(* ================================================================== *)

Lemma filter_length_mono {A : Type} (f g : A -> bool) (l : list A) :
  (forall a, In a l -> f a = true -> g a = true) ->
  (List.length (filter f l) <= List.length (filter g l))%nat.
Proof.
  induction l as [|x l IH]; intros H; simpl; [lia|].
  assert (Hl : (List.length (filter f l) <= List.length (filter g l))%nat)
    by (apply IH; intros a Ha; apply H; now right).
  pose proof (H x (or_introl eq_refl)) as Hx.
  destruct (f x) eqn:Ef.
  - rewrite (Hx eq_refl). simpl. lia.
  - destruct (g x); simpl; lia.
Qed.

Lemma filter_length_Forall2 {A : Type} (R : A -> A -> Prop) (f : A -> bool)
    (l l' : list A) :
  Forall2 R l l' -> (forall a b, R a b -> f a = f b) ->
  List.length (filter f l) = List.length (filter f l').
Proof.
  intros H Hf. induction H as [|a b l l' Hab _ IH]; simpl; [reflexivity|].
  rewrite (Hf a b Hab). destruct (f b); simpl; now rewrite IH.
Qed.

Lemma filter_length_perm {A : Type} (f : A -> bool) (l l' : list A) :
  Permutation l l' -> List.length (filter f l) = List.length (filter f l').
Proof.
  induction 1 as [|x l l' _ IH|x y l|l l' l'' _ IH1 _ IH2]; simpl.
  - reflexivity.
  - destruct (f x); simpl; now rewrite IH.
  - destruct (f x), (f y); reflexivity.
  - now rewrite IH1.
Qed.

(** Newly due records are due records, and what is due stays due: the
    records [checkReviews] detects at [t] are among those the due list
    shows at [t], which are among those it shows at any later [t'].  So a
    notification counts at least one record and never more than are due at
    its instant. *)
Theorem due_sets (t t' : Z) (l : list LearningSession) :
  t <= t' ->
  (forall s, In s (dueSessions t l) -> In s (dueNow t l))
  /\ (forall s, In s (dueNow t l) -> In s (dueNow t' l))
  /\ (List.length (dueSessions t l) <= List.length (dueNow t l)
      <= List.length (dueNow t' l))%nat
  /\ (forall n u, checkReviews granted t l = Some (n, u) ->
                  (1 <= dueNumber n <= List.length (dueNow t l))%nat).
Proof.
  intros Hle.
  assert (H1 : forall s, newlyDue t s = true -> (nextReviewAt s <=? t) = true).
  { intros s H. unfold newlyDue in H. now apply andb_prop in H. }
  assert (H2 : forall s, (nextReviewAt s <=? t) = true ->
                         (nextReviewAt s <=? t') = true).
  { intros s H. apply Z.leb_le in H. apply Z.leb_le. lia. }
  assert (Hlen : (List.length (dueSessions t l) <= List.length (dueNow t l))%nat)
    by (apply filter_length_mono; auto).
  split; [|split; [|split; [split|]]].
  - intros s Hs. apply filter_In in Hs as [Hin Hs]. apply filter_In. auto.
  - intros s Hs. apply filter_In in Hs as [Hin Hs]. apply filter_In. auto.
  - exact Hlen.
  - apply filter_length_mono; auto.
  - intros n u. unfold checkReviews.
    destruct (dueSessions t l) as [|first rest] eqn:E; [discriminate|].
    intros [= <- _]. cbn [dueNumber]. simpl in Hlen |- *. lia.
Qed.

Lemma due_sets_witness :
  1700000000000 <= 1700086400000
  /\ (List.length (dueSessions 1700000000000 [dueFresh; dueNotified; notDue])
      <= List.length (dueNow 1700000000000 [dueFresh; dueNotified; notDue])
      <= List.length (dueNow 1700086400000 [dueFresh; dueNotified; notDue]))%nat.
Proof.
  assert (H : 1700000000000 <= 1700086400000) by lia.
  split; [exact H|].
  exact (proj1 (proj2 (proj2
           (due_sets 1700000000000 1700086400000
              [dueFresh; dueNotified; notDue] H)))).
Defined.

Lemma setSessions_same (st : AppState) : setSessions (sessions st) st = st.
Proof. destruct st; reflexivity. Qed.

(** A tick writes notification stamps and nothing else: whatever the
    permission, every record keeps its place, its id, content, due date,
    review count and last review; the number of due records and the daily
    progress are the same afterwards, at any instant; and no other cell of
    the state changes. *)
Theorem tick_writes_stamps_only (perm : NotificationPermission) (t : Z)
    (st : AppState) :
  Forall2
    (fun s s' =>
       sameContent s s' /\ nextReviewAt s' = nextReviewAt s
       /\ reviewCount s' = reviewCount s
       /\ lastReviewedAt s' = lastReviewedAt s)
    (sessions st) (sessions (snd (tick perm t st)))
  /\ (forall t', List.length (dueNow t' (sessions (snd (tick perm t st))))
                 = List.length (dueNow t' (sessions st)))
  /\ (forall tz t' voc,
         dailyProgress tz t' voc (sessions (snd (tick perm t st)))
         = dailyProgress tz t' voc (sessions st))
  /\ setSessions (sessions st) (snd (tick perm t st)) = st.
Proof.
  assert (Hf : Forall2
                 (fun s s' =>
                    sameContent s s' /\ nextReviewAt s' = nextReviewAt s
                    /\ reviewCount s' = reviewCount s
                    /\ lastReviewedAt s' = lastReviewedAt s)
                 (sessions st) (sessions (snd (tick perm t st)))).
  { destruct (tick_sessions perm t st) as [-> | ->].
    - apply Forall2_same. intros a _. repeat split.
    - apply Forall2_map_self. intros a _.
      destruct (existsb _ (dueSessions t (sessions st))); repeat split. }
  split; [exact Hf|]. split; [|split].
  - intros t'. symmetry.
    apply (filter_length_Forall2 _ _ _ _ Hf).
    intros a b (_ & -> & _). reflexivity.
  - intros tz t' voc. unfold dailyProgress. f_equal. symmetry.
    apply (filter_length_Forall2 _ _ _ _ Hf).
    intros a b (_ & _ & _ & ->). reflexivity.
  - unfold tick. destruct (checkReviews perm t (sessions st)) as [[n u]|];
      cbn [snd]; [|apply setSessions_same].
    destruct st; reflexivity.
Qed.

Lemma Array_sort_sorted_id (l : list LearningSession) :
  StronglySorted earlier l -> Array_sort byNextReviewAt l = l.
Proof.
  induction 1 as [|x l Hl IH Hx]; [reflexivity|].
  cbn [Array_sort]. rewrite IH. destruct l as [|y l]; [reflexivity|].
  cbn [insertSorted]. unfold byNextReviewAt.
  apply Forall_inv in Hx. unfold earlier in Hx.
  destruct (Z.leb_spec (nextReviewAt x - nextReviewAt y) 0); [reflexivity | lia].
Qed.

(** Rendering the schedule listing a second time changes nothing more and
    shows the same cards; and the render, which reorders the store, keeps
    what is counted over it: the number of sessions, of due and of newly
    due records at any instant, and the daily progress. *)
Theorem render_twice (st : AppState) :
  snd (renderReviewCenter (snd (renderReviewCenter st)))
  = snd (renderReviewCenter st)
  /\ fst (renderReviewCenter (snd (renderReviewCenter st)))
     = fst (renderReviewCenter st)
  /\ List.length (sessions (snd (renderReviewCenter st)))
     = List.length (sessions st)
  /\ (forall t,
         List.length (dueNow t (sessions (snd (renderReviewCenter st))))
         = List.length (dueNow t (sessions st))
         /\ List.length (dueSessions t (sessions (snd (renderReviewCenter st))))
            = List.length (dueSessions t (sessions st)))
  /\ (forall tz t voc,
         dailyProgress tz t voc (sessions (snd (renderReviewCenter st)))
         = dailyProgress tz t voc (sessions st)).
Proof.
  pose proof (render_sessions st) as Hp.
  assert (Hagain : renderReviewCenter (snd (renderReviewCenter st))
                   = renderReviewCenter st).
  { unfold renderReviewCenter.
    destruct (isOpen st && AppStage_eqb (stage st) REVIEW_CENTER) eqn:E;
      [|cbn [snd]; now rewrite E].
    destruct (List.length (sessions st) =? 0)%nat eqn:E0;
      [cbn [snd]; now rewrite E, E0|].
    cbn [snd isOpen stage sessions setSessions now]. rewrite E.
    rewrite <- (Permutation_length (Array_sort_perm byNextReviewAt (sessions st))).
    rewrite E0.
    now rewrite (Array_sort_sorted_id _ (Array_sort_sorted (sessions st))). }
  split; [|split; [|split; [|split]]].
  - now rewrite Hagain.
  - now rewrite Hagain.
  - symmetry. now apply Permutation_length.
  - intros t. split; symmetry; now apply filter_length_perm.
  - intros tz t voc. unfold dailyProgress. f_equal. symmetry.
    now apply filter_length_perm.
Qed.

(* ================================================================== *)
(** * More on the daily progress and the progress bar *)
(* ================================================================== *)

Lemma reviewedSince_spec (m : Z) (s : LearningSession) :
  truthy (lastReviewedAt s) && geOpt (lastReviewedAt s) m = true
  <-> reviewedSince m s.
Proof.
  unfold truthy, geOpt, reviewedSince. destruct (lastReviewedAt s) as [r|].
  - rewrite andb_true_iff, negb_true_iff, Z.eqb_neq, Z.geb_le. split.
    + intros [H0 H]. now exists r.
    + intros (r' & [= <-] & H0 & H). now split.
  - split; [discriminate | intros (r & H & _); discriminate].
Qed.

(** The store around the one record that has the id of the current
    session. *)
Lemma store_split (cur : PartialSession) (prev : list LearningSession)
    (existing : LearningSession) :
  NoDup (map id prev) ->
  find (fun s => sameId s cur) prev = Some existing ->
  exists a b,
    prev = a ++ existing :: b
    /\ (forall s, In s (a ++ b) -> sameId s cur = false).
Proof.
  intros Hnd Hf. pose proof Hf as Hf'. apply find_some in Hf' as [Hin He].
  destruct (in_split _ _ Hin) as (a & b & ->). exists a, b.
  split; [reflexivity|]. intros s Hs.
  destruct (sameId s cur) eqn:E; [|reflexivity]. exfalso.
  assert (s = existing) as ->.
  { eapply find_some_unique; eauto.
    apply in_app_or in Hs. apply in_or_app. simpl. tauto. }
  apply NoDup_map_inv in Hnd. now apply NoDup_remove_2 in Hnd.
Qed.

Lemma map_unchanged {A : Type} (f : A -> A) (l : list A) :
  (forall a, In a l -> f a = a) -> map f l = l.
Proof.
  intros H. rewrite <- (map_id l) at 2. now apply map_ext_in.
Qed.

(** The daily review count counts sessions, not reviews.  It is at most
    the number of stored sessions.  Seen at an instant [t'] of the day of a
    completion at [t], the completion of a stored session adds one to it
    when that session had not been reviewed since the midnight before, and
    nothing when it had: a second review of a session on one day does not
    count.  The first completion of a new session adds one. *)
Theorem reviews_count_sessions (tz : TimeZone) (t t' : Z)
    (voc : list VocabularyWord)
    (cur : PartialSession) (prev : list LearningSession) :
  t <> 0 -> setHours0 tz t' <= t ->
  (reviews (dailyProgress tz t' voc prev) <= List.length prev)%nat
  /\ (forall existing,
         NoDup (map id prev) ->
         find (fun s => sameId s cur) prev = Some existing ->
         (reviewedSince (setHours0 tz t') existing ->
          reviews (dailyProgress tz t' voc (finishUpdate t cur prev))
          = reviews (dailyProgress tz t' voc prev))
         /\ (~ reviewedSince (setHours0 tz t') existing ->
             reviews (dailyProgress tz t' voc (finishUpdate t cur prev))
             = S (reviews (dailyProgress tz t' voc prev))))
  /\ (forall cs,
         find (fun s => sameId s cur) prev = None ->
         asLearningSession cur = Some cs ->
         reviews (dailyProgress tz t' voc (finishUpdate t cur prev))
         = S (reviews (dailyProgress tz t' voc prev))).
Proof.
  intros H0 Hday.
  assert (Hnew : forall s rc nra lna,
             truthy (lastReviewedAt (withSchedule s rc nra lna (Some t)))
             && geOpt (lastReviewedAt (withSchedule s rc nra lna (Some t)))
                  (setHours0 tz t') = true).
  { intros s rc nra lna. apply reviewedSince_spec. exists t. fields. auto. }
  split; [|split].
  - unfold dailyProgress. cbn [reviews]. apply filter_length_le.
  - intros existing Hnd Hf.
    destruct (store_split _ _ _ Hnd Hf) as (a & b & -> & Hab).
    rewrite (finishUpdate_existing _ _ _ _ Hf).
    assert (He : sameId existing cur = true)
      by (apply find_some in Hf; tauto).
    rewrite map_app. cbn [map]. rewrite He.
    rewrite (map_unchanged _ a), (map_unchanged _ b);
      try (intros s Hs; rewrite Hab; [reflexivity | apply in_or_app; tauto]).
    unfold dailyProgress. cbn [reviews].
    rewrite !filter_app. cbn [filter]. rewrite Hnew.
    rewrite !length_app. cbn [List.length].
    split; intros Hrev.
    + rewrite (proj2 (reviewedSince_spec _ _) Hrev). reflexivity.
    + destruct (truthy (lastReviewedAt existing)
                && geOpt (lastReviewedAt existing) (setHours0 tz t')) eqn:E.
      * exfalso. apply Hrev. now apply reviewedSince_spec.
      * cbn [List.length]. lia.
  - intros cs Hf Hcs. rewrite (finishUpdate_new _ _ _ _ Hf Hcs).
    unfold dailyProgress. cbn [reviews filter]. now rewrite Hnew.
Qed.

Lemma reviews_count_sessions_witness :
  1702592000000 <> 0
  /\ setHours0 (fixedOffset 28800000) 1702592000000 <= 1702592000000
  /\ reviews
       (dailyProgress (fixedOffset 28800000) 1702592000000 []
          (finishUpdate 1702592000000 (toPartial reviewedFiveTimes)
             [newcomer; reviewedFiveTimes]))
     = S (reviews
            (dailyProgress (fixedOffset 28800000) 1702592000000 []
               [newcomer; reviewedFiveTimes]))
  /\ reviews
       (dailyProgress (fixedOffset 28800000) 1702592000000 []
          (finishUpdate 1702592000000 (toPartial reviewedFiveTimes)
             (finishUpdate 1702592000000 (toPartial reviewedFiveTimes)
                [newcomer; reviewedFiveTimes])))
     = reviews
         (dailyProgress (fixedOffset 28800000) 1702592000000 []
            (finishUpdate 1702592000000 (toPartial reviewedFiveTimes)
               [newcomer; reviewedFiveTimes])).
Proof.
  assert (H0 : 1702592000000 <> 0) by lia.
  assert (Hd : setHours0 (fixedOffset 28800000) 1702592000000 <= 1702592000000)
    by (vm_compute; discriminate).
  split; [exact H0|]. split; [exact Hd|]. split.
  - destruct (reviews_count_sessions (fixedOffset 28800000) 1702592000000 1702592000000 []
                (toPartial reviewedFiveTimes) [newcomer; reviewedFiveTimes]
                H0 Hd) as (_ & Hex & _).
    destruct (Hex reviewedFiveTimes) as [_ Hnot].
    + repeat constructor; simpl; intuition discriminate.
    + reflexivity.
    + apply Hnot. intros (r & Hr & _ & Hle). injection Hr as <-.
      vm_compute in Hle. now apply Hle.
  - destruct (reviews_count_sessions (fixedOffset 28800000) 1702592000000 1702592000000 []
                (toPartial reviewedFiveTimes)
                (finishUpdate 1702592000000 (toPartial reviewedFiveTimes)
                   [newcomer; reviewedFiveTimes])
                H0 Hd) as (_ & Hex & _).
    destruct (Hex (withSchedule reviewedFiveTimes 6
                     (1702592000000 + 30 * msPerDay) (Some 0)
                     (Some 1702592000000))) as [Hyes _].
    + repeat constructor; simpl; intuition discriminate.
    + reflexivity.
    + apply Hyes. exists 1702592000000. split; [reflexivity|].
      split; [lia | exact Hd].
Defined.

Lemma bar_on_ranges (current goal : Z) :
  1 <= goal <= 50 -> 0 <= current <= 200 ->
  percentage (ProgressBar current goal) = Number.ofZ (shown current goal)
  /\ isCompleted (ProgressBar current goal) = (goal <=? current).
Proof.
  intros Hg Hc. pose proof checked_on_ranges as H.
  apply andb_prop in H as [H _]. apply andb_prop in H as [Hpos _].
  pose proof (forallb_range _ _ _ goal Hpos ltac:(simpl; lia)) as H1.
  pose proof (forallb_range _ _ _ current H1 ltac:(simpl; lia)) as H2.
  apply andb_prop in H2 as [Hp Hf].
  split; [now apply sf_eqb_eq | now apply eqb_prop].
Qed.

Lemma shown_checked :
  forallb (fun g => forallb (fun c => checkShown c g) (zrange 0 201))
    (zrange 1 50) = true.
Proof. vm_cast_no_check (eq_refl true). Qed.

(** With the goals the sliders allow and a count up to 200, the bar
    shows a whole number of percent from 0 to 100, never NaN nor a
    negative width; it shows 100 exactly when the goal is met (the
    completed flag), and one more item never lowers it.  The goals of a
    reachable state are in the range of the sliders, so this holds for both
    bars of the page. *)
Theorem progress_bar_range :
  (forall current goal : Z,
      1 <= goal <= 50 -> 0 <= current <= 200 ->
      exists p : Z,
        percentage (ProgressBar current goal) = Number.ofZ p
        /\ 0 <= p <= 100
        /\ (p = 100 <-> isCompleted (ProgressBar current goal) = true)
        /\ (current < 200 ->
            exists p', percentage (ProgressBar (current + 1) goal) = Number.ofZ p'
                       /\ p <= p'))
  /\ (forall (st : AppState) (current : Z),
         reachable st -> 0 <= current <= 200 ->
         exists p q : Z,
           percentage (ProgressBar current (dailyNewWords (goals st)))
           = Number.ofZ p
           /\ percentage (ProgressBar current (dailyReviews (goals st)))
              = Number.ofZ q
           /\ 0 <= p <= 100 /\ 0 <= q <= 100).
Proof.
  assert (Hshown : forall current goal,
             1 <= goal <= 50 -> 0 <= current <= 200 ->
             0 <= shown current goal <= 100
             /\ (shown current goal = 100 <-> (goal <=? current) = true)
             /\ shown current goal <= shown (current + 1) goal).
  { intros current goal Hg Hc.
    pose proof (forallb_range _ _ _ goal shown_checked ltac:(simpl; lia)) as H1.
    pose proof (forallb_range _ _ _ current H1 ltac:(simpl; lia)) as H2.
    unfold checkShown in H2.
    apply andb_prop in H2 as [H2 Hm]. apply andb_prop in H2 as [H2 He].
    apply andb_prop in H2 as [Hlo Hhi].
    apply Z.leb_le in Hlo, Hhi, Hm. apply eqb_prop in He.
    split; [lia|]. split; [|exact Hm].
    rewrite <- He. symmetry. apply Z.eqb_eq. }
  split.
  - intros current goal Hg Hc.
    destruct (bar_on_ranges current goal Hg Hc) as [Hp Hf].
    destruct (Hshown current goal Hg Hc) as (Hr & H100 & Hm).
    exists (shown current goal). split; [exact Hp|]. split; [exact Hr|].
    split; [now rewrite Hf|]. intros Hlt.
    exists (shown (current + 1) goal). split; [|exact Hm].
    apply bar_on_ranges; lia.
  - intros st current Hr Hc.
    destruct (reachable_goals st Hr) as [Hn Hv].
    exists (shown current (dailyNewWords (goals st))),
           (shown current (dailyReviews (goals st))).
    split; [now apply bar_on_ranges|]. split; [now apply bar_on_ranges|].
    split; now apply Hshown.
Qed.

Lemma progress_bar_range_witness :
  (1 <= 40 <= 50 /\ 0 <= 23 <= 200)
  /\ exists p : Z,
       percentage (ProgressBar 23 40) = Number.ofZ p
       /\ 0 <= p <= 100
       /\ (p = 100 <-> isCompleted (ProgressBar 23 40) = true)
       /\ (23 < 200 ->
           exists p', percentage (ProgressBar (23 + 1) 40) = Number.ofZ p'
                      /\ p <= p').
Proof.
  split; [lia|].
  apply (proj1 progress_bar_range 23 40); lia.
Defined.

(* ================================================================== *)
(** * The vocabulary *)
(* ================================================================== *)

Lemma stripPunctuation_idem (w : string) :
  stripPunctuation (stripPunctuation w) = stripPunctuation w.
Proof.
  induction w as [|c w IH]; [reflexivity|]. cbn [stripPunctuation].
  destruct (isPunctuation c) eqn:E; [exact IH|].
  cbn [stripPunctuation]. now rewrite E, IH.
Qed.

Lemma NoDup_map_filter {K V : Type} (key : V -> K) (keep : V -> bool) :
  forall entries : list V,
    NoDup (map key entries) -> NoDup (map key (filter keep entries)).
Proof.
  intros l. induction l as [|x l IH]; simpl; [auto|].
  intros H. inversion H as [|? ? Hx Hl]; subst.
  destruct (keep x); simpl; [|auto]. constructor; [|auto].
  intros Hin. apply Hx. apply in_map_iff in Hin as (y & Hy & Hin).
  apply filter_In in Hin as [Hin _]. rewrite <- Hy. now apply in_map.
Qed.

Lemma filter_all {A : Type} (p : A -> bool) (l : list A) :
  (forall a, In a l -> p a = true) -> filter p l = l.
Proof.
  induction l as [|x l IH]; intros H; simpl; [reflexivity|].
  rewrite (H x (or_introl eq_refl)). f_equal. apply IH.
  intros a Ha. apply H. now right.
Qed.

Section VocabularyFacts.
Variable toLowerCase : string -> string.

Lemma isWordInVocab_clean (voc : list VocabularyWord) (w : string) :
  isWordInVocab toLowerCase voc (stripPunctuation w)
  = isWordInVocab toLowerCase voc w.
Proof. unfold isWordInVocab. now rewrite stripPunctuation_idem. Qed.

Lemma isWordInVocab_false (voc : list VocabularyWord) (w : string) :
  isWordInVocab toLowerCase voc w = false <->
  forall v, In v voc ->
            toLowerCase (word (detail v)) <> toLowerCase (stripPunctuation w).
Proof.
  unfold isWordInVocab. split.
  - intros H v Hv Heq.
    assert (existsb
              (fun v => (toLowerCase (word (detail v))
                         =? toLowerCase (stripPunctuation w))%string) voc = true)
      by (apply existsb_exists; exists v; split; [exact Hv | now apply String.eqb_eq]).
    congruence.
  - intros H. destruct (existsb _ voc) eqn:E; [|reflexivity].
    apply existsb_exists in E as (v & Hv & Heq).
    apply String.eqb_eq in Heq. now destruct (H v Hv).
Qed.

Lemma toggleStar_add (t : Z) (selected : WordDetail) (voc : list VocabularyWord) :
  isWordInVocab toLowerCase voc (word selected) = false ->
  toggleStar toLowerCase t selected voc = starredWord t selected :: voc.
Proof. intros E. unfold toggleStar. now rewrite isWordInVocab_clean, E. Qed.

Lemma toggleStar_remove (t : Z) (selected : WordDetail)
    (voc : list VocabularyWord) :
  isWordInVocab toLowerCase voc (word selected) = true ->
  toggleStar toLowerCase t selected voc
  = filter (fun v => negb (toLowerCase (word (detail v))
                           =? toLowerCase (stripPunctuation (word selected)))%string)
      voc.
Proof. intros E. unfold toggleStar. now rewrite isWordInVocab_clean, E. Qed.

Lemma starredWord_in (t : Z) (selected : WordDetail) (voc : list VocabularyWord) :
  isWordInVocab toLowerCase (starredWord t selected :: voc) (word selected) = true.
Proof.
  unfold isWordInVocab. cbn [existsb starredWord detail word].
  now rewrite String.eqb_refl.
Qed.

(** The star toggles the membership of the selected word and of no other:
    after the click the word is in the vocabulary exactly when it was not
    before, and a word that differs from it, punctuation and case apart,
    is in the vocabulary as before.  A word that was not in it is added in
    front, without its punctuation and with the instant of the click; for
    a word that was in it, every entry that spells it, in whatever case, is
    removed and the other entries are kept in their order. *)
Theorem star_toggles_membership (t : Z) (selected : WordDetail)
    (voc : list VocabularyWord) :
  isWordInVocab toLowerCase (toggleStar toLowerCase t selected voc) (word selected)
  = negb (isWordInVocab toLowerCase voc (word selected))
  /\ (forall w,
         toLowerCase (stripPunctuation w)
         <> toLowerCase (stripPunctuation (word selected)) ->
         isWordInVocab toLowerCase (toggleStar toLowerCase t selected voc) w
         = isWordInVocab toLowerCase voc w)
  /\ (isWordInVocab toLowerCase voc (word selected) = false ->
      exists v, toggleStar toLowerCase t selected voc = v :: voc
                /\ word (detail v) = stripPunctuation (word selected)
                /\ addedAt v = t)
  /\ (isWordInVocab toLowerCase voc (word selected) = true ->
      toggleStar toLowerCase t selected voc
      = filter (fun v => negb (toLowerCase (word (detail v))
                               =? toLowerCase (stripPunctuation (word selected)))%string)
          voc).
Proof.
  unfold toggleStar. rewrite isWordInVocab_clean.
  destruct (isWordInVocab toLowerCase voc (word selected)) eqn:E.
  - split; [|split; [|split]]; [| |discriminate|reflexivity].
    + apply isWordInVocab_false. intros v Hv.
      apply filter_In in Hv as [_ Hv]. apply negb_true_iff in Hv.
      now apply String.eqb_neq in Hv.
    + intros w Hw. unfold isWordInVocab.
      destruct (existsb _ voc) eqn:Ex.
      * apply existsb_exists in Ex as (v & Hv & Heq).
        apply existsb_exists. exists v. split; [|exact Heq].
        apply filter_In. split; [exact Hv|].
        apply negb_true_iff, String.eqb_neq. apply String.eqb_eq in Heq.
        congruence.
      * destruct (existsb _ (filter _ voc)) eqn:Ex'; [|reflexivity].
        apply existsb_exists in Ex' as (v & Hv & Heq).
        apply filter_In in Hv as [Hv _].
        assert (existsb
                  (fun v => (toLowerCase (word (detail v))
                             =? toLowerCase (stripPunctuation w))%string) voc = true)
          by (apply existsb_exists; now exists v).
        congruence.
  - split; [|split; [|split]]; [| | |discriminate].
    + unfold isWordInVocab. cbn [existsb detail word].
      now rewrite String.eqb_refl.
    + intros w Hw. unfold isWordInVocab. cbn [existsb detail word].
      destruct (String.eqb_spec (toLowerCase (stripPunctuation (word selected)))
                  (toLowerCase (stripPunctuation w))); [congruence | reflexivity].
    + intros _. eexists. split; [reflexivity|]. split; reflexivity.
Qed.

(** Starring a word that is not in the vocabulary and starring it again
    gives the vocabulary back as it was. *)
Theorem star_twice (t t' : Z) (selected : WordDetail)
    (voc : list VocabularyWord) :
  isWordInVocab toLowerCase voc (word selected) = false ->
  toggleStar toLowerCase t' selected (toggleStar toLowerCase t selected voc)
  = voc.
Proof.
  intros E. pose proof (proj1 (isWordInVocab_false _ _) E) as Hno.
  rewrite (toggleStar_add t selected voc E).
  rewrite (toggleStar_remove t' selected _ (starredWord_in t selected voc)).
  cbn [filter starredWord detail word]. rewrite String.eqb_refl. cbn [negb].
  apply filter_all. intros v Hv. apply negb_true_iff, String.eqb_neq.
  now apply Hno.
Qed.

(** A word starred at [t] counts as a new word of the day: seen at an
    instant [t'] whose day has begun by [t], the count of new words is one
    more than before.  Removing a word with the star never raises it. *)
Theorem star_counts_today (tz : TimeZone) (t t' : Z) (selected : WordDetail)
    (voc : list VocabularyWord) (l : list LearningSession) :
  setHours0 tz t' <= t ->
  (isWordInVocab toLowerCase voc (word selected) = false ->
   newWords (dailyProgress tz t' (toggleStar toLowerCase t selected voc) l)
   = S (newWords (dailyProgress tz t' voc l)))
  /\ (isWordInVocab toLowerCase voc (word selected) = true ->
      (newWords (dailyProgress tz t' (toggleStar toLowerCase t selected voc) l)
       <= newWords (dailyProgress tz t' voc l))%nat).
Proof.
  intros Hday. unfold toggleStar. rewrite isWordInVocab_clean. split; intros E;
    rewrite E; unfold dailyProgress; cbn [newWords].
  - cbn [filter addedAt]. destruct (Z.geb_spec t (setHours0 tz t')); [|lia].
    reflexivity.
  - clear E. induction voc as [|v voc' IH]; [simpl; lia|].
    cbn [filter]. destruct (negb _); cbn [filter];
      destruct (addedAt v >=? setHours0 tz t'); cbn [List.length]; lia.
Qed.

(** A vocabulary built with the star and the delete button never holds
    two entries that spell the same word, case apart, and its words carry
    no punctuation.  So the star of a stored word is lit, and deleting an
    entry with the delete button leaves no entry for its word. *)
Theorem vocabulary_no_duplicates (voc : list VocabularyWord) :
  vocabularyOf toLowerCase voc ->
  NoDup (map (fun v => toLowerCase (word (detail v))) voc)
  /\ Forall (fun v => stripPunctuation (word (detail v)) = word (detail v)) voc
  /\ (forall v, In v voc ->
                isWordInVocab toLowerCase voc (word (detail v)) = true
                /\ isWordInVocab toLowerCase (deleteWord v voc) (word (detail v))
                   = false).
Proof.
  intros H.
  assert (Hinv : NoDup (map (fun v => toLowerCase (word (detail v))) voc)
                 /\ Forall (fun v => stripPunctuation (word (detail v))
                                     = word (detail v)) voc).
  { induction H as [|t selected voc _ [IHn IHf]|v voc _ [IHn IHf]].
    - split; constructor.
    - unfold toggleStar. rewrite isWordInVocab_clean.
      destruct (isWordInVocab toLowerCase voc (word selected)) eqn:E.
      + split; [now apply NoDup_map_filter|].
        apply Forall_forall. intros v Hv. apply filter_In in Hv as [Hv _].
        exact (proj1 (Forall_forall _ _) IHf v Hv).
      + split.
        * cbn [map detail word]. constructor; [|exact IHn].
          intros Hin. apply in_map_iff in Hin as (v & Hv & Hin).
          exact (proj1 (isWordInVocab_false _ _) E v Hin Hv).
        * constructor; [|exact IHf]. cbn [detail word].
          apply stripPunctuation_idem.
    - unfold deleteWord. split; [now apply NoDup_map_filter|].
      apply Forall_forall. intros v' Hv. apply filter_In in Hv as [Hv _].
      exact (proj1 (Forall_forall _ _) IHf v' Hv). }
  destruct Hinv as [Hn Hf]. split; [exact Hn|]. split; [exact Hf|].
  intros v Hv. pose proof (proj1 (Forall_forall _ _) Hf v Hv) as Hclean. split.
  - unfold isWordInVocab. apply existsb_exists. exists v.
    split; [exact Hv|]. rewrite Hclean. apply String.eqb_refl.
  - apply isWordInVocab_false. intros v' Hv' Heq. rewrite Hclean in Heq.
    apply filter_In in Hv' as [Hv' Hne].
    apply negb_true_iff, String.eqb_neq in Hne. apply Hne.
    f_equal. f_equal.
    exact (NoDup_map_inj (fun v => toLowerCase (word (detail v))) voc v' v
             Hn Hv' Hv Heq).
Qed.
End VocabularyFacts.

Lemma star_toggles_membership_witness :
  isWordInVocab asciiLower [starredWord 5 (detailOf "Carpe")] "carpe!" = true
  /\ toggleStar asciiLower 9 (detailOf "carpe!") [starredWord 5 (detailOf "Carpe")]
     = []
  /\ exists v, toggleStar asciiLower 9 (detailOf "diem.") [starredWord 5 (detailOf "Carpe")]
               = v :: [starredWord 5 (detailOf "Carpe")]
               /\ word (detail v) = stripPunctuation "diem."
               /\ addedAt v = 9.
Proof.
  split; [reflexivity|]. split.
  - rewrite (proj2 (proj2 (proj2
               (star_toggles_membership asciiLower 9 (detailOf "carpe!")
                  [starredWord 5 (detailOf "Carpe")]))) eq_refl).
    reflexivity.
  - apply (proj1 (proj2 (proj2
             (star_toggles_membership asciiLower 9 (detailOf "diem.")
                [starredWord 5 (detailOf "Carpe")])))).
    reflexivity.
Defined.

Lemma star_twice_witness :
  isWordInVocab asciiLower [starredWord 5 (detailOf "Carpe")] "diem." = false
  /\ toggleStar asciiLower 12 (detailOf "diem.")
       (toggleStar asciiLower 9 (detailOf "diem.")
          [starredWord 5 (detailOf "Carpe")])
     = [starredWord 5 (detailOf "Carpe")].
Proof.
  split; [reflexivity|].
  apply (star_twice asciiLower 9 12 (detailOf "diem.")
           [starredWord 5 (detailOf "Carpe")]).
  reflexivity.
Defined.

Lemma star_counts_today_witness :
  setHours0 (fixedOffset 28800000) 1700000100000 <= 1700000000000
  /\ newWords
       (dailyProgress (fixedOffset 28800000) 1700000100000
          (toggleStar asciiLower 1700000000000 (detailOf "diem.")
             [starredWord 5 (detailOf "Carpe")]) [])
     = S (newWords
            (dailyProgress (fixedOffset 28800000) 1700000100000
               [starredWord 5 (detailOf "Carpe")] [])).
Proof.
  assert (Hd : setHours0 (fixedOffset 28800000) 1700000100000 <= 1700000000000)
    by (vm_compute; discriminate).
  split; [exact Hd|].
  apply (proj1 (star_counts_today asciiLower (fixedOffset 28800000) 1700000000000
                  1700000100000 (detailOf "diem.")
                  [starredWord 5 (detailOf "Carpe")] [] Hd)).
  reflexivity.
Defined.

Lemma vocabulary_no_duplicates_witness :
  NoDup
    (map (fun v => asciiLower (word (detail v)))
       (toggleStar asciiLower 9 (detailOf "diem.")
          (toggleStar asciiLower 5 (detailOf "Carpe") [])))
  /\ isWordInVocab asciiLower
       (deleteWord (starredWord 5 (detailOf "Carpe"))
          (toggleStar asciiLower 9 (detailOf "diem.")
             (toggleStar asciiLower 5 (detailOf "Carpe") [])))
       "Carpe" = false.
Proof.
  destruct (vocabulary_no_duplicates asciiLower
              (toggleStar asciiLower 9 (detailOf "diem.")
                 (toggleStar asciiLower 5 (detailOf "Carpe") [])))
    as (Hn & _ & Hv).
  - apply vocabulary_star, vocabulary_star, vocabulary_empty.
  - split; [exact Hn|].
    apply (Hv (starredWord 5 (detailOf "Carpe"))). right; left. reflexivity.
Defined.

(* ================================================================== *)
(** * The decoding of the speech audio *)
(* ================================================================== *)

Lemma pairs_ind {A : Type} (P : list A -> Prop) :
  P [] -> (forall a, P [a]) ->
  (forall a b l, P l -> P (a :: b :: l)) -> forall l, P l.
Proof.
  intros H0 H1 H2.
  assert (H : forall l, P l /\ forall a, P (a :: l)).
  { induction l as [|x l [IH IH']]; [split; auto|].
    split; [apply IH'|]. intros a. now apply H2. }
  intros l. apply H.
Qed.

Lemma int16Array_length (bytes : list Z) :
  match int16Array bytes with
  | Some l => List.length bytes = (2 * List.length l)%nat
  | None => Nat.even (List.length bytes) = false
  end.
Proof.
  induction bytes as [|a|a b l IH] using pairs_ind; [reflexivity..|].
  cbn [int16Array]. destruct (int16Array l) as [r|]; cbn [List.length].
  - lia.
  - exact IH.
Qed.

Lemma charCodes_length (audioData : string) :
  List.length (charCodes audioData) = String.length audioData.
Proof.
  unfold charCodes. rewrite length_map.
  induction audioData as [|c s IH]; simpl; congruence.
Qed.

Lemma charCodes_bytes (audioData : string) :
  Forall (fun b => 0 <= b <= 255) (charCodes audioData).
Proof.
  unfold charCodes. apply Forall_forall. intros b Hb.
  apply in_map_iff in Hb as (c & <- & _).
  pose proof (nat_ascii_bounded c). lia.
Qed.

Lemma toInt16_range (lo hi : Z) :
  0 <= lo <= 255 -> 0 <= hi <= 255 ->
  -32768 <= toInt16 (lo + 256 * hi) <= 32767.
Proof.
  intros Hlo Hhi. unfold toInt16.
  destruct (Z.ltb_spec (lo + 256 * hi) 32768); lia.
Qed.

Lemma toInt16_bytes (lo hi : Z) :
  0 <= lo <= 255 -> 0 <= hi <= 255 ->
  toInt16 (lo + 256 * hi) mod 256 = lo
  /\ (toInt16 (lo + 256 * hi) / 256) mod 256 = hi.
Proof.
  intros Hlo Hhi. unfold toInt16.
  destruct (Z.ltb_spec (lo + 256 * hi) 32768).
  - assert (Hq : (lo + 256 * hi) / 256 = hi)
      by (symmetry; apply (Z.div_unique_pos _ _ hi lo); lia).
    rewrite Hq. split; [|apply Z.mod_small; lia].
    symmetry. apply (Z.mod_unique_pos _ _ hi); lia.
  - assert (Hq : (lo + 256 * hi - 65536) / 256 = hi - 256)
      by (symmetry; apply (Z.div_unique_pos _ _ (hi - 256) lo); lia).
    rewrite Hq. split; symmetry.
    + apply (Z.mod_unique_pos _ _ (hi - 256)); lia.
    + apply (Z.mod_unique_pos _ _ (-1)); lia.
Qed.

Lemma int16Array_range (bytes : list Z) (l : list Z) :
  Forall (fun b => 0 <= b <= 255) bytes ->
  int16Array bytes = Some l ->
  Forall (fun s => -32768 <= s <= 32767) l.
Proof.
  revert l. induction bytes as [|a|a b r IH] using pairs_ind; intros l Hb H.
  - injection H as <-. constructor.
  - discriminate.
  - cbn [int16Array] in H. destruct (int16Array r) as [l'|]; [|discriminate].
    injection H as <-.
    pose proof (Forall_inv Hb) as Ha. apply Forall_inv_tail in Hb.
    pose proof (Forall_inv Hb) as Hb0. apply Forall_inv_tail in Hb.
    cbv beta in Ha, Hb0. constructor; [|now apply IH].
    now apply toInt16_range.
Qed.

Lemma allBits_spec (n : nat) (f : Z -> bool) :
  forall b z : Z,
    allBits n f b = true ->
    b * 2 ^ Z.of_nat n <= z < (b + 1) * 2 ^ Z.of_nat n -> f z = true.
Proof.
  induction n as [|n IH]; intros b z H Hz.
  - simpl in H. change (2 ^ Z.of_nat 0) with 1 in Hz.
    now replace z with b by lia.
  - cbn [allBits] in H. apply andb_prop in H as [H0 H1].
    rewrite Nat2Z.inj_succ, Z.pow_succ_r in Hz by lia.
    pose proof (Z.pow_pos_nonneg 2 (Z.of_nat n) ltac:(lia) ltac:(lia)) as Hp.
    destruct (Z_lt_ge_dec z ((2 * b + 1) * 2 ^ Z.of_nat n)) as [Hlt|Hge].
    + apply (IH (2 * b)); [exact H0 | nia].
    + apply (IH (2 * b + 1)); [exact H1 | nia].
Qed.

Lemma samples_checked :
  allBits 16 (fun u => checkSample (u - 32768)) 0 = true.
Proof. vm_cast_no_check (eq_refl true). Qed.

Lemma channelSample_exact (s : Z) :
  -32768 <= s <= 32767 ->
  channelSample s = scaled s
  /\ Number.geb (channelSample s) (Number.ofZ (-1)) = true
  /\ Number.ltb (channelSample s) (Number.ofZ 1) = true
  /\ unscaled (channelSample s) = s.
Proof.
  intros Hs.
  pose proof (allBits_spec _ _ 0 (s + 32768) samples_checked) as H.
  change (2 ^ Z.of_nat 16) with 65536 in H.
  cbv beta in H. specialize (H ltac:(lia)).
  replace (s + 32768 - 32768) with s in H by lia.
  unfold checkSample in H. cbv zeta in H.
  apply andb_prop in H as [H Hu]. apply andb_prop in H as [H Hlt].
  apply andb_prop in H as [He Hge].
  apply sf_eqb_eq in He. apply Z.eqb_eq in Hu. auto.
Qed.

(** The audio data decode two bytes to a sample.  An odd number of bytes
    makes the typed array constructor throw, and no byte at all makes the
    buffer constructor throw, so nothing is played; an even number of bytes,
    two or more, gives half as many samples. *)
Theorem audio_sample_count (audioData : string) :
  (Nat.even (String.length audioData) = false -> decodeAudio audioData = None)
  /\ (String.length audioData = 0%nat -> decodeAudio audioData = None)
  /\ (Nat.even (String.length audioData) = true ->
      String.length audioData <> 0%nat ->
      exists l, decodeAudio audioData = Some l
                /\ String.length audioData = (2 * List.length l)%nat).
Proof.
  unfold decodeAudio. pose proof (int16Array_length (charCodes audioData)) as H.
  rewrite charCodes_length in H.
  destruct (int16Array (charCodes audioData)) as [[|x l]|].
  - split; [reflexivity|]. split; [reflexivity|]. intros _ Hn.
    now destruct Hn.
  - split; [|split].
    + intros Ho. rewrite H in Ho. rewrite Nat.even_mul in Ho. discriminate.
    + intros H0. rewrite H0 in H. cbn [List.length] in H. lia.
    + intros _ _. eexists. split; [reflexivity|]. now rewrite length_map.
  - split; [reflexivity|]. split; [|intros He; congruence].
    intros H0. rewrite H0 in H. discriminate.
Qed.

Lemma audio_sample_count_witness :
  decodeAudio "abc" = None
  /\ decodeAudio EmptyString = None
  /\ exists l, decodeAudio "abcd" = Some l
               /\ String.length "abcd" = (2 * List.length l)%nat.
Proof.
  split; [|split].
  - apply (proj1 (audio_sample_count "abc")). reflexivity.
  - apply (proj1 (proj2 (audio_sample_count EmptyString))). reflexivity.
  - apply (proj2 (proj2 (audio_sample_count "abcd"))); [reflexivity|].
    discriminate.
Defined.

(** Every decoded sample is the signed 16-bit integer of its two bytes,
    low byte first, divided by 32768 without rounding: a number from -1
    (included) to 1 (excluded), from which the integer, and so the two
    bytes, can be read back. *)
Theorem audio_samples_exact (audioData : string) (l : list spec_float) :
  decodeAudio audioData = Some l ->
  int16Array (charCodes audioData) = Some (map unscaled l)
  /\ l = map scaled (map unscaled l)
  /\ Forall
       (fun x =>
          -32768 <= unscaled x <= 32767
          /\ Number.geb x (Number.ofZ (-1)) = true
          /\ Number.ltb x (Number.ofZ 1) = true)
       l
  /\ (forall lo hi : Z,
         0 <= lo <= 255 -> 0 <= hi <= 255 ->
         toInt16 (lo + 256 * hi) mod 256 = lo
         /\ (toInt16 (lo + 256 * hi) / 256) mod 256 = hi).
Proof.
  unfold decodeAudio. intros H.
  destruct (int16Array (charCodes audioData)) as [ints|] eqn:E; [|discriminate].
  assert (H' : map channelSample ints = l)
    by (destruct ints; [discriminate | now injection H]).
  clear H. destruct H'.
  pose proof (int16Array_range _ _ (charCodes_bytes audioData) E) as Hr.
  assert (Hu : map unscaled (map channelSample ints) = ints).
  { rewrite map_map. apply map_unchanged. intros s Hs.
    apply channelSample_exact. exact (proj1 (Forall_forall _ _) Hr s Hs). }
  split; [now rewrite Hu|]. split; [|split].
  - rewrite Hu. apply map_ext_in. intros s Hs.
    apply channelSample_exact. exact (proj1 (Forall_forall _ _) Hr s Hs).
  - apply Forall_forall. intros x Hx. apply in_map_iff in Hx as (s & <- & Hs).
    pose proof (proj1 (Forall_forall _ _) Hr s Hs) as Hrange.
    destruct (channelSample_exact s Hrange) as (_ & Hge & Hlt & Hun).
    rewrite Hun. auto.
  - exact toInt16_bytes.
Qed.

Lemma audio_samples_exact_witness :
  decodeAudio "abcd" = Some (map channelSample [25185; 25699])
  /\ int16Array (charCodes "abcd")
     = Some (map unscaled (map channelSample [25185; 25699]))
  /\ map channelSample [25185; 25699]
     = map scaled (map unscaled (map channelSample [25185; 25699])).
Proof.
  assert (H : decodeAudio "abcd" = Some (map channelSample [25185; 25699]))
    by reflexivity.
  split; [exact H|].
  destruct (audio_samples_exact "abcd" _ H) as (Hi & Hl & _).
  split; [exact Hi | exact Hl].
Defined.
